(** * UnetLogoInsertion: banner detection, corner stabilisation and logo insertion

    A shallow embedding of [models/nn_models/UnetLogoInsertion.py].

    The Python code computes on numpy/pandas floating-point values.  The
    embedding is generic in the number type, through the interface
    [Numeric]; two instances are given:

    - [xnum]: exact rationals extended with the IEEE special values
      [+inf], [-inf] and [NaN] (what a division by zero produces in numpy),
      executable; sums, products and quotients are exact, square roots and
      [arccos] are computed to a fixed number of decimals;
    - [R]: the real numbers, the exact-arithmetic reading of the code. *)

From Stdlib Require Import ZArith QArith Qround Qabs Reals Lra Lia Bool.
From Stdlib Require Lqa.
From stdpp Require Import base list.

Local Open Scope Z_scope.

(** ** Exceptions *)

Inductive exn : Type :=
| KeyError (label : Z)
| ValueError
| TypeError
| IndexError
| OverflowError
| UnboundLocalError
| FileNotFoundError.

Inductive res (A : Type) : Type :=
| Ok (a : A)
| Raise (e : exn).
Arguments Ok {A} a.
Arguments Raise {A} e.

Definition res_bind {A B} (m : res A) (k : A -> res B) : res B :=
  match m with
  | Ok a => k a
  | Raise e => Raise e
  end.

(** ** Numbers *)

Class Numeric (num : Type) := {
  lit : Q -> num;                 (* a numeric literal *)
  np_pi : num;                    (* np.pi *)
  add : num -> num -> num;
  sub : num -> num -> num;
  mul : num -> num -> num;
  div : num -> num -> num;
  nabs : num -> num;              (* abs *)
  np_sqrt : num -> num;           (* np.sqrt *)
  np_arccos : num -> num;         (* np.arccos *)
  py_round : num -> num;          (* round(x): nearest integer, ties to even *)
  py_int : num -> res Z;          (* int(x): truncation towards zero; raises on
                                     NaN and on an infinity *)
  ltb : num -> num -> bool;       (* a < b *)
  leb : num -> num -> bool        (* a <= b *)
}.

Declare Scope num_scope.
Delimit Scope num_scope with num.
Infix "+" := add : num_scope.
Infix "-" := sub : num_scope.
Infix "*" := mul : num_scope.
Infix "/" := div : num_scope.
Infix "<?" := ltb : num_scope.
Infix "<=?" := leb : num_scope.
Notation "a >? b" := (ltb b a) (at level 70, only parsing) : num_scope.
Notation "a >=? b" := (leb b a) (at level 70, only parsing) : num_scope.

(** *** Extended rationals *)

Inductive xnum : Type :=
| Fin (q : Q)
| PInf
| NInf
| NaN.

Definition finite (a : xnum) : Prop :=
  match a with Fin _ => True | _ => False end.

Definition is_finite (a : xnum) : bool :=
  match a with Fin _ => true | _ => false end.

Module X.

Definition fin (q : Q) : xnum := Fin (Qred q).

Definition sgn (q : Q) : comparison := (q ?= 0)%Q.

Definition neg (a : xnum) : xnum :=
  match a with
  | Fin q => fin (- q)
  | PInf => NInf
  | NInf => PInf
  | NaN => NaN
  end.

Definition add (a b : xnum) : xnum :=
  match a, b with
  | NaN, _ | _, NaN => NaN
  | Fin p, Fin q => fin (p + q)
  | PInf, NInf | NInf, PInf => NaN
  | PInf, _ | _, PInf => PInf
  | NInf, _ | _, NInf => NInf
  end.

Definition sub (a b : xnum) : xnum := add a (neg b).

(* an infinity of the sign of [c], or NaN when [c] is zero *)
Definition inf_of (c : comparison) : xnum :=
  match c with Gt => PInf | Lt => NInf | Eq => NaN end.

Definition sgnx (a : xnum) : comparison :=
  match a with
  | Fin q => sgn q
  | PInf => Gt
  | NInf => Lt
  | NaN => Eq
  end.

Definition cmul (c d : comparison) : comparison :=
  match c, d with
  | Eq, _ | _, Eq => Eq
  | Gt, Gt | Lt, Lt => Gt
  | _, _ => Lt
  end.

Definition mul (a b : xnum) : xnum :=
  match a, b with
  | NaN, _ | _, NaN => NaN
  | Fin p, Fin q => fin (p * q)
  | _, _ => inf_of (cmul (sgnx a) (sgnx b))
  end.

(* x / 0 is an infinity of the sign of x, 0 / 0 and inf / inf are NaN *)
Definition div (a b : xnum) : xnum :=
  match a, b with
  | NaN, _ | _, NaN => NaN
  | Fin p, Fin q =>
      match sgn q with
      | Eq => inf_of (sgn p)
      | _ => fin (p / q)
      end
  | Fin _, _ => fin 0
  | _, Fin q =>
      match sgn q with
      | Eq => a
      | c => inf_of (cmul (sgnx a) c)
      end
  | _, _ => NaN
  end.

Definition abs (a : xnum) : xnum :=
  match a with
  | Fin q => fin (Qabs q)
  | PInf | NInf => PInf
  | NaN => NaN
  end.

Definition ltb (a b : xnum) : bool :=
  match a, b with
  | NaN, _ | _, NaN => false
  | Fin p, Fin q => match (p ?= q)%Q with Lt => true | _ => false end
  | NInf, NInf => false
  | NInf, _ => true
  | _, NInf => false
  | PInf, _ => false
  | _, PInf => true
  end.

Definition leb (a b : xnum) : bool :=
  match a, b with
  | NaN, _ | _, NaN => false
  | Fin p, Fin q => match (p ?= q)%Q with Gt => false | _ => true end
  | NInf, _ => true
  | _, PInf => true
  | _, _ => false
  end.

(* nearest integer, ties to the even one *)
Definition round_half_even (q : Q) : Z :=
  let f := Qfloor q in
  match (q - inject_Z f ?= 1 # 2)%Q with
  | Lt => f
  | Gt => f + 1
  | Eq => if Z.even f then f else f + 1
  end.

Definition round (a : xnum) : xnum :=
  match a with
  | Fin q => fin (inject_Z (round_half_even q))
  | _ => a
  end.

(* int(x): ValueError on NaN, OverflowError on an infinity *)
Definition to_int (a : xnum) : res Z :=
  match a with
  | Fin q => Ok (Z.quot (Qnum q) (Z.pos (Qden q)))
  | NaN => Raise ValueError
  | PInf | NInf => Raise OverflowError
  end.

(* square root: exact on squares of rationals, otherwise truncated to
   twelve decimals *)
Definition Qsqrt (q : Q) : Q :=
  let r := Qred q in
  let n := Qnum r in
  let d := Z.pos (Qden r) in
  if (Z.sqrt n * Z.sqrt n =? n) && (Z.sqrt d * Z.sqrt d =? d)
  then Qred (Qmake (Z.sqrt n) (Z.to_pos (Z.sqrt d)))
  else Qred (Qmake (Z.sqrt (n * 10 ^ 24 / d)) (10 ^ 12)).

Definition sqrt (a : xnum) : xnum :=
  match a with
  | Fin q => match sgn q with Lt => NaN | _ => Fin (Qsqrt q) end
  | PInf => PInf
  | NInf | NaN => NaN
  end.

Definition PIq : Q := 3141592653589793 # 1000000000000000.

(* truncation to eighteen decimals *)
Definition Qtrunc (q : Q) : Q :=
  Qred (Qmake (Qfloor (q * inject_Z (10 ^ 18))) (10 ^ 18)).

(* sin x by its Taylor polynomial of degree 2 * terms + 1, Horner form *)
Fixpoint sin_horner (terms : nat) (k : Z) (x2 : Q) : Q :=
  match terms with
  | O => 1
  | S t =>
      Qtrunc (1 - x2 * Qmake 1 (Z.to_pos ((2 * k) * (2 * k + 1)))
                  * sin_horner t (k + 1) x2)
  end%Q.

Definition Qsin (x : Q) : Q := Qtrunc (x * sin_horner 14 1 (Qtrunc (x * x))).

(* arcsin by bisection on [lo, hi], where sin is increasing *)
Fixpoint arcsin_bisect (fuel : nat) (lo hi c : Q) : Q :=
  let mid := Qtrunc ((lo + hi) / 2) in
  match fuel with
  | O => mid
  | S f =>
      match (Qsin mid ?= c)%Q with
      | Eq => mid
      | Lt => arcsin_bisect f mid hi c
      | Gt => arcsin_bisect f lo mid c
      end
  end.

Definition Qarccos (c : Q) : Q :=
  Qred (PIq / 2 - arcsin_bisect 40 (- (PIq / 2)) (PIq / 2) c).

Definition arccos (a : xnum) : xnum :=
  match a with
  | Fin q => if Qle_bool (-1) q && Qle_bool q 1 then Fin (Qarccos q) else NaN
  | _ => NaN
  end.

End X.

#[export] Instance xnum_numeric : Numeric xnum := {
  lit := X.fin;
  np_pi := Fin X.PIq;
  add := X.add;
  sub := X.sub;
  mul := X.mul;
  div := X.div;
  nabs := X.abs;
  np_sqrt := X.sqrt;
  np_arccos := X.arccos;
  py_round := X.round;
  py_int := X.to_int;
  ltb := X.ltb;
  leb := X.leb
}.

(** *** Real numbers *)

Module RNum.

Definition ltb (a b : R) : bool := if Rlt_dec a b then true else false.
Definition leb (a b : R) : bool := if Rle_dec a b then true else false.

Definition round (x : R) : R :=
  let f := Int_part x in
  let d := (x - IZR f)%R in
  if Rlt_dec d (1 / 2) then IZR f
  else if Rlt_dec (1 / 2) d then IZR (f + 1)
  else if Z.even f then IZR f else IZR (f + 1).

(* int(x) *)
Definition to_int (x : R) : res Z :=
  Ok (if Rle_dec 0 x then Int_part x else (- Int_part (- x))%Z).

End RNum.

(* The exact-arithmetic reading of the code: no rounding and no NaN.
   Stdlib's [acos] is total; it is arccos on [-1, 1], and the statements at
   [R] apply it there only. *)
#[export] Instance R_numeric : Numeric R := {
  lit := Q2R;
  np_pi := PI;
  add := Rplus;
  sub := Rminus;
  mul := Rmult;
  div := Rdiv;
  nabs := Rabs;
  np_sqrt := sqrt;
  np_arccos := acos;
  py_round := RNum.round;
  py_int := RNum.to_int;
  ltb := RNum.ltb;
  leb := RNum.leb
}.

(** ** The state-and-exception monad *)

(* A computation on a mutable object of type [S]: an exception leaves the
   object as mutated so far. *)
Definition M (S A : Type) : Type := S -> S * res A.

Definition ret {S A} (a : A) : M S A := fun s => (s, Ok a).
Definition raise {S A} (e : exn) : M S A := fun s => (s, Raise e).
Definition bind {S A B} (m : M S A) (k : A -> M S B) : M S B :=
  fun s => match m s with
           | (s', Ok a) => k a s'
           | (s', Raise e) => (s', Raise e)
           end.
Definition get {S} : M S S := fun s => (s, Ok s).
Definition put {S} (s : S) : M S unit := fun _ => (s, Ok tt).

Notation "'let*' x ':=' m 'in' k" := (bind m (fun x => k))
  (at level 10, x pattern, m at level 100, k at level 200).
Notation "m ';;' k" := (bind m (fun _ => k))
  (at level 100, k at level 200, right associativity).

(** ** The data model *)

(* One row of [saved_points]: the eight corner coordinates of a frame. *)
Record Corners (num : Type) : Type := {
  x_top_left : num;  y_top_left : num;
  x_top_right : num; y_top_right : num;
  x_bot_left : num;  y_bot_left : num;
  x_bot_right : num; y_bot_right : num
}.
Arguments x_top_left {num}. Arguments y_top_left {num}.
Arguments x_top_right {num}. Arguments y_top_right {num}.
Arguments x_bot_left {num}. Arguments y_bot_left {num}.
Arguments x_bot_right {num}. Arguments y_bot_right {num}.

(* The columns [__smooth_points] adds to the data frame. *)
Record Derived (num : Type) : Type := {
  center_x : num; center_y : num;
  dist_top_left : num; dist_bot_left : num;
  dist_top_right : num; dist_bot_right : num;
  left_height : num; top_width : num;
  right_height : num; bot_width : num;
  ratio : num; cos_alpha : num; angle : num;
  unstable_right : bool; unstable_left : bool
}.
Arguments center_x {num}. Arguments center_y {num}.
Arguments dist_top_left {num}. Arguments dist_bot_left {num}.
Arguments dist_top_right {num}. Arguments dist_bot_right {num}.
Arguments left_height {num}. Arguments top_width {num}.
Arguments right_height {num}. Arguments bot_width {num}.
Arguments ratio {num}. Arguments cos_alpha {num}. Arguments angle {num}.
Arguments unstable_right {num}. Arguments unstable_left {num}.

Record Row (num : Type) : Type := {
  pts : Corners num;
  der : Derived num
}.
Arguments pts {num}. Arguments der {num}.

(* A data frame: the rows in index order, each with its index label.
   [saved_points] is indexed by frame number. *)
Abbreviation Frame A := (list (Z * A)%type) (only parsing).

Section DataFrame.
Context {A : Type}.

(* df.loc[i] *)
Fixpoint loc (t : Frame A) (i : Z) : option A :=
  match t with
  | [] => None
  | (k, r) :: t' => if Z.eqb k i then Some r else loc t' i
  end.

(* df.loc[i] = r, for a label already in the index *)
Fixpoint set_loc (t : Frame A) (i : Z) (r : A) : Frame A :=
  match t with
  | [] => []
  | (k, r0) :: t' =>
      if Z.eqb k i then (k, r) :: t' else (k, r0) :: set_loc t' i r
  end.

(* df.loc[i] = r: overwrites the row labelled i, or appends a new row *)
Definition loc_assign (t : Frame A) (i : Z) (r : A) : Frame A :=
  match loc t i with
  | Some _ => set_loc t i r
  | None => t ++ [(i, r)]
  end.

Definition labels (t : Frame A) : list Z := map fst t.

(* the index is 0, 1, ..., len - 1, in this order *)
Definition dense (t : Frame A) : Prop :=
  labels t = seqZ 0 (Z.of_nat (length t)).

(* every label 0 .. len - 1 is in the index *)
Definition present (t : Frame A) : Prop :=
  forall i, (0 <= i < Z.of_nat (length t))%Z -> is_Some (loc t i).

(* df[col] *)
Definition column {B} (f : A -> B) (t : Frame A) : list B :=
  map (fun kr => f (snd kr)) t.

(* range(len(df)) *)
Definition py_range_len (t : Frame A) : list Z :=
  seqZ 0 (Z.of_nat (length t)).

End DataFrame.

(* range(a, b) *)
Definition py_range (a b : Z) : list Z := seqZ a (b - a).

(* The entries of the YAML parameter file that the modelled code reads. *)
Record Config (num : Type) : Type := {
  value_threshold : num;
  filter_area_size : num;
  min_window : Z;
  max_window : Z;
  poly_degree : Z;
  smooth_threshold : num;
  source_type : Z
}.
Arguments value_threshold {num}. Arguments filter_area_size {num}.
Arguments min_window {num}. Arguments max_window {num}.
Arguments poly_degree {num}. Arguments smooth_threshold {num}.
Arguments source_type {num}.

Local Open Scope num_scope.

(** ** Derived features ([__smooth_points], lines 422-462) *)

Section Features.
Context {num : Type} `{Numeric num}.

(* x ** 2 *)
Definition sq (a : num) : num := a * a.

(* get_distance, for one row *)
Definition get_distance (cx cy corner_x corner_y : num) : num :=
  np_sqrt (sq (cx - corner_x) + sq (cy - corner_y)).

(* np.linalg.norm of a 2-vector *)
Definition norm (v0 v1 : num) : num := np_sqrt (sq v0 + sq v1).

Definition derive (c : Corners num) : Derived num :=
  let center_x_1 := (x_top_left c + x_bot_right c) / lit 2 in
  let center_y_1 := (y_top_left c + y_bot_right c) / lit 2 in
  let center_x_2 := (x_top_right c + x_bot_left c) / lit 2 in
  let center_y_2 := (y_top_right c + y_bot_left c) / lit 2 in
  let cx := (center_x_1 + center_x_2) / lit 2 in
  let cy := (center_y_1 + center_y_2) / lit 2 in
  let lh := np_sqrt (sq (x_top_left c - x_bot_left c)
                     + sq (y_top_left c - y_bot_left c)) in
  let tw := nabs (x_top_left c - x_top_right c) in
  let rh := np_sqrt (sq (x_top_right c - x_bot_right c)
                     + sq (y_top_right c - y_bot_right c)) in
  let bw := nabs (x_bot_left c - x_bot_right c) in
  let a0 := x_top_right c - x_top_left c in
  let a1 := y_top_right c - y_top_left c in
  let b0 := x_bot_left c - x_top_left c in
  let b1 := y_bot_left c - y_top_left c in
  let cos := (a0 * b0 + a1 * b1) / (norm a0 a1 * norm b0 b1) in
  {| center_x := cx; center_y := cy;
     dist_top_left := get_distance cx cy (x_top_left c) (y_top_left c);
     dist_bot_left := get_distance cx cy (x_bot_left c) (y_bot_left c);
     dist_top_right := get_distance cx cy (x_top_right c) (y_top_right c);
     dist_bot_right := get_distance cx cy (x_bot_right c) (y_bot_right c);
     left_height := lh; top_width := tw;
     right_height := rh; bot_width := bw;
     ratio := tw / lh;
     cos_alpha := cos;
     angle := np_arccos cos * (lit 180 / np_pi);
     unstable_right := false; unstable_left := false |}.

(* the data frame once the derived columns are there *)
Definition add_features (saved_points : Frame (Corners num)) : Frame (Row num) :=
  map (fun kc => (fst kc, {| pts := snd kc; der := derive (snd kc) |})) saved_points.

Definition drop_features (t : Frame (Row num)) : Frame (Corners num) :=
  map (fun kr => (fst kr, pts (snd kr))) t.

End Features.

(** ** The series smoother ([__smooth_series]) *)

Section Smoother.
Context {num : Type} `{Numeric num}.

(* scipy.signal.savgol_filter(series, window, polyorder), not part of the
   repository: a parameter.  It raises on arguments it rejects (a window
   longer than the series, a polynomial order that is not below the
   window). *)
Variable savgol_filter : list num -> Z -> Z -> res (list num).
Variable cfg : Config num.

(* Python's builtin max: keeps the first item that no later item exceeds;
   ValueError on an empty sequence *)
Definition py_max (l : list num) : res num :=
  match l with
  | [] => Raise ValueError
  | v :: rest => Ok (fold_left (fun m item => if item >? m then item else m) rest v)
  end.

(* abs(new_series - series) *)
Definition deviation (new_series series : list num) : list num :=
  zip_with (fun a b => nabs (a - b)) new_series series.

Fixpoint smooth_loop (series : list num) (windows : list Z)
    (best_series : list num) : res (list num) :=
  match windows with
  | [] => Ok best_series
  | wnd_size :: rest =>
      if (wnd_size mod 2 =? 0)%Z then smooth_loop series rest best_series
      else
        match savgol_filter series wnd_size (poly_degree cfg) with
        | Raise e => Raise e
        | Ok new_series =>
            match py_max (deviation new_series series) with
            | Raise e => Raise e
            | Ok m =>
                smooth_loop series rest
                  (if m <? smooth_threshold cfg then new_series else best_series)
            end
        end
  end.

Definition smooth_series (series : list num) : res (list num) :=
  smooth_loop series (py_range (min_window cfg) (max_window cfg)) [].

End Smoother.

(** ** The stabilisation pass ([__smooth_points]) *)

Inductive Side : Type := left_side | right_side.

Section Stabiliser.
Context {num : Type} `{Numeric num}.
Variable savgol_filter : list num -> Z -> Z -> res (list num).
Variable cfg : Config num.

Definition ratio_constant : num := lit (66 # 10).

(* lines 464-471 *)
Fixpoint lost_side_loop (t : Frame (Row num)) (prev_x : Row num)
    (indices : list Z) : res (list Z) :=
  match indices with
  | [] => Ok []
  | i :: rest =>
      match loc t i with
      | None => Raise (KeyError i)
      | Some data =>
          let diff := dist_top_left (der data) - dist_top_left (der prev_x) in
          match lost_side_loop t data rest with
          | Raise e => Raise e
          | Ok ls => Ok (if nabs diff >? lit 5 then i :: ls else ls)
          end
      end
  end.

Definition lost_side (t : Frame (Row num)) : res (list Z) :=
  match loc t 0 with
  | None => Raise (KeyError 0)
  | Some prev_x => lost_side_loop t prev_x (py_range_len t)
  end.

(* a[i] = v on a numpy array: negative indices count from the end *)
Definition np_setitem {A} (a : list A) (i : Z) (v : A) : res (list A) :=
  let n := Z.of_nat (length a) in
  if (0 <=? i)%Z && (i <? n)%Z then Ok (<[Z.to_nat i := v]> a)
  else if (- n <=? i)%Z && (i <? 0)%Z then Ok (<[Z.to_nat (n + i) := v]> a)
  else Raise IndexError.

(* df.loc[i, col] *)
Definition loc_col {A B} (t : Frame A) (i : Z) (col : A -> B) : res B :=
  match loc t i with
  | Some r => Ok (col r)
  | None => Raise (KeyError i)
  end.

(* lines 476-481 *)
Fixpoint flag_loop (t : Frame (Row num)) (ls : list Z)
    (unstable_left unstable_right : list bool) : res (list bool * list bool) :=
  match ls with
  | [] => Ok (unstable_left, unstable_right)
  | i :: rest =>
      res_bind (loc_col t i (fun r => x_top_left (pts r))) (fun cur_l =>
      res_bind (loc_col t (i - 1) (fun r => x_top_left (pts r))) (fun prev_l =>
      res_bind (if nabs (cur_l - prev_l) >? lit 9
                then np_setitem unstable_left i true
                else Ok unstable_left) (fun unstable_left' =>
      res_bind (loc_col t i (fun r => x_top_right (pts r))) (fun cur_r =>
      res_bind (loc_col t (i - 1) (fun r => x_top_right (pts r))) (fun prev_r =>
      res_bind (if nabs (cur_r - prev_r) >? lit 9
                then np_setitem unstable_right i true
                else Ok unstable_right) (fun unstable_right' =>
      flag_loop t rest unstable_left' unstable_right'))))))
  end.

(* np.zeros(n) *)
Definition np_zeros (n : nat) : list bool := replicate n false.

(* lines 464-481: the two flag arrays (unstable_left, unstable_right) *)
Definition stability_flags (t : Frame (Row num)) : res (list bool * list bool) :=
  res_bind (lost_side t) (fun ls =>
    flag_loop t ls (np_zeros (length t)) (np_zeros (length t))).

Definition set_flags (r : Row num) (ur ul : bool) : Row num :=
  let d := der r in
  {| pts := pts r;
     der := {| center_x := center_x d; center_y := center_y d;
               dist_top_left := dist_top_left d; dist_bot_left := dist_bot_left d;
               dist_top_right := dist_top_right d; dist_bot_right := dist_bot_right d;
               left_height := left_height d; top_width := top_width d;
               right_height := right_height d; bot_width := bot_width d;
               ratio := ratio d; cos_alpha := cos_alpha d; angle := angle d;
               unstable_right := ur; unstable_left := ul |} |}.

(* lines 483-484: the arrays become columns, position by position *)
Definition assign_flags (t : Frame (Row num))
    (unstable_right unstable_left : list bool) : Frame (Row num) :=
  imap (fun k kr =>
          (fst kr, set_flags (snd kr) (default false (unstable_right !! k))
                                      (default false (unstable_left !! k)))) t.

Definition with_pts (r : Row num) (c : Corners num) : Row num :=
  {| pts := c; der := der r |}.

Definition set_x_right (c : Corners num) (tr br : num) : Corners num :=
  {| x_top_left := x_top_left c; y_top_left := y_top_left c;
     x_top_right := tr; y_top_right := y_top_right c;
     x_bot_left := x_bot_left c; y_bot_left := y_bot_left c;
     x_bot_right := br; y_bot_right := y_bot_right c |}.

Definition set_x_left (c : Corners num) (tl bl : num) : Corners num :=
  {| x_top_left := tl; y_top_left := y_top_left c;
     x_top_right := x_top_right c; y_top_right := y_top_right c;
     x_bot_left := bl; y_bot_left := y_bot_left c;
     x_bot_right := x_bot_right c; y_bot_right := y_bot_right c |}.

Definition set_y_top_left (c : Corners num) (v : num) : Corners num :=
  {| x_top_left := x_top_left c; y_top_left := v;
     x_top_right := x_top_right c; y_top_right := y_top_right c;
     x_bot_left := x_bot_left c; y_bot_left := y_bot_left c;
     x_bot_right := x_bot_right c; y_bot_right := y_bot_right c |}.

Definition set_y_top_right (c : Corners num) (v : num) : Corners num :=
  {| x_top_left := x_top_left c; y_top_left := y_top_left c;
     x_top_right := x_top_right c; y_top_right := v;
     x_bot_left := x_bot_left c; y_bot_left := y_bot_left c;
     x_bot_right := x_bot_right c; y_bot_right := y_bot_right c |}.

Definition set_y_bot_left (c : Corners num) (v : num) : Corners num :=
  {| x_top_left := x_top_left c; y_top_left := y_top_left c;
     x_top_right := x_top_right c; y_top_right := y_top_right c;
     x_bot_left := x_bot_left c; y_bot_left := v;
     x_bot_right := x_bot_right c; y_bot_right := y_bot_right c |}.

Definition set_y_bot_right (c : Corners num) (v : num) : Corners num :=
  {| x_top_left := x_top_left c; y_top_left := y_top_left c;
     x_top_right := x_top_right c; y_top_right := y_top_right c;
     x_bot_left := x_bot_left c; y_bot_left := y_bot_left c;
     x_bot_right := x_bot_right c; y_bot_right := v |}.

(* lines 486-494, for one row.  The lambda [y] reads the four series bound
   before the two assignments. *)
Definition y_line (c : Corners num) (x : num) : num :=
  (x - x_top_left c) * (y_top_right c - y_top_left c)
    / (x_top_right c - x_top_left c) + y_top_left c.

Definition rectify_row (r : Row num) : Row num :=
  let c := pts r in
  with_pts r
    (set_y_bot_right (set_y_top_right c (y_line c (x_top_right c)))
                     (y_line c (x_bot_right c) + left_height (der r))).

Definition rectify (t : Frame (Row num)) : Frame (Row num) :=
  map (fun kr => (fst kr, rectify_row (snd kr))) t.

(* reading df.loc[position, ...] *)
Definition loc_row (position : Z) : M (Frame (Row num)) (Row num) :=
  fun t => match loc t position with
           | Some r => (t, Ok r)
           | None => (t, Raise (KeyError position))
           end.

Definition store_row (position : Z) (r : Row num) : M (Frame (Row num)) unit :=
  fun t => (set_loc t position r, Ok tt).

(* the reconstruction offset: height * (ratio * angle / 90) *)
Definition offset (height : num) (r : Row num) : num :=
  height * (ratio_constant * angle (der r) / lit 90).

(* lines 508-518; returns the values the loop leaves in the variables
   x_top_left and x_bot_left *)
Fixpoint rebuild_right (positions : list Z) (xtl xbl : num)
    : M (Frame (Row num)) (num * num) :=
  match positions with
  | [] => ret (xtl, xbl)
  | position :: rest =>
      let* r := loc_row position in
      let xtl := x_top_left (pts r) in
      let xbl := x_bot_left (pts r) in
      let tmp_x_top_right := xtl + offset (left_height (der r)) r in
      let tmp_x_bot_right := xbl + offset (left_height (der r)) r in
      store_row position
        (with_pts r (set_x_right (pts r) tmp_x_top_right tmp_x_bot_right)) ;;
      rebuild_right rest xtl xbl
  end.

(* lines 522-533 *)
Fixpoint rebuild_left (positions : list Z) (xtr xbr : num)
    : M (Frame (Row num)) (num * num) :=
  match positions with
  | [] => ret (xtr, xbr)
  | position :: rest =>
      let* r := loc_row position in
      let xtr := x_top_right (pts r) in
      let xbr := x_bot_right (pts r) in
      let tmp_x_top_left := xtr - offset (right_height (der r)) r in
      let tmp_x_bot_left := xbr - offset (right_height (der r)) r in
      store_row position
        (with_pts r (set_x_left (pts r) tmp_x_top_left tmp_x_bot_left)) ;;
      rebuild_left rest xtr xbr
  end.

(* lines 535-552 *)
Definition ratio_drift (x : Z) (row : Row num) (latest_unstable : option Side)
    (xtl xbl xtr xbr : num) : M (Frame (Row num)) unit :=
  if nabs (ratio (der row) - ratio_constant) >? lit (5 # 100) then
    (match latest_unstable with
     | Some left_side =>
         if xtr <=? lit 1278 then
           let* r := loc_row x in
           store_row x
             (with_pts r (set_x_left (pts r)
                            (xtr - offset (right_height (der r)) r)
                            (xbr - offset (right_height (der r)) r)))
         else ret tt
     | _ => ret tt
     end) ;;
    (match latest_unstable with
     | Some right_side =>
         if xtl >=? lit 2 then
           let* r := loc_row x in
           store_row x
             (with_pts r (set_x_right (pts r)
                            (xtl + offset (left_height (der r)) r)
                            (xbl + offset (left_height (der r)) r)))
         else ret tt
     | _ => ret tt
     end)
  else ret tt.

(* the body of the loop of lines 497-552, for frame x *)
Definition correct_frame (x : Z) (latest_unstable : option Side)
    : M (Frame (Row num)) (option Side) :=
  let* row := loc_row x in
  let xtl := x_top_left (pts row) in
  let xbl := x_bot_left (pts row) in
  let xtr := x_top_right (pts row) in
  let xbr := x_bot_right (pts row) in
  let* (latest_unstable, (xtl, xbl)) :=
    (if unstable_right (der row)
     then let* v := rebuild_right (py_range (x - 10) (x + 10)) xtl xbl in
          ret (Some right_side, v)
     else ret (latest_unstable, (xtl, xbl))) in
  let* (latest_unstable, (xtr, xbr)) :=
    (if unstable_left (der row)
     then let* v := rebuild_left (py_range (x - 10) (x + 10)) xtr xbr in
          ret (Some left_side, v)
     else ret (latest_unstable, (xtr, xbr))) in
  ratio_drift x row latest_unstable xtl xbl xtr xbr ;;
  ret latest_unstable.

Fixpoint correction_loop (frames : list Z) (latest_unstable : option Side)
    : M (Frame (Row num)) unit :=
  match frames with
  | [] => ret tt
  | x :: rest =>
      let* latest := correct_frame x latest_unstable in
      correction_loop rest latest
  end.

(* df[col] = values: the lengths must agree *)
Definition assign_column (set : Corners num -> num -> Corners num)
    (values : list num) : M (Frame (Row num)) unit :=
  fun t =>
    if Nat.eqb (length values) (length t)
    then (zip_with (fun kr v => (fst kr, with_pts (snd kr) (set (pts (snd kr)) v)))
                   t values, Ok tt)
    else (t, Raise ValueError).

(* df[col] = self.__smooth_series(df[col]) *)
Definition smooth_column (get : Corners num -> num)
    (set : Corners num -> num -> Corners num) : M (Frame (Row num)) unit :=
  fun t =>
    match smooth_series savgol_filter cfg (column (fun r => get (pts r)) t) with
    | Raise e => (t, Raise e)
    | Ok values => assign_column set values t
    end.

(* lines 496-557 *)
Definition correct_and_smooth : M (Frame (Row num)) unit :=
  let* t := get in
  correction_loop (py_range_len t) None ;;
  smooth_column y_top_left set_y_top_left ;;
  smooth_column y_top_right set_y_top_right ;;
  smooth_column y_bot_left set_y_bot_left ;;
  smooth_column y_bot_right set_y_bot_right.

(* [__smooth_points]: the data frame afterwards (its eight coordinate
   columns) and how the call ended *)
Definition smooth_points (saved_points : Frame (Corners num))
    : Frame (Corners num) * res unit :=
  let t0 := add_features saved_points in
  match stability_flags t0 with
  | Raise e => (saved_points, Raise e)
  | Ok (unstable_left, unstable_right) =>
      let t1 := rectify (assign_flags t0 unstable_right unstable_left) in
      let (t2, r) := correct_and_smooth t1 in
      (drop_features t2, r)
  end.

End Stabiliser.

(** ** A sample smoothing filter

    The Savitzky-Golay filter of polynomial order 0 is the moving average:
    every output point is the mean of the window around it, and the first
    and last half-windows take the mean of the first and of the last window
    (scipy's mode [interp]).  With window 1 it returns the series itself.
    As scipy does, it raises ValueError when the polynomial order is not
    below the window length and when the window is longer than the series.
    It stands for [savgol_filter] in the examples below, which all use
    polynomial order 0. *)

Section MovingAverage.
Context {num : Type} `{Numeric num}.

Definition np_sum (l : list num) : num := fold_left add l (lit 0).

Definition np_mean (l : list num) : num :=
  np_sum l / lit (inject_Z (Z.of_nat (length l))).

Definition window_mean (x : list num) (window_length : Z) : list num :=
  let n := length x in
  let w := Z.to_nat window_length in
  let halflen := Z.to_nat (window_length / 2) in
  imap (fun i _ =>
          if Nat.ltb i halflen then np_mean (take w x)
          else if Nat.leb (n - halflen) i then np_mean (drop (n - w) x)
          else np_mean (take w (drop (i - halflen) x))) x.

Definition moving_average (x : list num) (window_length polyorder : Z)
    : res (list num) :=
  if (window_length <=? polyorder)%Z || (Z.of_nat (length x) <? window_length)%Z
  then Raise ValueError
  else Ok (window_mean x window_length).

End MovingAverage.

(** ** Images, masks and the object state *)

Definition Pixel : Type := (Z * Z * Z)%type.
Abbreviation Image := (list (list Pixel)) (only parsing).
Abbreviation Mask := (list (list Z)) (only parsing).

(* img.shape[0] and img.shape[1] *)
Definition shape0 {A} (img : list (list A)) : nat := length img.
Definition shape1 {A} (img : list (list A)) : nat :=
  match img with
  | [] => O
  | row :: _ => length row
  end.

(* every row has the width of the first one, as in a numpy array *)
Definition rectangular {A} (img : list (list A)) : Prop :=
  Forall (fun row => length row = shape1 img) img.

(* The contents of a file saved_frame_mask/frame{n}.npy: the filled mask, or
   the one-element array np.zeros(1) written when nothing was detected. *)
Inductive npy : Type :=
| Arr1 (a : list Z)
| Arr2 (m : Mask).

Definition empty_marker : npy := Arr1 [0%Z].

(* len(array) *)
Definition np_len (a : npy) : nat :=
  match a with
  | Arr1 l => length l
  | Arr2 m => length m
  end.

(* array[k, j] *)
Definition np_get2 (a : npy) (k j : nat) : res Z :=
  match a with
  | Arr1 _ => Raise IndexError
  | Arr2 m =>
      match m !! k with
      | None => Raise IndexError
      | Some row =>
          match row !! j with
          | None => Raise IndexError
          | Some v => Ok v
          end
      end
  end.

Definition Point (num : Type) : Type := (num * num)%type.

(* self.corners = [top_left, bot_right, top_right, bot_left] *)
Record CornerList (num : Type) : Type := {
  corner0 : Point num;
  corner1 : Point num;
  corner2 : Point num;
  corner3 : Point num
}.
Arguments corner0 {num}. Arguments corner1 {num}.
Arguments corner2 {num}. Arguments corner3 {num}.

(* The attributes of a UnetLogoInsertion object, and the directory
   saved_frame_mask. *)
Record Replacer (num : Type) : Type := {
  detected_mask : option npy;
  detection_successful : bool;
  frame : Image;
  corners : option (CornerList num);
  old_width : option num;
  center_left : option num;
  center_right : option num;
  frame_num : Z;
  before_smoothing : bool;
  load_smooth : bool;
  saved_points : Frame (Corners num);
  saved_frame_mask : Frame npy
}.
Arguments detected_mask {num}. Arguments detection_successful {num}.
Arguments frame {num}. Arguments corners {num}. Arguments old_width {num}.
Arguments center_left {num}. Arguments center_right {num}.
Arguments frame_num {num}. Arguments before_smoothing {num}.
Arguments load_smooth {num}. Arguments saved_points {num}.
Arguments saved_frame_mask {num}.

(* __init__ *)
Definition init {num : Type} : Replacer num :=
  {| detected_mask := None; detection_successful := false; frame := [];
     corners := None; old_width := None; center_left := None;
     center_right := None; frame_num := 0; before_smoothing := true;
     load_smooth := true; saved_points := []; saved_frame_mask := [] |}.

(** ** The frame detector ([__check_contours]) *)

Section Detector.
Context {num : Type} `{Numeric num}.
Variable cfg : Config num.

(* OpenCV's contours and the functions on them are not part of the
   repository: parameters. *)
Variable contour : Type.
(* cv2.findContours of the thresholded mask *)
Variable findContours : Mask -> list contour.
Variable contourArea : contour -> num.
(* the centre rect[0] of cv2.minAreaRect(cnt) *)
Variable minAreaRect_center : contour -> Point num.
(* cv2.boxPoints(cv2.minAreaRect(cnt)) *)
Variable boxPoints : contour -> list (Point num).
(* cv2.drawContours(mask, [cnt], -1, 1, -1) *)
Variable drawContours : Mask -> contour -> Mask.

(* the local variables of __check_contours, with center_left and
   center_right; a corner variable is None until it is first assigned *)
Record Scan : Type := {
  first_cnt : bool;
  top_left : option (Point num);
  bot_left : option (Point num);
  top_right : option (Point num);
  bot_right : option (Point num);
  c_left : option num;
  c_right : option num;
  fsz_mask : Mask;
  drawn : list contour   (* the contours filled so far by drawContours *)
}.

Definition set_top_left (s : Scan) (p : Point num) : Scan :=
  {| first_cnt := first_cnt s; top_left := Some p; bot_left := bot_left s;
     top_right := top_right s; bot_right := bot_right s;
     c_left := c_left s; c_right := c_right s; fsz_mask := fsz_mask s;
     drawn := drawn s |}.
Definition set_bot_left (s : Scan) (p : Point num) : Scan :=
  {| first_cnt := first_cnt s; top_left := top_left s; bot_left := Some p;
     top_right := top_right s; bot_right := bot_right s;
     c_left := c_left s; c_right := c_right s; fsz_mask := fsz_mask s;
     drawn := drawn s |}.
Definition set_top_right (s : Scan) (p : Point num) : Scan :=
  {| first_cnt := first_cnt s; top_left := top_left s; bot_left := bot_left s;
     top_right := Some p; bot_right := bot_right s;
     c_left := c_left s; c_right := c_right s; fsz_mask := fsz_mask s;
     drawn := drawn s |}.
Definition set_bot_right (s : Scan) (p : Point num) : Scan :=
  {| first_cnt := first_cnt s; top_left := top_left s; bot_left := bot_left s;
     top_right := top_right s; bot_right := Some p;
     c_left := c_left s; c_right := c_right s; fsz_mask := fsz_mask s;
     drawn := drawn s |}.
Definition set_centers (s : Scan) (fc : bool) (l r : option num) : Scan :=
  {| first_cnt := fc; top_left := top_left s; bot_left := bot_left s;
     top_right := top_right s; bot_right := bot_right s;
     c_left := l; c_right := r; fsz_mask := fsz_mask s; drawn := drawn s |}.
Definition fill (s : Scan) (cnt : contour) : Scan :=
  {| first_cnt := first_cnt s; top_left := top_left s; bot_left := bot_left s;
     top_right := top_right s; bot_right := bot_right s;
     c_left := c_left s; c_right := c_right s;
     fsz_mask := drawContours (fsz_mask s) cnt; drawn := drawn s ++ [cnt] |}.

(* lines 153-163: all four corners from the first contour *)
Definition assign_all (xm ym : num) (s : Scan) (point : Point num) : Scan :=
  if fst point <? xm then
    if snd point <? ym then set_top_left s point else set_bot_left s point
  else
    if snd point <? ym then set_top_right s point else set_bot_right s point.

(* lines 172-177 *)
Definition assign_left (xm ym : num) (s : Scan) (point : Point num) : Scan :=
  if fst point <? xm then
    if snd point <? ym then set_top_left s point else set_bot_left s point
  else s.

(* lines 182-187 *)
Definition assign_right (xm ym : num) (s : Scan) (point : Point num) : Scan :=
  if fst point >? xm then
    if snd point <? ym then set_top_right s point else set_bot_right s point
  else s.

(* the body of the loop of lines 138-191 *)
Definition scan_contour (s : Scan) (cnt : contour) : res Scan :=
  if contourArea cnt >? filter_area_size cfg then
    let box := boxPoints cnt in
    let (xm, ym) := minAreaRect_center cnt in
    res_bind
      (if first_cnt s then
         Ok (set_centers (fold_left (assign_all xm ym) box s) false (Some xm) (Some xm))
       else
         match c_left s, c_right s with
         | Some cl, Some cr =>
             if xm <? cl then
               Ok (set_centers (fold_left (assign_left xm ym) box s)
                               false (Some xm) (Some cr))
             else if xm >? cr then
               Ok (set_centers (fold_left (assign_right xm ym) box s)
                               false (Some cl) (Some xm))
             else Ok s
         | _, _ => Raise TypeError
         end)
      (fun s' => Ok (fill s' cnt))
  else Ok s.

Fixpoint scan_contours (s : Scan) (contours : list contour) : res Scan :=
  match contours with
  | [] => Ok s
  | cnt :: rest => res_bind (scan_contour s cnt) (fun s' => scan_contours s' rest)
  end.

Definition scan_start (self : Replacer num) (mask : Mask) : Scan :=
  {| first_cnt := true; top_left := None; bot_left := None;
     top_right := None; bot_right := None;
     c_left := center_left self; c_right := center_right self;
     fsz_mask := mask; drawn := [] |}.

Definition update_detector (self : Replacer num) (cl cr : option num)
    (files : Frame npy) (points : Frame (Corners num)) : Replacer num :=
  {| detected_mask := detected_mask self;
     detection_successful := detection_successful self;
     frame := frame self; corners := corners self; old_width := old_width self;
     center_left := cl; center_right := cr; frame_num := frame_num self;
     before_smoothing := before_smoothing self; load_smooth := load_smooth self;
     saved_points := points; saved_frame_mask := files |}.

(* lines 202-204: the row of the four corner variables *)
Definition corner_row (s : Scan) : res (Corners num) :=
  match top_left s, top_right s, bot_left s, bot_right s with
  | Some tl, Some tr, Some bl, Some br =>
      Ok {| x_top_left := fst tl; y_top_left := snd tl;
            x_top_right := fst tr; y_top_right := snd tr;
            x_bot_left := fst bl; y_bot_left := snd bl;
            x_bot_right := fst br; y_bot_right := snd br |}
  | _, _, _, _ => Raise UnboundLocalError
  end.

Definition check_contours (mask : Mask) : M (Replacer num) unit :=
  fun self =>
    match scan_contours (scan_start self mask) (findContours mask) with
    | Raise e => (self, Raise e)
    | Ok s =>
        if first_cnt s then
          (* no detected area: the marker is saved, no row is written *)
          (update_detector self (c_left s) (c_right s)
             (loc_assign (saved_frame_mask self) (frame_num self) empty_marker)
             (saved_points self), Ok tt)
        else
          let files := loc_assign (saved_frame_mask self) (frame_num self)
                                  (Arr2 (fsz_mask s)) in
          match corner_row s with
          | Raise e =>
              (update_detector self (c_left s) (c_right s) files
                 (saved_points self), Raise e)
          | Ok row =>
              (update_detector self (c_left s) (c_right s) files
                 (loc_assign (saved_points self) (frame_num self) row), Ok tt)
          end
    end.

End Detector.

(** ** The compositor ([__logo_color_adj], [__adjust_logo_shape], [insert_logo]) *)

Section Compositor.
Context {num : Type} `{Numeric num}.

(* OpenCV's image operations are not part of the repository: parameters. *)
(* cv2.imread(logo_link, cv2.IMREAD_UNCHANGED) *)
Variable logo_file : Image.
(* frame[y0:y1, x0:x1].copy() *)
Variable crop : Image -> Z -> Z -> Z -> Z -> Image.
(* the S channel of cv2.cvtColor(img, cv2.COLOR_BGR2HSV), row after row *)
Variable saturation : Image -> list Z.
(* the image with its S channel replaced by (s * coef).astype('uint8') *)
Variable scale_saturation : Image -> num -> Image.
(* cv2.warpPerspective(logo, cv2.getPerspectiveTransform(pts1, pts2),
                       (width, height), borderMode=1) *)
Variable warpPerspective :
  Image -> list (Point num) -> list (Point num) -> nat -> nat -> Image.

Definition of_Z (z : Z) : num := lit (inject_Z z).

(* np.mean(s).astype(int), for a non-empty channel of uint8 values *)
Definition mean_astype_int (s : list Z) : Z :=
  (fold_left Z.add s 0 / Z.of_nat (length s))%Z.

(* round(x, 2) *)
Definition round2 (a : num) : num := py_round (a * lit 100) / lit 100.

(* lines 339-341 *)
Definition trans_coef (mean_banner_s mean_logo_s : Z) : num :=
  round2 (of_Z mean_banner_s / of_Z mean_logo_s).

(* lines 327-328: the slice bounds int(corners[0][1]), int(corners[1][1]),
   int(corners[0][0]), int(corners[1][0]), in the order they are evaluated *)
Definition crop_bounds (c : CornerList num) : res (Z * Z * Z * Z) :=
  res_bind (py_int (snd (corner0 c))) (fun y0 =>
  res_bind (py_int (snd (corner1 c))) (fun y1 =>
  res_bind (py_int (fst (corner0 c))) (fun x0 =>
  res_bind (py_int (fst (corner1 c))) (fun x1 =>
  Ok (y0, y1, x0, x1))))).

(* __logo_color_adj *)
Definition logo_color_adj (frame : Image) (c : CornerList num) (logo : Image)
    : res Image :=
  res_bind (crop_bounds c) (fun '(y0, y1, x0, x1) =>
    let banner := crop frame y0 y1 x0 x1 in
    let mean_logo_s := mean_astype_int (saturation logo) in
    let mean_banner_s := mean_astype_int (saturation banner) in
    Ok (scale_saturation logo (trans_coef mean_banner_s mean_logo_s))).

Inductive Regime : Type := right_cut | left_cut | in_frame.

(* the conditions of lines 288-289 and 302 *)
Definition regime (c : CornerList num) (frame_width : nat) : Regime :=
  let edge := of_Z (Z.of_nat frame_width - 1) in
  if (py_round (fst (corner1 c)) >=? edge) || (py_round (fst (corner2 c)) >=? edge)
  then right_cut
  else if (py_round (fst (corner0 c)) <=? lit 0) || (py_round (fst (corner3 c)) <=? lit 0)
  then left_cut
  else in_frame.

(* lines 283-312: the target points pts2 and the new value of old_width;
   old_width is still None when no frame was fully in view before *)
Definition target_points (c : CornerList num) (frame_width : nat)
    (old_width : option num) : res (list (Point num) * option num) :=
  match regime c frame_width with
  | right_cut =>
      match old_width with
      | None => Raise TypeError
      | Some w =>
          let transform_x := fst (corner0 c) + w in
          let y_coef := w / nabs (fst (corner1 c) - fst (corner0 c)) in
          let transform_y_top :=
            snd (corner0 c) + nabs (snd (corner2 c) - snd (corner0 c)) * y_coef in
          let transform_y_bot :=
            snd (corner3 c) + nabs (snd (corner2 c) - snd (corner0 c)) * y_coef in
          Ok ([corner0 c; corner3 c; (transform_x, transform_y_bot);
               (transform_x, transform_y_top)], Some w)
      end
  | left_cut =>
      match old_width with
      | None => Raise TypeError
      | Some w =>
          let transform_x := fst (corner2 c) - w in
          Ok ([(transform_x, snd (corner0 c)); (transform_x, snd (corner3 c));
               corner1 c; corner2 c], Some w)
      end
  | in_frame =>
      Ok ([corner0 c; corner3 c; corner1 c; corner2 c],
          Some (nabs (fst (corner1 c) - fst (corner0 c))))
  end.

Definition set_old_width (self : Replacer num) (w : option num) : Replacer num :=
  {| detected_mask := detected_mask self;
     detection_successful := detection_successful self;
     frame := frame self; corners := corners self; old_width := w;
     center_left := center_left self; center_right := center_right self;
     frame_num := frame_num self; before_smoothing := before_smoothing self;
     load_smooth := load_smooth self; saved_points := saved_points self;
     saved_frame_mask := saved_frame_mask self |}.

Definition set_frame (self : Replacer num) (f : Image) : Replacer num :=
  {| detected_mask := detected_mask self;
     detection_successful := detection_successful self;
     frame := f; corners := corners self; old_width := old_width self;
     center_left := center_left self; center_right := center_right self;
     frame_num := frame_num self; before_smoothing := before_smoothing self;
     load_smooth := load_smooth self; saved_points := saved_points self;
     saved_frame_mask := saved_frame_mask self |}.

Definition logo_points (logo : Image) : list (Point num) :=
  let w := of_Z (Z.of_nat (shape1 logo) - 1) in
  let h := of_Z (Z.of_nat (shape0 logo) - 1) in
  [(lit 0, lit 0); (lit 0, h); (w, h); (w, lit 0)].

(* __adjust_logo_shape *)
Definition adjust_logo_shape (logo : Image) : M (Replacer num) Image :=
  fun self =>
    match corners self with
    | None => (self, Raise TypeError)
    | Some c =>
        match target_points c (shape1 (frame self)) (old_width self) with
        | Raise e => (self, Raise e)
        | Ok (pts2, w) =>
            (set_old_width self w,
             Ok (warpPerspective logo (logo_points logo) pts2
                   (shape1 (frame self)) (shape0 (frame self))))
        end
    end.

(* lines 120-123, one row of the frame *)
Fixpoint replace_row (mask : npy) (logo : Image) (k : nat) (columns : list nat)
    (row : list Pixel) : list Pixel * res unit :=
  match columns with
  | [] => (row, Ok tt)
  | j :: rest =>
      match np_get2 mask k j with
      | Raise e => (row, Raise e)
      | Ok v =>
          if (v =? 1)%Z then
            match logo !! k with
            | None => (row, Raise IndexError)
            | Some logo_row =>
                match logo_row !! j with
                | None => (row, Raise IndexError)
                | Some p => replace_row mask logo k rest (<[j := p]> row)
                end
            end
          else replace_row mask logo k rest row
      end
  end.

(* lines 120-123 *)
Fixpoint replace_pixels (mask : npy) (logo : Image) (width : nat) (rows : list nat)
    (frame : Image) : Image * res unit :=
  match rows with
  | [] => (frame, Ok tt)
  | k :: rest =>
      match frame !! k with
      | None => (frame, Raise IndexError)
      | Some row =>
          match replace_row mask logo k (seq 0 width) row with
          | (row', Raise e) => (<[k := row']> frame, Raise e)
          | (row', Ok _) => replace_pixels mask logo width rest (<[k := row']> frame)
          end
      end
  end.

(* insert_logo *)
Definition insert_logo : M (Replacer num) unit :=
  fun self =>
    if negb (detection_successful self) then (self, Ok tt)
    else
      match corners self with
      | None => (self, Raise TypeError)
      | Some c =>
          match logo_color_adj (frame self) c logo_file with
          | Raise e => (self, Raise e)
          | Ok logo =>
              match adjust_logo_shape logo self with
              | (self', Raise e) => (self', Raise e)
              | (self', Ok transformed_logo) =>
                  match detected_mask self' with
                  | None => (self', Raise TypeError)
                  | Some mask =>
                      let (f, r) :=
                        replace_pixels mask transformed_logo (shape1 (frame self'))
                          (seq 0 (shape0 (frame self'))) (frame self') in
                      (set_frame self' f, r)
                  end
              end
          end
      end.

End Compositor.

(** ** The per-frame entry points ([detect_banner], [__load_points]) *)

Section Pipeline.
Context {num : Type} `{Numeric num}.
Variable cfg : Config num.
Variable savgol_filter : list num -> Z -> Z -> res (list num).
Variable contour : Type.
Variable findContours : Mask -> list contour.
Variable contourArea : contour -> num.
Variable minAreaRect_center : contour -> Point num.
Variable boxPoints : contour -> list (Point num).
Variable drawContours : Mask -> contour -> Mask.
(* __predict_full_size: the tiled sweep of the segmentation model *)
Variable predict_full_size : Image -> list (list num).

Definition set_detected_mask (self : Replacer num) (a : option npy) : Replacer num :=
  {| detected_mask := a;
     detection_successful := detection_successful self;
     frame := frame self; corners := corners self; old_width := old_width self;
     center_left := center_left self; center_right := center_right self;
     frame_num := frame_num self; before_smoothing := before_smoothing self;
     load_smooth := load_smooth self; saved_points := saved_points self;
     saved_frame_mask := saved_frame_mask self |}.

Definition set_detection_successful (self : Replacer num) (b : bool) : Replacer num :=
  {| detected_mask := detected_mask self;
     detection_successful := b;
     frame := frame self; corners := corners self; old_width := old_width self;
     center_left := center_left self; center_right := center_right self;
     frame_num := frame_num self; before_smoothing := before_smoothing self;
     load_smooth := load_smooth self; saved_points := saved_points self;
     saved_frame_mask := saved_frame_mask self |}.

Definition set_corners (self : Replacer num) (c : option (CornerList num)) : Replacer num :=
  {| detected_mask := detected_mask self;
     detection_successful := detection_successful self;
     frame := frame self; corners := c; old_width := old_width self;
     center_left := center_left self; center_right := center_right self;
     frame_num := frame_num self; before_smoothing := before_smoothing self;
     load_smooth := load_smooth self; saved_points := saved_points self;
     saved_frame_mask := saved_frame_mask self |}.

Definition set_frame_num (self : Replacer num) (n : Z) : Replacer num :=
  {| detected_mask := detected_mask self;
     detection_successful := detection_successful self;
     frame := frame self; corners := corners self; old_width := old_width self;
     center_left := center_left self; center_right := center_right self;
     frame_num := n; before_smoothing := before_smoothing self;
     load_smooth := load_smooth self; saved_points := saved_points self;
     saved_frame_mask := saved_frame_mask self |}.

Definition set_points (self : Replacer num) (ls : bool)
    (points : Frame (Corners num)) : Replacer num :=
  {| detected_mask := detected_mask self;
     detection_successful := detection_successful self;
     frame := frame self; corners := corners self; old_width := old_width self;
     center_left := center_left self; center_right := center_right self;
     frame_num := frame_num self; before_smoothing := before_smoothing self;
     load_smooth := ls; saved_points := points;
     saved_frame_mask := saved_frame_mask self |}.

(* (fsz_mask > value_threshold).astype(np.uint8) *)
Definition threshold_mask (m : list (list num)) : Mask :=
  map (map (fun v => if v >? value_threshold cfg then 1%Z else 0%Z)) m.

(* __load_points *)
Definition load_points : M (Replacer num) unit :=
  fun self =>
    let (self1, r) :=
      if load_smooth self && (source_type cfg =? 0)%Z then
        match smooth_points savgol_filter cfg (saved_points self) with
        | (points, Raise e) => (set_points self (load_smooth self) points, Raise e)
        | (points, Ok _) => (set_points self false points, Ok tt)
        end
      else (self, Ok tt) in
    match r with
    | Raise e => (self1, Raise e)
    | Ok _ =>
        match loc (saved_points self1) (frame_num self1) with
        | None => (self1, Raise (KeyError (frame_num self1)))
        | Some p =>
            let top_left := (x_top_left p, y_top_left p) in
            let top_right := (x_top_right p, y_top_right p) in
            let bot_left := (x_bot_left p, y_bot_left p) in
            let bot_right := (x_bot_right p, y_bot_right p) in
            (set_corners self1
               (Some {| corner0 := top_left; corner1 := bot_right;
                        corner2 := top_right; corner3 := bot_left |}), Ok tt)
        end
    end.

(* detect_banner *)
Definition detect_banner (frame : Image) : M (Replacer num) unit :=
  fun self =>
    let self0 := set_frame self frame in
    let (self1, r) :=
      if before_smoothing self0 then
        check_contours cfg contour findContours contourArea minAreaRect_center
          boxPoints drawContours
          (threshold_mask (predict_full_size frame)) self0
      else
        match loc (saved_frame_mask self0) (frame_num self0) with
        | None => (self0, Raise FileNotFoundError)
        | Some a =>
            let self' := set_detected_mask self0 (Some a) in
            if Nat.eqb (np_len a) 1 then
              (set_detection_successful self' false, Ok tt)
            else
              match load_points self' with
              | (s, Raise e) => (s, Raise e)
              | (s, Ok _) => (set_detection_successful s true, Ok tt)
              end
        end in
    match r with
    | Raise e => (self1, Raise e)
    | Ok _ => (set_frame_num self1 (frame_num self1 + 1)%Z, Ok tt)
    end.

End Pipeline.

(** ** Sample inputs *)

Definition qz (z : Z) : xnum := lit (inject_Z z).

Definition quad (a b c d e f g h : Z) : Corners xnum :=
  {| x_top_left := qz a; y_top_left := qz b;
     x_top_right := qz c; y_top_right := qz d;
     x_bot_left := qz e; y_bot_left := qz f;
     x_bot_right := qz g; y_bot_right := qz h |}.

(* window 1 only, polynomial order 0: the filter returns the series itself *)
Definition cfg_sample : Config xnum :=
  {| value_threshold := lit (1 # 2); filter_area_size := qz 100;
     min_window := 1; max_window := 2; poly_degree := 0;
     smooth_threshold := qz 1; source_type := 0 |}.

(* Twenty frames: ten of an upright 24 x 10 banner, then ten of a banner
   shifted by 12 pixels whose bottom-right corner lies 28 pixels above the
   bottom-left one. *)
Definition quad_a : Corners xnum := quad 100 50 124 50 100 60 124 60.
Definition quad_b : Corners xnum := quad 112 50 136 50 112 82 136 54.

Definition store20 : Frame (Corners xnum) :=
  zip (seqZ 0 20) (replicate 10 quad_a ++ replicate 10 quad_b).

(* the store after one stabilisation pass *)
Definition store20_stabilised : Frame (Corners xnum) :=
  fst (smooth_points moving_average cfg_sample store20).

(* Two frames: a 24 x 10 banner, then a 24 x 32 banner 12 pixels to the
   right. *)
Definition store2 : Frame (Corners xnum) :=
  [(0, quad 100 50 124 50 100 60 124 60);
   (1, quad 112 50 136 50 112 82 136 82)].

(* An upright 4 x 3 quad over the reals. *)
Definition quad_r : Corners R :=
  {| x_top_left := 0%R; y_top_left := 0%R;
     x_top_right := 4%R; y_top_right := 0%R;
     x_bot_left := 0%R; y_bot_left := 3%R;
     x_bot_right := 4%R; y_bot_right := 3%R |}.

(* windows 1 .. 5, polynomial order 0, deviation threshold 1.5 *)
Definition cfg_windows : Config xnum :=
  {| value_threshold := lit (1 # 2); filter_area_size := qz 100;
     min_window := 1; max_window := 6; poly_degree := 0;
     smooth_threshold := lit (3 # 2); source_type := 0 |}.

Definition series5 : list xnum := [qz 50; qz 52; qz 51; qz 53; qz 52].

(* Sample contours: the value OpenCV computes for each is part of the
   sample, and drawing is left out. *)
Record SampleContour : Type := {
  s_area : xnum;
  s_center : Point xnum;
  s_box : list (Point xnum)
}.

Definition contour_500 : SampleContour :=
  {| s_area := qz 500; s_center := (qz 125, qz 60);
     s_box := [(qz 100, qz 50); (qz 150, qz 50); (qz 150, qz 70); (qz 100, qz 70)] |}.

Definition contour_50 : SampleContour :=
  {| s_area := qz 50; s_center := (qz 15, qz 15);
     s_box := [(qz 10, qz 10); (qz 20, qz 10); (qz 20, qz 20); (qz 10, qz 20)] |}.

Definition sample_draw (m : Mask) (cnt : SampleContour) : Mask := m.

Definition cfg_area : Config xnum :=
  {| value_threshold := lit (1 # 2); filter_area_size := qz 100;
     min_window := 1; max_window := 2; poly_degree := 0;
     smooth_threshold := qz 1; source_type := 0 |}.

Definition black : Pixel := (0, 0, 0)%Z.
Definition white : Pixel := (255, 255, 255)%Z.

(* a 2 x 3 frame *)
Definition frame23 : Image := [[black; black; black]; [black; black; black]].

(* a replay pass that reaches frame 4, for which the marker was saved *)
Definition replay_at_marker : Replacer xnum :=
  {| detected_mask := None; detection_successful := true; frame := [];
     corners := None; old_width := None; center_left := None;
     center_right := None; frame_num := 4; before_smoothing := false;
     load_smooth := true; saved_points := [];
     saved_frame_mask := [(4%Z, empty_marker)] |}.

(* A quad fully inside a frame 100 pixels wide, whose top-right and
   bottom-right corners have different x. *)
Definition corners_in_frame : CornerList xnum :=
  {| corner0 := (qz 10, qz 10);    (* top_left *)
     corner1 := (qz 52, qz 42);    (* bot_right *)
     corner2 := (qz 50, qz 12);    (* top_right *)
     corner3 := (qz 12, qz 40) |}. (* bot_left *)

(* The 2 x 3 frame with a quad whose top-right corner is on the last column,
   after a frame that was 5 pixels wide. *)
Definition at_right_edge : Replacer xnum :=
  {| detected_mask := Some (Arr2 [[0; 1; 1]; [0; 0; 1]]%Z);
     detection_successful := true; frame := frame23;
     corners := Some {| corner0 := (qz 1, qz 0); corner1 := (qz 2, qz 1);
                        corner2 := (qz 2, qz 0); corner3 := (qz 1, qz 1) |};
     old_width := Some (qz 5); center_left := None; center_right := None;
     frame_num := 1; before_smoothing := false; load_smooth := false;
     saved_points := []; saved_frame_mask := [] |}.

(* img[k, j] *)
Definition pixel_at {A} (img : list (list A)) (k j : nat) : option A :=
  match img !! k with
  | Some row => row !! j
  | None => None
  end.

(* the image has a pixel at every position of an h x w frame *)
Definition covers {A} (img : list (list A)) (h w : nat) : Prop :=
  forall k j, (k < h)%nat -> (j < w)%nat -> is_Some (pixel_at img k j).

(* a warp that paints the whole output white *)
Definition sample_warp (logo : Image) (pts1 pts2 : list (Point xnum))
    (width height : nat) : Image :=
  replicate height (replicate width white).

(* all eight coordinates are finite numbers *)
Definition finite_corners (c : Corners xnum) : Prop :=
  finite (x_top_left c) /\ finite (y_top_left c) /\
  finite (x_top_right c) /\ finite (y_top_right c) /\
  finite (x_bot_left c) /\ finite (y_bot_left c) /\
  finite (x_bot_right c) /\ finite (y_bot_right c).

(* top_left (0, 0), top_right (4, 20), bottom_left (2, 10): the top edge and
   the left edge point the same way *)
Definition quad_collinear : Corners xnum := quad 0 0 4 20 2 10 6 30.

(* a quad of zero width: the right corners coincide with the left ones *)
Definition quad_zero_width : Corners xnum := quad 100 50 100 50 100 60 100 60.

(* a quad of zero height: the bottom corners coincide with the top ones *)
Definition quad_zero_height : Corners xnum := quad 100 50 124 50 100 50 124 50.

Definition store_zero_width : Frame (Corners xnum) := [(0%Z, quad_zero_width)].

(** ** Notions used in the statements *)

Definition x_coords {num} (c : Corners num) : num * num * num * num :=
  (x_top_left c, x_top_right c, x_bot_left c, x_bot_right c).

(* the four x columns of the store, with the index *)
Definition x_columns {num} (t : Frame (Corners num)) : Frame (num * num * num * num) :=
  map (fun kc => (fst kc, x_coords (snd kc))) t.

Definition x_columns_rows {num} (t : Frame (Row num)) : Frame (num * num * num * num) :=
  map (fun kr => (fst kr, x_coords (pts (snd kr)))) t.

Definition unflagged {num} (r : Row num) : Prop :=
  unstable_right (der r) = false /\ unstable_left (der r) = false.

(* the frame that frame i is compared with in the loop of lines 464-471 *)
Definition pred_index (i : Z) : Z := if (i =? 0)%Z then 0%Z else (i - 1)%Z.

Section StabiliserNotions.
Context {num : Type} `{Numeric num}.
Implicit Types (t : Frame (Row num)).

(* frame i is a candidate: its dist_top_left differs by more than 5 from
   that of the frame before *)
Definition jump t (i : Z) : bool :=
  match loc t i, loc t (pred_index i) with
  | Some data, Some prev_x =>
      nabs (dist_top_left (der data) - dist_top_left (der prev_x)) >? lit 5
  | _, _ => false
  end.

(* the column moved by more than 9 from frame i - 1 to frame i *)
Definition moved (col : Corners num -> num) t (i : Z) : bool :=
  match loc t i, loc t (i - 1) with
  | Some r, Some p => nabs (col (pts r) - col (pts p)) >? lit 9
  | _, _ => false
  end.

(* what lines 509-518 write into the row of a position *)
Definition right_rebuilt (r : Row num) : Row num :=
  with_pts r
    (set_x_right (pts r)
       (x_top_left (pts r) + offset (left_height (der r)) r)
       (x_bot_left (pts r) + offset (left_height (der r)) r)).

(* what lines 523-533 write into the row of a position *)
Definition left_rebuilt (r : Row num) : Row num :=
  with_pts r
    (set_x_left (pts r)
       (x_top_right (pts r) - offset (right_height (der r)) r)
       (x_bot_right (pts r) - offset (right_height (der r)) r)).

End StabiliserNotions.

Section SmootherNotions.
Variable savgol_filter : list xnum -> Z -> Z -> res (list xnum).
Variable cfg : Config xnum.

(* every point of the filtered series is within the threshold of the
   original *)
Definition within_threshold (new_series series : list xnum) : bool :=
  forallb (fun d => d <? smooth_threshold cfg) (deviation new_series series).

(* the filtered series of a window; empty when the filter raises *)
Definition filtered (series : list xnum) (wnd_size : Z) : list xnum :=
  match savgol_filter series wnd_size (poly_degree cfg) with
  | Ok new_series => new_series
  | Raise _ => []
  end.

(* a window passes when it is odd and its filtered series is within the
   threshold *)
Definition passes (series : list xnum) (wnd_size : Z) : bool :=
  Z.odd wnd_size && within_threshold (filtered series wnd_size) series.

(* the filter accepts the window and returns a series of finite numbers of
   the input's length *)
Definition well_filtered (series : list xnum) (wnd_size : Z) : Prop :=
  exists new_series,
    savgol_filter series wnd_size (poly_degree cfg) = Ok new_series /\
    length new_series = length series /\ Forall finite new_series.

(* the last passing window, in iteration order *)
Definition last_passing (series : list xnum) : option Z :=
  last (List.filter (passes series) (py_range (min_window cfg) (max_window cfg))).

(* the result the specification describes; the empty list signals failure *)
Definition smooth_result (series : list xnum) : list xnum :=
  match last_passing series with
  | Some wnd_size => filtered series wnd_size
  | None => []
  end.

End SmootherNotions.

Section DetectorNotions.
Context {num : Type} `{Numeric num}.
Variable cfg : Config num.
Variable contour : Type.
Variable contourArea : contour -> num.

(* the area test of line 139 *)
Definition above_filter (cnt : contour) : bool :=
  contourArea cnt >? filter_area_size cfg.

(* after the first kept contour both running centres are set *)
Definition centers_set (s : Scan (num := num) contour) : Prop :=
  first_cnt contour s = false ->
  is_Some (c_left contour s) /\ is_Some (c_right contour s).

End DetectorNotions.

Section PixelNotions.
Variable mask : npy.
Variable logo : Image.

(* the pixel the loop leaves at (k, j), where the frame had p *)
Definition blend (k j : nat) (p : Pixel) : Pixel :=
  match np_get2 mask k j, pixel_at logo k j with
  | Ok v, Some q => if (v =? 1)%Z then q else p
  | _, _ => p
  end.

(* the mask and the logo can be read at (k, j) *)
Definition readable (k j : nat) : Prop :=
  (exists v, np_get2 mask k j = Ok v) /\ is_Some (pixel_at logo k j).

End PixelNotions.



(** ** The full-size prediction sweep ([__predict_full_size]) *)

(* the index a Python slice bound denotes on a sequence of length len *)
Definition slice_index (i : Z) (len : nat) : nat :=
  if (i <? 0)%Z then Z.to_nat (Z.max (i + Z.of_nat len) 0)
  else Z.to_nat (Z.min i (Z.of_nat len)).

(* l[start:stop] *)
Definition py_slice {A} (l : list A) (start stop : Z) : list A :=
  let a := slice_index start (length l) in
  let b := slice_index stop (length l) in
  take (b - a) (drop a l).

(* range(0, stop, step) *)
Definition py_range_step (stop step : Z) : res (list Z) :=
  if (step =? 0)%Z then Raise ValueError
  else if (step <? 0)%Z then Ok []
  else Ok (map (fun i => (i * step)%Z) (seqZ 0 ((stop + step - 1) / step))).

Section FullSizePrediction.
Context {num : Type} `{Numeric num}.

(* self.model.predict on one crop, without the batch axis; the network is
   not part of the repository: a parameter, which may raise on a crop of the
   wrong shape *)
Variable model_predict : Image -> res (list (list num)).
(* model_parameters['img_height'], ['img_width'], ['full_size_step'] *)
Variable img_height img_width step : Z.

(* a[k:k + h, j:j + w] *)
Definition crop2 {A} (a : list (list A)) (k j : Z) : list (list A) :=
  map (fun row => py_slice row j (j + img_width)) (py_slice a k (k + img_height)).

(* m[r, c] = v *)
Definition set_pixel {A} (m : list (list A)) (r c : nat) (v : A) : list (list A) :=
  match m !! r with
  | Some row => <[r := <[c := v]> row]> m
  | None => m
  end.

(* lines 387-389 for one y: mask_cr is the view of the mask that starts at
   (r0, c0) and has rows x cols pixels *)
Fixpoint merge_line (cr_predict : list (list num)) (r0 c0 rows cols y : nat)
    (xs : list nat) : M (list (list num)) unit :=
  match xs with
  | [] => ret tt
  | x :: rest =>
      fun m =>
        match pixel_at cr_predict y x with
        | None => (m, Raise IndexError)
        | Some p =>
            if Nat.ltb y rows && Nat.ltb x cols then
              match pixel_at m (r0 + y) (c0 + x) with
              | None => (m, Raise IndexError)
              | Some v =>
                  merge_line cr_predict r0 c0 rows cols y rest
                    (if p >? v then set_pixel m (r0 + y) (c0 + x) p else m)
              end
            else (m, Raise IndexError)
        end
  end.

(* lines 386-389 *)
Fixpoint merge_tile (cr_predict : list (list num)) (r0 c0 rows cols : nat)
    (ys : list nat) : M (list (list num)) unit :=
  match ys with
  | [] => ret tt
  | y :: rest =>
      merge_line cr_predict r0 c0 rows cols y (seq 0 (Z.to_nat img_width)) ;;
      merge_tile cr_predict r0 c0 rows cols rest
  end.

(* lines 381-389: the tile whose slices start at k and j *)
Definition predict_tile (frame : Image) (k j : Z) : M (list (list num)) unit :=
  fun m =>
    let r0 := slice_index k (shape0 m) in
    let r1 := slice_index (k + img_height) (shape0 m) in
    let c0 := slice_index j (shape1 m) in
    let c1 := slice_index (j + img_width) (shape1 m) in
    match model_predict (crop2 frame k j) with
    | Raise e => (m, Raise e)
    | Ok cr_predict =>
        merge_tile cr_predict r0 c0 (r1 - r0) (c1 - c0)
          (seq 0 (Z.to_nat img_height)) m
    end.

(* lines 376-392: one row of tiles; returns flag_j *)
Fixpoint sweep_row (frame : Image) (frame_width : Z) (k : Z) (js : list Z)
    (flag_j : bool) : M (list (list num)) bool :=
  match js with
  | [] => ret flag_j
  | j :: rest =>
      let clamp := (frame_width - 1 <=? j + img_width)%Z in
      let j' := if clamp then (frame_width - img_width)%Z else j in
      let flag_j' := if clamp then true else flag_j in
      predict_tile frame k j' ;;
      if flag_j' then ret flag_j' else sweep_row frame frame_width k rest flag_j'
  end.

(* lines 371-395; flag_j is carried from one row of tiles to the next *)
Fixpoint sweep (frame : Image) (frame_height frame_width : Z) (ks : list Z)
    (js : list Z) (flag_j : bool) : M (list (list num)) unit :=
  match ks with
  | [] => ret tt
  | k :: rest =>
      let clamp := (frame_height - 1 <=? k + img_height)%Z in
      let k' := if clamp then (frame_height - img_height)%Z else k in
      let* flag_j' := sweep_row frame frame_width k' js flag_j in
      if clamp then ret tt
      else sweep frame frame_height frame_width rest js flag_j'
  end.

(* np.zeros((frame_height, frame_width, 1)) *)
Definition zero_mask (frame_height frame_width : nat) : list (list num) :=
  replicate frame_height (replicate frame_width (lit 0)).

(* __predict_full_size *)
Definition predict_full_size (frame : Image) : res (list (list num)) :=
  let frame_height := Z.of_nat (shape0 frame) in
  let frame_width := Z.of_nat (shape1 frame) in
  match py_range_step frame_height step, py_range_step frame_width step with
  | Raise e, _ => Raise e
  | Ok [], _ => Ok (zero_mask (shape0 frame) (shape1 frame))
  | Ok _, Raise e => Raise e
  | Ok ks, Ok js =>
      match sweep frame frame_height frame_width ks js false
                  (zero_mask (shape0 frame) (shape1 frame)) with
      | (m, Ok _) => Ok m
      | (_, Raise e) => Raise e
      end
  end.

End FullSizePrediction.

(** ** Further sample inputs and notions *)

(* a network that marks every pixel of a 2 x 2 crop and rejects other crops *)
Definition sample_predict (crop : Image) : res (list (list xnum)) :=
  if Nat.eqb (shape0 crop) 2 && Nat.eqb (shape1 crop) 2
  then Ok [[qz 1; qz 1]; [qz 1; qz 1]]
  else Raise ValueError.

(* a black 6 x 6 frame *)
Definition frame66 : Image := replicate 6 (replicate 6 black).

(* Frames 0 and 1 were detected, frame 2 was not, frame 3 was. *)
Definition store_gap : Frame (Corners xnum) :=
  [(0%Z, quad_a); (1%Z, quad_a); (3%Z, quad_a)].

(* an empty range of smoothing windows *)
Definition cfg_no_window : Config xnum :=
  {| value_threshold := lit (1 # 2); filter_area_size := qz 100;
     min_window := 5; max_window := 5; poly_degree := 0;
     smooth_threshold := qz 1; source_type := 0 |}.

(* Thirty frames of the banner of [store2]'s frame 0, flagged or not as the
   example needs. *)
Definition row_a (unstable_r unstable_l : bool) : Row xnum :=
  set_flags {| pts := quad_a; der := derive quad_a |} unstable_r unstable_l.

Definition table30 : Frame (Row xnum) :=
  zip (seqZ 0 30) (replicate 30 (row_a false false)).

(* the value is not NaN *)
Definition not_nan (a : xnum) : bool :=
  match a with NaN => false | _ => true end.

(* the box point lies on the given side of the centre: left (x < xm) or not,
   top (y < ym) or not *)
Definition in_quadrant {num : Type} `{Numeric num} (xm ym : num) (left top : bool)
    (p : Point num) : bool :=
  Bool.eqb (fst p <? xm) left && Bool.eqb (snd p <? ym) top.

(* the box point lies right of the centre (x > xm), and above it (y < ym) or
   not *)
Definition right_of {num : Type} `{Numeric num} (xm ym : num) (top : bool)
    (p : Point num) : bool :=
  (fst p >? xm) && Bool.eqb (snd p <? ym) top.

(* the last item of the box that passes the test, or else the old value *)
Definition pick {A} (test : A -> bool) (box : list A) (old : option A) : option A :=
  match last (List.filter test box) with
  | Some p => Some p
  | None => old
  end.

(* the corner variables top_left, top_right, bot_left, bot_right *)
Definition corner_vars {num : Type} (contour : Type) (s : Scan (num := num) contour)
    : option (Point num) * option (Point num) * option (Point num)
      * option (Point num) :=
  (top_left contour s, top_right contour s, bot_left contour s, bot_right contour s).

(* a 50 x 10 box tilted by 45 degrees: two box points lie below and left of
   the centre, two above and right of it *)
Definition contour_tilted : SampleContour :=
  {| s_area := qz 500; s_center := (qz 100, qz 100);
     s_box := [(lit (145 # 2), lit (245 # 2)); (lit (155 # 2), lit (255 # 2));
               (lit (255 # 2), lit (155 # 2)); (lit (245 # 2), lit (145 # 2))] |}.

(* a box standing on one corner: no point is left of and above the centre *)
Definition contour_diamond : SampleContour :=
  {| s_area := qz 500; s_center := (qz 100, qz 100);
     s_box := [(qz 100, qz 80); (qz 120, qz 100); (qz 100, qz 120); (qz 80, qz 100)] |}.

(* the x coordinate of the centre of the contour's rectangle (xm of line 142) *)
Section CentreNotions.
Variable contour : Type.
Variable minAreaRect_center : contour -> Point xnum.

Definition centre_x (cnt : contour) : xnum := fst (minAreaRect_center cnt).

(* center_left and center_right are centres of filled contours, and the
   centre of every filled contour lies between them *)
Definition centres_bracket (s : Scan (num := xnum) contour) : Prop :=
  if first_cnt contour s then drawn contour s = []
  else exists l r,
      c_left contour s = Some l /\ c_right contour s = Some r /\
      (exists c, c ∈ drawn contour s /\ centre_x c = l) /\
      (exists c, c ∈ drawn contour s /\ centre_x c = r) /\
      forall c, c ∈ drawn contour s ->
        (l <=? centre_x c) = true /\ (centre_x c <=? r) = true.

End CentreNotions.

(* a second banner, left of [contour_500] *)
Definition contour_300 : SampleContour :=
  {| s_area := qz 300; s_center := (qz 40, qz 60);
     s_box := [(qz 25, qz 50); (qz 55, qz 50); (qz 55, qz 70); (qz 25, qz 70)] |}.

(* One frame of a detection pass with [contour_500] on a 2 x 3 frame, and the
   replay pass that starts from the files and the table it left. *)
Definition sample_detect : Image -> M (Replacer xnum) unit :=
  detect_banner cfg_area moving_average SampleContour (fun _ => [contour_500])
    s_area s_center s_box sample_draw
    (fun _ => [[qz 0; qz 1; qz 1]; [qz 0; qz 1; qz 1]]).

Definition detected_once : Replacer xnum := fst (sample_detect frame23 init).

Definition replay_once : Replacer xnum :=
  {| detected_mask := None; detection_successful := false; frame := [];
     corners := None; old_width := None; center_left := None;
     center_right := None; frame_num := 0; before_smoothing := false;
     load_smooth := false; saved_points := saved_points detected_once;
     saved_frame_mask := saved_frame_mask detected_once |}.

(* a replay pass over [store20] that has not smoothed the table yet *)
Definition replay_store20 : Replacer xnum :=
  {| detected_mask := None; detection_successful := false; frame := [];
     corners := None; old_width := None; center_left := None;
     center_right := None; frame_num := 0; before_smoothing := false;
     load_smooth := true; saved_points := store20; saved_frame_mask := [] |}.

(* [at_right_edge] when no earlier frame showed the whole banner *)
Definition at_right_edge_first : Replacer xnum := set_old_width at_right_edge None.

(** ** The Dice loss and the Dice coefficient ([__dice_loss], [__dice_coef]) *)

Section Losses.
Context {num : Type} `{Numeric num}.

(* tf.reduce_sum over the listed axes, for the entries of one sample (or of
   one position, for the last axis) in order *)
Definition reduce_sum (t : list num) : num := fold_left add t (lit 0).

(* __dice_loss, for one sample of the batch: y_true and y_pred have the same
   shape and are given by their entries over the axes 1, 2, 3 *)
Definition dice_loss (y_true y_pred : list num) : num :=
  let numerator := (lit 2 * reduce_sum (zip_with mul y_true y_pred))%num in
  let denominator := reduce_sum (zip_with add y_true y_pred) in
  (lit 1 - numerator / denominator)%num.

(* __dice_coef, at one position: the entries along the last axis *)
Definition dice_coef (y_true y_pred : list num) : num :=
  let numerator := (lit 2 * reduce_sum (zip_with mul y_true y_pred))%num in
  let denominator := reduce_sum (zip_with add y_true y_pred) in
  ((numerator + lit 1) / (denominator + lit 1))%num.

End Losses.

(* a probability, and a mask value *)
Definition unit_interval (x : R) : Prop := (0 <= x <= 1)%R.
Definition binary (x : R) : Prop := x = 0%R \/ x = 1%R.

(* the computation leaves the index of the data frame as it is, also when
   it raises *)
Definition keeps_labels (num : Type) {A} (m : M (list (Z * Row num)) A) : Prop :=
  forall t, labels (fst (m t)) = labels t.

(** * Properties *)

(** ** The number model *)

Example xnum_arccos_0 :
  (np_arccos (lit 0) * (lit 180 / np_pi))%num = Fin 90.
Proof. vm_compute. reflexivity. Qed.

Example xnum_sqrt_169 : np_sqrt (lit 169) = Fin 13.
Proof. vm_compute. reflexivity. Qed.

Example xnum_div_zero : (lit 5 / lit 0)%num = PInf /\ (lit 0 / lit 0)%num = NaN.
Proof. split; reflexivity. Qed.


(** ** Data frames *)

Section DataFrameFacts.
Context {A : Type}.
Implicit Types (t : Frame A) (i j : Z) (r : A).

Lemma loc_None t i : loc t i = None <-> i ∉ labels t.
Proof.
  induction t as [|[k r0] t IH]; simpl.
  - split; [intros _; apply not_elem_of_nil | done].
  - destruct (Z.eqb_spec k i) as [->|Hne].
    + split; [done | intros Hn; exfalso; apply Hn; left].
    + rewrite IH, not_elem_of_cons. intuition congruence.
Qed.

Lemma loc_is_Some t i : is_Some (loc t i) <-> i ∈ labels t.
Proof.
  destruct (loc t i) eqn:E.
  - split; [intros _ | eauto].
    destruct (decide (i ∈ labels t)) as [|Hn]; [done|].
    apply loc_None in Hn. congruence.
  - split; [intros [? ?]; done|]. intros Hin. apply loc_None in E. done.
Qed.

Lemma loc_dense t i :
  dense t -> is_Some (loc t i) <-> (0 <= i < Z.of_nat (length t))%Z.
Proof.
  intros Hd. rewrite loc_is_Some, Hd, elem_of_seqZ. lia.
Qed.

Lemma dense_present t : dense t -> present t.
Proof. intros Hd i Hi. by apply loc_dense. Qed.

Lemma loc_set_loc_eq t i r : is_Some (loc t i) -> loc (set_loc t i r) i = Some r.
Proof.
  induction t as [|[k r0] t IH]; simpl; [intros [? ?]; done|].
  destruct (Z.eqb_spec k i) as [->|Hne]; simpl.
  - by rewrite Z.eqb_refl.
  - intros Hs. destruct (Z.eqb_spec k i); [done | auto].
Qed.

Lemma loc_set_loc_ne t i j r : i <> j -> loc (set_loc t i r) j = loc t j.
Proof.
  intros Hne. induction t as [|[k r0] t IH]; simpl; [done|].
  destruct (Z.eqb_spec k i) as [->|Hki]; simpl.
  - destruct (Z.eqb_spec i j); done.
  - by rewrite IH.
Qed.

Lemma labels_set_loc t i r : labels (set_loc t i r) = labels t.
Proof.
  induction t as [|[k r0] t IH]; simpl; [done|].
  destruct (Z.eqb_spec k i); simpl; [done | by f_equal].
Qed.

Lemma length_set_loc t i r : length (set_loc t i r) = length t.
Proof.
  induction t as [|[k r0] t IH]; simpl; [done|].
  destruct (Z.eqb_spec k i); simpl; [done | by f_equal].
Qed.

Lemma loc_app_fresh t i r : loc t i = None -> loc (t ++ [(i, r)]) i = Some r.
Proof.
  induction t as [|[k r0] t IH]; simpl.
  - by rewrite Z.eqb_refl.
  - destruct (Z.eqb_spec k i); [done | auto].
Qed.

Lemma loc_loc_assign t i r : loc (loc_assign t i r) i = Some r.
Proof.
  unfold loc_assign. destruct (loc t i) eqn:E.
  - apply loc_set_loc_eq. rewrite E. eauto.
  - by apply loc_app_fresh.
Qed.

End DataFrameFacts.

(** ** Stabilisation: a store without flagged frames keeps its x-coordinates *)

Section Unflagged.
Context {num : Type} `{Numeric num}.
Variable savgol_filter : list num -> Z -> Z -> res (list num).
Variable cfg : Config num.
Implicit Types (t : Frame (Row num)).

Lemma x_columns_drop_features t : x_columns (drop_features t) = x_columns_rows t.
Proof. unfold x_columns, drop_features, x_columns_rows. by rewrite map_map. Qed.

Lemma x_columns_add_features (sp : Frame (Corners num)) :
  x_columns_rows (add_features sp) = x_columns sp.
Proof. unfold x_columns, add_features, x_columns_rows. by rewrite map_map. Qed.

Lemma x_columns_rectify t : x_columns_rows (rectify t) = x_columns_rows t.
Proof. unfold rectify, x_columns_rows. by rewrite map_map. Qed.

Lemma x_columns_assign_flags t ur ul :
  x_columns_rows (assign_flags t ur ul) = x_columns_rows t.
Proof.
  unfold assign_flags, x_columns_rows.
  apply list_eq; intros k.
  rewrite !list_lookup_fmap, list_lookup_imap.
  by destruct (t !! k).
Qed.

Lemma unflagged_assign_flags t ur ul :
  Forall (eq false) ur -> Forall (eq false) ul ->
  Forall (fun kr => unflagged (snd kr)) (rectify (assign_flags t ur ul)).
Proof.
  intros Hur Hul. unfold rectify. rewrite Forall_fmap.
  apply Forall_lookup; intros k kr Hk.
  unfold assign_flags in Hk. rewrite list_lookup_imap in Hk.
  destruct (t !! k) as [[lbl r]|]; simplify_eq/=.
  split.
  - destruct (ur !! k) eqn:E; [|done]. simpl.
    by rewrite (Forall_lookup_1 _ _ _ _ Hur E).
  - destruct (ul !! k) eqn:E; [|done]. simpl.
    by rewrite (Forall_lookup_1 _ _ _ _ Hul E).
Qed.

Lemma loc_Forall {A} (P : A -> Prop) (t : Frame A) i r :
  Forall (fun kr => P (snd kr)) t -> loc t i = Some r -> P r.
Proof.
  induction 1 as [|[k r0] t Hr Ht IH]; simpl; [done|].
  destruct (Z.eqb_spec k i); [by intros [= <-] | done].
Qed.

Lemma correct_frame_unflagged t x :
  Forall (fun kr => unflagged (snd kr)) t ->
  correct_frame x None t = (t, Ok None) \/
  exists e, correct_frame x None t = (t, Raise e).
Proof.
  intros Hall. unfold correct_frame, bind, loc_row.
  destruct (loc t x) as [row|] eqn:E; [|right; eauto].
  destruct (loc_Forall _ _ _ _ Hall E) as [-> ->]. simpl.
  unfold ret, ratio_drift, bind, ret.
  left. by destruct (_ <? _).
Qed.

Lemma correction_loop_unflagged frames t :
  Forall (fun kr => unflagged (snd kr)) t ->
  fst (correction_loop frames None t) = t.
Proof.
  intros Hall. induction frames as [|x rest IH]; simpl; [done|].
  unfold bind at 1.
  destruct (correct_frame_unflagged t x Hall) as [-> | [e ->]]; [apply IH | done].
Qed.

Lemma x_columns_assign_column set values t :
  (forall c v, x_coords (set c v) = x_coords c) ->
  x_columns_rows (fst (assign_column set values t)) = x_columns_rows t.
Proof.
  intros Hset. unfold assign_column.
  destruct (Nat.eqb_spec (length values) (length t)) as [Hlen|]; simpl; [|done].
  unfold x_columns_rows. apply list_eq; intros k.
  rewrite !list_lookup_fmap, lookup_zip_with.
  destruct (t !! k) as [[lbl r]|] eqn:Et; simpl; [|done].
  destruct (values !! k) eqn:Ev; simpl.
  - by rewrite Hset.
  - apply lookup_ge_None in Ev. apply lookup_lt_Some in Et. lia.
Qed.

Lemma x_columns_smooth_column get set t :
  (forall c v, x_coords (set c v) = x_coords c) ->
  x_columns_rows (fst (smooth_column savgol_filter cfg get set t)) = x_columns_rows t.
Proof.
  intros Hset. unfold smooth_column.
  destruct (smooth_series _ _ _); [by apply x_columns_assign_column | done].
Qed.

Lemma x_columns_bind {A B} (m : M (Frame (Row num)) A)
    (k : A -> M (Frame (Row num)) B) t :
  x_columns_rows (fst (m t)) = x_columns_rows t ->
  (forall a t', x_columns_rows (fst (k a t')) = x_columns_rows t') ->
  x_columns_rows (fst (bind m k t)) = x_columns_rows t.
Proof.
  intros Hm Hk. unfold bind. destruct (m t) as [t' [a|e]]; simpl in *.
  - by rewrite Hk.
  - done.
Qed.

Lemma x_columns_correct_and_smooth t :
  Forall (fun kr => unflagged (snd kr)) t ->
  x_columns_rows (fst (correct_and_smooth savgol_filter cfg t)) = x_columns_rows t.
Proof.
  intros Hall. unfold correct_and_smooth.
  unfold bind at 1, get.
  apply x_columns_bind.
  { by rewrite correction_loop_unflagged. }
  intros _ t1.
  repeat (apply x_columns_bind;
          [by apply x_columns_smooth_column | intros _ ?]).
  by apply x_columns_smooth_column.
Qed.

End Unflagged.

(** C5 (amended).  A stabilisation pass over a store in which no frame is
    flagged unstable changes no x-coordinate (whether the pass completes or
    raises); in particular a second run leaves the x-coordinates alone
    whenever the stabilised store has no flagged frame. *)
Theorem smooth_points_unflagged_keeps_x {num : Type} `{Numeric num}
    (savgol_filter : list num -> Z -> Z -> res (list num)) (cfg : Config num)
    (saved_points : Frame (Corners num)) :
  (forall ul ur, stability_flags (add_features saved_points) = Ok (ul, ur) ->
     Forall (eq false) ul /\ Forall (eq false) ur) ->
  x_columns (fst (smooth_points savgol_filter cfg saved_points))
  = x_columns saved_points.
Proof.
  intros Hflags. unfold smooth_points.
  destruct (stability_flags (add_features saved_points)) as [[ul ur]|e] eqn:E;
    [|done].
  destruct (Hflags ul ur eq_refl) as [Hul Hur].
  destruct (correct_and_smooth _ _ _) as [t2 r] eqn:E2. simpl.
  rewrite x_columns_drop_features.
  change t2 with (fst (t2, r)). rewrite <- E2.
  rewrite x_columns_correct_and_smooth by (by apply unflagged_assign_flags).
  by rewrite x_columns_rectify, x_columns_assign_flags, x_columns_add_features.
Qed.

Lemma smooth_points_unflagged_keeps_x_witness :
  x_columns (fst (smooth_points moving_average cfg_sample store20))
  = x_columns store20.
Proof.
  apply (smooth_points_unflagged_keeps_x moving_average cfg_sample store20).
  intros ul ur Hf. vm_compute in Hf. injection Hf as <- <-.
  split; repeat constructor.
Defined.

(** C5 (counterexample).  The first pass over [store20] completes and flags
    nothing; it straightens the bottom-right corners, after which frame 10 is
    flagged on both sides, and the second pass moves x_top_right of frame 0
    from 124 to 166. *)
Lemma second_pass_changes_x :
  snd (smooth_points moving_average cfg_sample store20) = Ok tt /\
  (exists ul ur,
     stability_flags (add_features store20_stabilised) = Ok (ul, ur) /\
     ul !! 10%nat = Some true /\ ur !! 10%nat = Some true) /\
  snd (smooth_points moving_average cfg_sample store20_stabilised) = Ok tt /\
  x_top_right <$> loc store20_stabilised 0 = Some (Fin 124) /\
  x_top_right <$> loc (fst (smooth_points moving_average cfg_sample store20_stabilised)) 0
    = Some (Fin 166) /\
  x_columns (fst (smooth_points moving_average cfg_sample store20_stabilised))
    <> x_columns store20_stabilised.
Proof.
  split; [by vm_compute|].
  split.
  { eexists _, _. split; [vm_compute; reflexivity|]. split; reflexivity. }
  split; [by vm_compute|].
  split; [by vm_compute|].
  split; [by vm_compute|].
  vm_compute. discriminate.
Qed.

(** ** Stabilisation: the stability flags *)

Section Flags.
Context {num : Type} `{Numeric num}.
Implicit Types (t : Frame (Row num)).

Lemma seqZ_S a (k : nat) :
  seqZ a (Z.of_nat (S k)) = a :: seqZ (Z.succ a) (Z.of_nat k).
Proof.
  rewrite seqZ_cons by lia. do 2 f_equal. lia.
Qed.

Lemma pred_index_succ a : (0 <= a)%Z -> pred_index (Z.succ a) = a.
Proof.
  intros Ha. unfold pred_index. destruct (Z.eqb_spec (Z.succ a) 0); lia.
Qed.

Lemma lost_side_loop_Ok t (k : nat) : forall a prev_x,
  (0 <= a)%Z -> loc t (pred_index a) = Some prev_x ->
  (forall i, (a <= i < a + Z.of_nat k)%Z -> is_Some (loc t i)) ->
  lost_side_loop t prev_x (seqZ a (Z.of_nat k))
  = Ok (List.filter (jump t) (seqZ a (Z.of_nat k))).
Proof.
  induction k as [|k IH]; intros a prev_x Ha Hprev Hall; [done|].
  rewrite seqZ_S. cbn [lost_side_loop List.filter].
  destruct (Hall a ltac:(lia)) as [data Hdata]. rewrite Hdata.
  rewrite (IH (Z.succ a) data); [| lia | by rewrite pred_index_succ |
                                 intros i Hi; apply Hall; lia].
  assert (jump t a = (nabs (dist_top_left (der data) - dist_top_left (der prev_x))
                       >? lit 5)) as ->; [|done].
  unfold jump. by rewrite Hdata, Hprev.
Qed.

Lemma lost_side_present t :
  present t -> t <> [] ->
  lost_side t = Ok (List.filter (jump t) (py_range_len t)).
Proof.
  intros Hd Hne. unfold lost_side, py_range_len.
  assert (0 < length t)%nat as Hlen by (destruct t; simpl; [done | lia]).
  destruct (Hd 0%Z ltac:(lia)) as [prev_x Hp]. rewrite Hp.
  apply lost_side_loop_Ok; [done | done |].
  intros i Hi. apply Hd. lia.
Qed.

Lemma lost_side_loop_present t (k : nat) : forall a prev_x ls,
  lost_side_loop t prev_x (seqZ a (Z.of_nat k)) = Ok ls ->
  forall i, (a <= i < a + Z.of_nat k)%Z -> is_Some (loc t i).
Proof.
  induction k as [|k IH]; intros a prev_x ls Hrun i Hi; [lia|].
  rewrite seqZ_S in Hrun. cbn [lost_side_loop] in Hrun.
  destruct (loc t a) as [data|] eqn:Hdata; [|done].
  destruct (lost_side_loop t data _) as [ls'|] eqn:Hrest; [|done].
  destruct (decide (i = a)) as [->|Hne]; [by rewrite Hdata|].
  eapply IH; [exact Hrest | lia].
Qed.

(* the loop of lines 464-471 completes only on a store that has a row for
   every label 0 .. len - 1 *)
Lemma lost_side_Ok_present t ls :
  lost_side t = Ok ls -> present t /\ t <> [].
Proof.
  unfold lost_side. destruct (loc t 0) as [prev_x|] eqn:H0; [|done].
  intros Hrun. split; [|by destruct t].
  intros i Hi. eapply lost_side_loop_present; [exact Hrun | lia].
Qed.

Lemma np_setitem_in_range {A} (a : list A) (i : Z) (v : A) :
  (0 <= i < Z.of_nat (length a))%Z -> np_setitem a i v = Ok (<[Z.to_nat i := v]> a).
Proof.
  intros Hi. unfold np_setitem.
  destruct (Z.leb_spec 0 i); [|lia]. destruct (Z.ltb_spec i (Z.of_nat (length a))); [done | lia].
Qed.

Lemma lookup_set_true (a : list bool) (j k : nat) (b : bool) :
  a !! k = Some b ->
  <[j := true]> a !! k = Some (b || Nat.eqb j k).
Proof.
  intros Hk. destruct (Nat.eqb_spec j k) as [->|Hne].
  - rewrite list_lookup_insert_eq by (by eapply lookup_lt_Some).
    by rewrite orb_true_r.
  - rewrite list_lookup_insert_ne by done. by rewrite orb_false_r.
Qed.

Lemma flag_loop_Ok t : forall ls ul ur,
  (forall i, i ∈ ls ->
     (0 <= i < Z.of_nat (length ul))%Z /\ is_Some (loc t i) /\ is_Some (loc t (i - 1))) ->
  length ur = length ul ->
  exists ul' ur',
    flag_loop t ls ul ur = Ok (ul', ur') /\
    length ul' = length ul /\ length ur' = length ul /\
    forall k b c, ul !! k = Some b -> ur !! k = Some c ->
      ul' !! k = Some (b || existsb (fun i => Nat.eqb (Z.to_nat i) k
                                              && moved x_top_left t i) ls) /\
      ur' !! k = Some (c || existsb (fun i => Nat.eqb (Z.to_nat i) k
                                              && moved x_top_right t i) ls).
Proof.
  induction ls as [|i rest IH]; intros ul ur Hall Hlen.
  { exists ul, ur. repeat split; try done; simpl; by rewrite orb_false_r. }
  destruct (Hall i ltac:(left)) as (Hi & [r Hr] & [p Hp]).
  set (ul1 := if moved x_top_left t i then <[Z.to_nat i := true]> ul else ul).
  set (ur1 := if moved x_top_right t i then <[Z.to_nat i := true]> ur else ur).
  assert (length ul1 = length ul) as Hl1
    by (unfold ul1; destruct (moved x_top_left t i); by rewrite ?length_insert).
  assert (length ur1 = length ul) as Hr1
    by (unfold ur1; destruct (moved x_top_right t i); by rewrite ?length_insert).
  destruct (IH ul1 ur1) as (ul' & ur' & Hrun & Hlu & Hlr & Hspec).
  { intros j Hj. rewrite Hl1. apply Hall. by right. }
  { congruence. }
  exists ul', ur'. split; [|split; [congruence | split; [congruence|]]].
  - assert (moved x_top_left t i
            = (nabs (x_top_left (pts r) - x_top_left (pts p)) >? lit 9)) as Hml
      by (unfold moved; by rewrite Hr, Hp).
    assert (moved x_top_right t i
            = (nabs (x_top_right (pts r) - x_top_right (pts p)) >? lit 9)) as Hmr
      by (unfold moved; by rewrite Hr, Hp).
    simpl. unfold loc_col. rewrite Hr, Hp. simpl. rewrite <- Hml, <- Hmr.
    unfold ul1, ur1 in Hrun.
    destruct (moved x_top_left t i);
      [rewrite np_setitem_in_range by done|]; simpl;
      (destruct (moved x_top_right t i);
       [rewrite np_setitem_in_range by lia|]; simpl; exact Hrun).
  - intros k b c Hb Hc. simpl.
    assert (ul1 !! k = Some (b || (Nat.eqb (Z.to_nat i) k && moved x_top_left t i)))
      as Hb1.
    { unfold ul1. destruct (moved x_top_left t i).
      - rewrite andb_true_r. by apply lookup_set_true.
      - by rewrite andb_false_r, orb_false_r. }
    assert (ur1 !! k = Some (c || (Nat.eqb (Z.to_nat i) k && moved x_top_right t i)))
      as Hc1.
    { unfold ur1. destruct (moved x_top_right t i).
      - rewrite andb_true_r. by apply lookup_set_true.
      - by rewrite andb_false_r, orb_false_r. }
    destruct (Hspec k _ _ Hb1 Hc1) as [-> ->].
    by rewrite !orb_assoc.
Qed.

Lemma existsb_filter_seqZ (f g : Z -> bool) (n : nat) (i : Z) :
  (0 <= i < Z.of_nat n)%Z ->
  existsb (fun j => Nat.eqb (Z.to_nat j) (Z.to_nat i) && g j)
          (List.filter f (seqZ 0 (Z.of_nat n)))
  = f i && g i.
Proof.
  intros Hi. apply eq_true_iff_eq. rewrite existsb_exists, andb_true_iff. split.
  - intros (j & Hj & Hjg). apply filter_In in Hj as [Hj Hf].
    apply list_elem_of_In, elem_of_seqZ in Hj.
    apply andb_true_iff in Hjg as [Heq Hg]. apply Nat.eqb_eq in Heq.
    assert (j = i) as -> by lia. done.
  - intros [Hf Hg]. exists i. split.
    + apply filter_In. split; [|done]. apply list_elem_of_In, elem_of_seqZ. lia.
    + by rewrite Nat.eqb_refl, Hg.
Qed.

(* On a store with labels 0 .. n-1 whose frame 0 is no candidate, the flags are
   computed, and frame i is flagged on a side exactly when it is a
   candidate and that side's top x moved by more than 9. *)
Lemma stability_flags_present t :
  present t -> t <> [] -> jump t 0 = false ->
  exists ul ur,
    stability_flags t = Ok (ul, ur) /\
    length ul = length t /\ length ur = length t /\
    forall i, (0 <= i < Z.of_nat (length t))%Z ->
      ul !! Z.to_nat i = Some (jump t i && moved x_top_left t i) /\
      ur !! Z.to_nat i = Some (jump t i && moved x_top_right t i).
Proof.
  intros Hd Hne H0. unfold stability_flags.
  rewrite lost_side_present by done. simpl.
  destruct (flag_loop_Ok t (List.filter (jump t) (py_range_len t))
              (np_zeros (length t)) (np_zeros (length t)))
    as (ul & ur & Hrun & Hlu & Hlr & Hspec).
  { intros i Hin. apply list_elem_of_In, filter_In in Hin as [Hin Hj].
    apply list_elem_of_In, elem_of_seqZ in Hin.
    assert (i <> 0%Z) by (intros ->; congruence).
    unfold np_zeros. rewrite length_replicate.
    split; [lia|]. split; apply Hd; lia. }
  { done. }
  unfold np_zeros in Hlu, Hlr. rewrite length_replicate in Hlu, Hlr.
  exists ul, ur. repeat split; try done.
  - destruct (Hspec (Z.to_nat i) false false) as [-> _];
      try (apply lookup_replicate_2; lia).
    simpl. f_equal. apply existsb_filter_seqZ. lia.
  - destruct (Hspec (Z.to_nat i) false false) as [_ ->];
      try (apply lookup_replicate_2; lia).
    simpl. f_equal. apply existsb_filter_seqZ. lia.
Qed.

End Flags.

(** ** Stabilisation: the reconstruction windows *)

Section Window.
Context {num : Type} `{Numeric num}.
Implicit Types (t : Frame (Row num)).

Lemma right_rebuilt_idem r : right_rebuilt (right_rebuilt r) = right_rebuilt r.
Proof. done. Qed.

Lemma left_rebuilt_idem r : left_rebuilt (left_rebuilt r) = left_rebuilt r.
Proof. done. Qed.

Lemma present_after_set_loc t i r (ps : list Z) :
  (forall p, p ∈ ps -> is_Some (loc t p)) ->
  forall p, p ∈ ps -> is_Some (loc (set_loc t i r) p).
Proof.
  intros Hall p Hp. rewrite loc_is_Some, labels_set_loc, <- loc_is_Some. auto.
Qed.

(* A window inside the store: every position gets x_top_right and
   x_bot_right rebuilt from its own left side; nothing else changes. *)
Lemma rebuild_right_spec (ps : list Z) : forall t a b,
  (forall p, p ∈ ps -> is_Some (loc t p)) ->
  exists t' v,
    rebuild_right ps a b t = (t', Ok v) /\
    labels t' = labels t /\
    forall p, loc t' p
              = if decide (p ∈ ps) then right_rebuilt <$> loc t p else loc t p.
Proof.
  induction ps as [|position rest IH]; intros t a b Hall.
  { exists t, (a, b). split; [done|]. split; [done|].
    intros p. by rewrite decide_False by apply not_elem_of_nil. }
  destruct (Hall position ltac:(left)) as [r Hr].
  destruct (IH (set_loc t position (right_rebuilt r))
               (x_top_left (pts r)) (x_bot_left (pts r)))
    as (t' & v & Hrun & Hlab & Hloc).
  { apply present_after_set_loc. intros p Hp. apply Hall. by right. }
  exists t', v. split; [|split].
  - simpl. unfold bind, loc_row, store_row. rewrite Hr. exact Hrun.
  - by rewrite Hlab, labels_set_loc.
  - intros p. rewrite Hloc.
    destruct (decide (p = position)) as [->|Hne].
    + rewrite loc_set_loc_eq by (rewrite Hr; eauto). rewrite Hr.
      rewrite (decide_True (P := position ∈ position :: rest)) by left.
      by destruct (decide (position ∈ rest)).
    + rewrite loc_set_loc_ne by done.
      destruct (decide (p ∈ rest)) as [Hin|Hnin].
      * by rewrite decide_True by (by right).
      * rewrite decide_False; [done|]. rewrite elem_of_cons. intros [?|?]; done.
Qed.

Lemma rebuild_left_spec (ps : list Z) : forall t a b,
  (forall p, p ∈ ps -> is_Some (loc t p)) ->
  exists t' v,
    rebuild_left ps a b t = (t', Ok v) /\
    labels t' = labels t /\
    forall p, loc t' p
              = if decide (p ∈ ps) then left_rebuilt <$> loc t p else loc t p.
Proof.
  induction ps as [|position rest IH]; intros t a b Hall.
  { exists t, (a, b). split; [done|]. split; [done|].
    intros p. by rewrite decide_False by apply not_elem_of_nil. }
  destruct (Hall position ltac:(left)) as [r Hr].
  destruct (IH (set_loc t position (left_rebuilt r))
               (x_top_right (pts r)) (x_bot_right (pts r)))
    as (t' & v & Hrun & Hlab & Hloc).
  { apply present_after_set_loc. intros p Hp. apply Hall. by right. }
  exists t', v. split; [|split].
  - simpl. unfold bind, loc_row, store_row. rewrite Hr. exact Hrun.
  - by rewrite Hlab, labels_set_loc.
  - intros p. rewrite Hloc.
    destruct (decide (p = position)) as [->|Hne].
    + rewrite loc_set_loc_eq by (rewrite Hr; eauto). rewrite Hr.
      rewrite (decide_True (P := position ∈ position :: rest)) by left.
      by destruct (decide (position ∈ rest)).
    + rewrite loc_set_loc_ne by done.
      destruct (decide (p ∈ rest)) as [Hin|Hnin].
      * by rewrite decide_True by (by right).
      * rewrite decide_False; [done|]. rewrite elem_of_cons. intros [?|?]; done.
Qed.

(* A window that starts before frame 0: the first read raises KeyError and
   nothing is written. *)
Lemma rebuild_right_before_start t (x : Z) a b :
  dense t -> (x < 10)%Z ->
  rebuild_right (py_range (x - 10) (x + 10)) a b t = (t, Raise (KeyError (x - 10))).
Proof.
  intros Hd Hx. unfold py_range.
  replace (x + 10 - (x - 10))%Z with (Z.of_nat 20) by lia.
  rewrite seqZ_S. simpl. unfold bind, loc_row.
  destruct (loc t (x - 10)) eqn:E; [|done].
  assert (is_Some (loc t (x - 10))) as Hs by (rewrite E; eauto).
  apply loc_dense in Hs; [lia | done].
Qed.

End Window.

(** ** Frame 0 is never flagged *)

Lemma xnum_sub_diag_small (d : xnum) : (nabs (d - d) >? lit 5) = false.
Proof.
  destruct d as [q| | |]; try reflexivity.
  simpl. unfold X.sub, X.neg, X.add, X.fin, X.abs, X.fin, X.ltb.
  assert (Qred (Qabs (Qred (q + Qred (- q)))) == 0)%Q as Hz.
  { rewrite !Qred_correct. rewrite Qplus_opp_r. reflexivity. }
  rewrite Hz. reflexivity.
Qed.

Lemma xnum_jump_0 (t : Frame (Row xnum)) : jump t 0 = false.
Proof.
  unfold jump. change (pred_index 0) with 0%Z.
  destruct (loc t 0); [apply xnum_sub_diag_small | done].
Qed.

(** C9.  In every track store frame 0 is compared with itself, so it is never
    a candidate; when the candidate loop completes, frame 0 is not in the
    candidate list, every predecessor row read while setting the flags
    exists, the flags are computed without an exception and both flags of
    frame 0 are false.  The candidate loop completes on every non-empty store
    indexed 0 .. n-1. *)
Theorem frame0_never_flagged (t : Frame (Row xnum)) :
  jump t 0 = false /\
  (forall ls, lost_side t = Ok ls ->
     (0%Z ∉ ls) /\
     (forall i, i ∈ ls -> is_Some (loc t i) /\ is_Some (loc t (i - 1))) /\
     exists ul ur,
       stability_flags t = Ok (ul, ur) /\
       ul !! 0%nat = Some false /\ ur !! 0%nat = Some false) /\
  (dense t -> t <> [] -> exists ls, lost_side t = Ok ls).
Proof.
  split; [apply xnum_jump_0|]. split.
  - intros ls Hls.
    destruct (lost_side_Ok_present t ls Hls) as [Hp Hne].
    assert (0 < length t)%nat as Hlen by (destruct t; simpl; [done | lia]).
    rewrite (lost_side_present t Hp Hne) in Hls. injection Hls as <-.
    assert (forall i, i ∈ List.filter (jump t) (py_range_len t) ->
                      (1 <= i < Z.of_nat (length t))%Z) as Hrange.
    { intros i Hi. apply list_elem_of_In, filter_In in Hi as [Hi Hj].
      apply list_elem_of_In, elem_of_seqZ in Hi.
      assert (i <> 0%Z) by (intros ->; rewrite xnum_jump_0 in Hj; done). lia. }
    split; [|split].
    + intros H0. apply Hrange in H0. lia.
    + intros i Hi. apply Hrange in Hi. split; apply Hp; lia.
    + destruct (stability_flags_present t Hp Hne (xnum_jump_0 t))
        as (ul & ur & Hrun & _ & _ & Hspec).
      exists ul, ur. split; [done|].
      destruct (Hspec 0%Z ltac:(lia)) as [Hl Hr].
      rewrite xnum_jump_0 in Hl, Hr. done.
  - intros Hd Hne. eexists. apply lost_side_present; [by apply dense_present | done].
Qed.

Lemma frame0_never_flagged_witness :
  exists ls, lost_side (add_features store2) = Ok ls /\ (0%Z ∉ ls).
Proof.
  destruct (frame0_never_flagged (add_features store2)) as (_ & Hok & Htot).
  destruct Htot as [ls Hls]; [reflexivity | discriminate |].
  exists ls. split; [done|]. by destruct (Hok ls Hls).
Defined.

(** C1.  The two-frame store [store2]: frame 1 is a candidate (dist_top_left
    jumps from 13 to 20) whose x_top_left and x_top_right both move by 12, so
    it is flagged on both sides; its window is range(-9, 11), the read at
    position -9 raises KeyError, and no x_top_right or x_bot_right is
    rewritten. *)
Theorem window_outside_store_raises :
  stability_flags (add_features store2) = Ok ([false; true], [false; true]) /\
  smooth_points moving_average cfg_sample store2 = (store2, Raise (KeyError (-9))).
Proof. split; vm_compute; reflexivity. Qed.

(** ** The angle between the top edge and the left edge, over the reals *)

Section AngleRange.
Local Open Scope R_scope.

Lemma sqrt_sq_sum_pos (u v : R) : u <> 0 \/ v <> 0 -> 0 < sqrt (u * u + v * v).
Proof. intros Huv. apply sqrt_lt_R0. destruct Huv; nra. Qed.

(* Cauchy-Schwarz for two plane vectors, in the form the quotient needs *)
Lemma dot_le_norms (a0 a1 b0 b1 : R) :
  Rabs (a0 * b0 + a1 * b1) <= sqrt (a0 * a0 + a1 * a1) * sqrt (b0 * b0 + b1 * b1).
Proof.
  rewrite <- sqrt_mult by nra.
  rewrite <- sqrt_Rsqr_abs.
  pose proof (Rle_0_sqr (a0 * b1 - a1 * b0)) as Hsq.
  pose proof (Rle_0_sqr (a0 * b0 + a1 * b1)) as Hd.
  apply sqrt_le_1; unfold Rsqr in *; [lra | nra | lra].
Qed.

Lemma quotient_in_unit (d n : R) : 0 < n -> Rabs d <= n -> -1 <= d / n <= 1.
Proof.
  intros Hn Hd.
  assert (- n <= d <= n) as Hdn
    by (unfold Rabs in Hd; destruct (Rcase_abs d); lra).
  assert (0 < / n) as Hi by (by apply Rinv_0_lt_compat).
  assert (n * / n = 1) as H1 by (apply Rinv_r; lra).
  unfold Rdiv. split; nra.
Qed.

Lemma Q2R_180 : Q2R 180 = 180.
Proof. unfold Q2R. simpl. lra. Qed.

(* the feature computation in exact arithmetic *)
Lemma angle_exact (c : Corners R) :
  x_top_left c < x_top_right c ->
  y_top_left c < y_bot_left c ->
  let a0 := x_top_right c - x_top_left c in
  let a1 := y_top_right c - y_top_left c in
  let b0 := x_bot_left c - x_top_left c in
  let b1 := y_bot_left c - y_top_left c in
  0 < norm a0 a1 /\ 0 < norm b0 b1 /\
  cos_alpha (derive c) * (norm a0 a1 * norm b0 b1) = a0 * b0 + a1 * b1 /\
  -1 <= cos_alpha (derive c) <= 1 /\
  0 <= angle (derive c) <= 180 /\
  cos (angle (derive c) * (PI / 180)) = cos_alpha (derive c).
Proof.
  intros Hx Hy a0 a1 b0 b1.
  assert (0 < norm a0 a1) as Ha by (apply sqrt_sq_sum_pos; left; subst a0; lra).
  assert (0 < norm b0 b1) as Hb by (apply sqrt_sq_sum_pos; right; subst b1; lra).
  assert (-1 <= cos_alpha (derive c) <= 1) as Hcos
    by (apply quotient_in_unit; [by apply Rmult_lt_0_compat | apply dot_le_norms]).
  pose proof PI_RGT_0 as Hpi.
  assert (angle (derive c) = acos (cos_alpha (derive c)) * (180 / PI)) as Hangle.
  { cbn [angle derive].
    change (acos (cos_alpha (derive c)) * (Q2R 180 / PI)
            = acos (cos_alpha (derive c)) * (180 / PI)).
    by rewrite Q2R_180. }
  split; [done|]. split; [done|]. split; [|split; [done|split]].
  - change (cos_alpha (derive c)) with ((a0 * b0 + a1 * b1) / (norm a0 a1 * norm b0 b1)).
    field. split; lra.
  - rewrite Hangle.
    pose proof (acos_bound (cos_alpha (derive c))) as [H0 H1].
    assert (0 < / PI) as Hi by (by apply Rinv_0_lt_compat).
    assert (PI * / PI = 1) as Hone by (apply Rinv_r; lra).
    unfold Rdiv. split; nra.
  - rewrite Hangle.
    replace (acos (cos_alpha (derive c)) * (180 / PI) * (PI / 180))
      with (acos (cos_alpha (derive c))) by (field; lra).
    by apply cos_acos.
Qed.

End AngleRange.

(** ** The angle in the executable number model *)

Section AngleComputed.
Local Open Scope Q_scope.
Local Abbreviation N18 := (inject_Z (10 ^ 18)).

Lemma N18_pos : 0 < N18.
Proof. reflexivity. Qed.

Lemma Qhalf_between (lo hi : Q) : lo <= hi -> lo <= (lo + hi) / 2 <= hi.
Proof. intros. unfold Qdiv. change (/ 2) with (1 # 2). split; Lqa.lra. Qed.

Lemma Qtrunc_spec (q : Q) : X.Qtrunc q == inject_Z (Qfloor (q * N18)) / N18.
Proof. unfold X.Qtrunc. rewrite Qred_correct, Qmake_Qdiv. reflexivity. Qed.

Lemma Qtrunc_le (q : Q) : X.Qtrunc q <= q.
Proof.
  rewrite Qtrunc_spec. apply Qle_shift_div_r; [apply N18_pos|]. apply Qfloor_le.
Qed.

(* truncation does not go below a grid point that the number is above *)
Lemma Qtrunc_ge_grid (z : Z) (q : Q) :
  inject_Z z / N18 <= q -> inject_Z z / N18 <= X.Qtrunc q.
Proof.
  intros Hle. rewrite Qtrunc_spec.
  apply Qle_shift_div_l; [apply N18_pos|].
  assert (inject_Z z == inject_Z z / N18 * N18) as Heq by (field; discriminate).
  assert (inject_Z z <= q * N18) as Hz.
  { rewrite Heq. apply Qmult_le_compat_r; [exact Hle | discriminate]. }
  rewrite <- Heq, <- Zle_Qle. rewrite <- (Qfloor_Z z). by apply Qfloor_resp_le.
Qed.

Lemma arcsin_bisect_range (fuel : nat) : forall (z : Z) (lo hi c : Q),
  lo == inject_Z z / N18 -> lo <= hi ->
  lo <= X.arcsin_bisect fuel lo hi c <= hi.
Proof.
  assert (forall (z : Z) (lo hi : Q),
            lo == inject_Z z / N18 -> lo <= hi ->
            lo <= X.Qtrunc ((lo + hi) / 2) <= hi) as Hmid.
  { intros z lo hi Hgrid Hle. destruct (Qhalf_between lo hi Hle) as [H1 H2]. split.
    - apply Qle_trans with (inject_Z z / N18).
      + rewrite Hgrid. apply Qle_refl.
      + apply Qtrunc_ge_grid. by rewrite <- Hgrid.
    - eapply Qle_trans; [apply Qtrunc_le | done]. }
  induction fuel as [|f IH]; intros z lo hi c Hgrid Hle.
  - simpl. by apply (Hmid z).
  - cbn [X.arcsin_bisect].
    destruct (Hmid z lo hi Hgrid Hle) as [Hlo Hhi].
    set (mid := X.Qtrunc ((lo + hi) / 2)) in *.
    destruct (X.Qsin mid ?= c).
    + done.
    + destruct (IH (Qfloor ((lo + hi) / 2 * N18)) mid hi c) as [H1 H2];
        [apply Qtrunc_spec | done |].
      split; [by apply Qle_trans with mid | done].
    + destruct (IH z lo mid c) as [H1 H2]; [done | done |].
      split; [done | by apply Qle_trans with mid].
Qed.

Lemma Qarccos_range (c : Q) : 0 <= X.Qarccos c <= X.PIq.
Proof.
  unfold X.Qarccos. rewrite Qred_correct.
  destruct (arcsin_bisect_range 40 (-1570796326794896500)%Z
              (- (X.PIq / 2)) (X.PIq / 2) c) as [H1 H2].
  - reflexivity.
  - discriminate.
  - set (a := X.arcsin_bisect _ _ _ _) in *.
    assert (X.PIq / 2 == X.PIq * (1 # 2)) as Hh by reflexivity.
    rewrite Hh in *. split; Lqa.lra.
Qed.

(* np.arccos(a) * (180 / np.pi) is NaN or lies in [0, 180] *)
Lemma xnum_degrees_range (a : xnum) :
  let deg := (np_arccos a * (lit 180 / np_pi))%num in
  deg = NaN \/ exists q, deg = Fin q /\ 0 <= q <= 180.
Proof.
  cbn zeta. destruct a as [c| | |]; try (by left).
  cbn [np_arccos lit np_pi mul div xnum_numeric]. unfold X.arccos.
  destruct (Qle_bool (-1) c && Qle_bool c 1); [|by left].
  right.
  change (X.div (X.fin 180) (Fin X.PIq)) with (Fin (Qred (Qred 180 / X.PIq))).
  cbn [X.mul]. unfold X.fin. eexists. split; [reflexivity|].
  rewrite !Qred_correct.
  destruct (Qarccos_range c) as [H0 H1]. set (x := X.Qarccos c) in *.
  assert (180 / X.PIq == 180 * / X.PIq) as Hd by reflexivity.
  assert (0 < / X.PIq) as Hinv by reflexivity.
  assert (X.PIq * / X.PIq == 1) as Hone by reflexivity.
  rewrite Hd. set (k := / X.PIq) in *. set (p := X.PIq) in *.
  split; Lqa.nra.
Qed.

End AngleComputed.

(** C8 (amended).  In exact arithmetic, for a quad with
    top_left.x < top_right.x and top_left.y < bot_left.y both edge vectors
    have a positive norm, cos_alpha is the cosine of the angle between them
    (its product with the two norms is the dot product, and it lies in
    [-1, 1]), and the angle is the arccos of cos_alpha in degrees, in
    [0, 180].  The code does not clamp the quotient before np.arccos: in the
    computation with rounded square roots the angle of any quad is either
    NaN or in [0, 180]. *)
Theorem angle_in_range :
  (forall c : Corners R,
     (x_top_left c < x_top_right c)%R ->
     (y_top_left c < y_bot_left c)%R ->
     let a0 := (x_top_right c - x_top_left c)%R in
     let a1 := (y_top_right c - y_top_left c)%R in
     let b0 := (x_bot_left c - x_top_left c)%R in
     let b1 := (y_bot_left c - y_top_left c)%R in
     (0 < norm a0 a1)%R /\ (0 < norm b0 b1)%R /\
     (cos_alpha (derive c) * (norm a0 a1 * norm b0 b1) = a0 * b0 + a1 * b1)%R /\
     (-1 <= cos_alpha (derive c) <= 1)%R /\
     (0 <= angle (derive c) <= 180)%R /\
     cos (angle (derive c) * (PI / 180)) = cos_alpha (derive c)) /\
  (forall c : Corners xnum,
     angle (derive c) = NaN \/
     exists q, angle (derive c) = Fin q /\ (0 <= q <= 180)%Q).
Proof.
  split.
  - intros c Hx Hy. by apply angle_exact.
  - intros c. cbn [angle derive]. apply xnum_degrees_range.
Qed.

Lemma angle_in_range_witness : (0 <= angle (derive quad_r) <= 180)%R.
Proof.
  destruct angle_in_range as [Hexact _].
  destruct (Hexact quad_r) as (_ & _ & _ & _ & Hrange & _); [simpl; lra.. | done].
Defined.

(** C8 (counterexample).  The quad with top_left (0, 0), top_right (4, 20)
    and bottom_left (2, 10) has top_left.x < top_right.x and
    top_left.y < bot_left.y, but its two edges are collinear: the product of
    the two rounded norms is below the dot product 208, the quotient is
    above 1 (1.0000000000000002 in IEEE doubles) and the angle is NaN. *)
Lemma angle_nan_on_collinear_edges :
  (x_top_left quad_collinear <? x_top_right quad_collinear) = true /\
  (y_top_left quad_collinear <? y_bot_left quad_collinear) = true /\
  finite_corners quad_collinear /\
  (lit 1 <? cos_alpha (derive quad_collinear)) = true /\
  angle (derive quad_collinear) = NaN.
Proof. repeat split; vm_compute; reflexivity. Qed.

(** ** The series smoother *)

Lemma xnum_ltb_Fin (p q : Q) : (Fin p <? Fin q) = true <-> (p < q)%Q.
Proof.
  simpl. unfold X.ltb. rewrite Qlt_alt. destruct (p ?= q)%Q; split; congruence.
Qed.

(* the larger of two numbers is below a bound exactly when both are *)
Lemma xnum_max_below (m item thr : xnum) :
  finite m -> finite item ->
  ((if item >? m then item else m) <? thr) = (m <? thr) && (item <? thr).
Proof.
  destruct m as [p| | |], item as [q| | |]; try done. intros _ _.
  destruct thr as [r| | |]; try (by destruct (Fin q >? Fin p)).
  apply eq_true_iff_eq. rewrite andb_true_iff.
  destruct (Fin q >? Fin p) eqn:E.
  - apply xnum_ltb_Fin in E. rewrite !xnum_ltb_Fin. split; [|tauto].
    intros Hq. split; [|done]. by apply Qlt_trans with q.
  - rewrite !xnum_ltb_Fin. split; [|tauto].
    intros Hp. split; [done|].
    apply Qle_lt_trans with p; [|done]. apply Qnot_lt_le.
    intros Hlt. apply xnum_ltb_Fin in Hlt. congruence.
Qed.

Lemma xnum_deviation_finite (new_series series : list xnum) :
  Forall finite new_series -> Forall finite series ->
  Forall finite (deviation new_series series).
Proof.
  intros Hn. revert series. induction Hn as [|a l Ha Hl IH]; intros series Hs; [constructor|].
  destruct Hs as [|b s Hb Hs]; [constructor|]. simpl. constructor; [|by apply IH].
  by destruct a, b.
Qed.

Lemma xnum_fold_max_below (thr : xnum) (rest : list xnum) : forall v,
  finite v -> Forall finite rest ->
  (fold_left (fun m item => if item >? m then item else m) rest v <? thr)
  = (v <? thr) && forallb (fun d => d <? thr) rest.
Proof.
  induction rest as [|x rest IH]; intros v Hv Hrest; cbn [fold_left forallb].
  { by rewrite andb_true_r. }
  apply Forall_cons in Hrest as [Hx Hrest].
  rewrite IH; [| by destruct (x >? v) | done].
  rewrite xnum_max_below by done. by rewrite andb_assoc.
Qed.

Lemma xnum_py_max_below (thr : xnum) (l : list xnum) :
  l <> [] -> Forall finite l ->
  exists m, py_max l = Ok m /\ (m <? thr) = forallb (fun d => d <? thr) l.
Proof.
  destruct l as [|v rest]; [done|]. intros _ Hl.
  apply Forall_cons in Hl as [Hv Hrest].
  eexists. split; [reflexivity|]. by apply xnum_fold_max_below.
Qed.

Section SmootherFacts.
Variable savgol_filter : list xnum -> Z -> Z -> res (list xnum).
Variable cfg : Config xnum.

Local Abbreviation within_threshold := (within_threshold cfg).
Local Abbreviation filtered := (filtered savgol_filter cfg).
Local Abbreviation well_filtered := (well_filtered savgol_filter cfg).
Local Abbreviation passes := (passes savgol_filter cfg).
Local Abbreviation last_passing := (last_passing savgol_filter cfg).
Local Abbreviation smooth_result := (smooth_result savgol_filter cfg).

Lemma odd_mod2 (w : Z) : (w mod 2 =? 0)%Z = negb (Z.odd w).
Proof. rewrite Zmod_odd. by destruct (Z.odd w). Qed.

Lemma smooth_loop_last (series : list xnum) (windows : list Z) :
  series <> [] -> Forall finite series ->
  (forall w, w ∈ windows -> Z.odd w = true -> well_filtered series w) ->
  forall best,
    smooth_loop savgol_filter cfg series windows best
    = Ok (match last (List.filter (passes series) windows) with
          | Some w => filtered series w
          | None => best
          end).
Proof.
  intros Hne Hfin. induction windows as [|w rest IH]; intros Hsav best; [done|].
  assert (forall w', w' ∈ rest -> Z.odd w' = true -> well_filtered series w') as Hrest
    by (intros w' Hw'; apply Hsav; by right).
  cbn [smooth_loop List.filter]. unfold passes at 1. rewrite odd_mod2.
  destruct (Z.odd w) eqn:Hodd; cbn [negb andb]; [|by apply IH].
  destruct (Hsav w ltac:(left) Hodd) as (new_series & Hrun & Hlen & Hf).
  unfold filtered at 1. rewrite Hrun.
  destruct (xnum_py_max_below (smooth_threshold cfg) (deviation new_series series))
    as (m & -> & Hm).
  { destruct series as [|b s]; [done|]. by destruct new_series. }
  { by apply xnum_deviation_finite. }
  rewrite Hm. fold (within_threshold new_series series).
  rewrite IH by done.
  destruct (within_threshold _ _); [|done].
  rewrite last_cons. destruct (last _); [done|]. unfold filtered. by rewrite Hrun.
Qed.

Lemma smooth_loop_app (series : list xnum) (l1 l2 : list Z) :
  forall best,
    smooth_loop savgol_filter cfg series (l1 ++ l2) best
    = res_bind (smooth_loop savgol_filter cfg series l1 best)
        (fun b => smooth_loop savgol_filter cfg series l2 b).
Proof.
  induction l1 as [|w rest IH]; intros best; [done|].
  cbn [app smooth_loop]. destruct (w mod 2 =? 0)%Z; [apply IH|].
  destruct (savgol_filter series w (poly_degree cfg)) as [new_series|e]; [|done].
  destruct (py_max _) as [m|e]; [apply IH | done].
Qed.

(** C2 (amended).  On a non-empty series of finite numbers:
    when the filter accepts every odd window of the range and returns finite
    series of the input's length, the smoother returns the filtered series
    of the last odd window, in iteration order from min_window up to
    (excluding) max_window, whose deviation from the input is below the
    threshold at every point; a non-empty result has the input's length and
    deviates by less than the threshold at every point; and when no window
    passes the result is the empty list, which is no series of the input's
    length.  When the filter raises on an odd window of the range, having
    accepted the odd windows before it, the smoother raises that
    exception. *)
Theorem smooth_series_last_passing (series : list xnum) :
  series <> [] -> Forall finite series ->
  ((forall w, (min_window cfg <= w < max_window cfg)%Z -> Z.odd w = true ->
      well_filtered series w) ->
   smooth_series savgol_filter cfg series = Ok (smooth_result series) /\
   (smooth_result series <> [] ->
      length (smooth_result series) = length series /\
      Forall (fun d => (d <? smooth_threshold cfg) = true)
             (deviation (smooth_result series) series)) /\
   (last_passing series = None ->
      smooth_result series = [] /\ length (smooth_result series) <> length series)) /\
  (forall w e,
     (min_window cfg <= w < max_window cfg)%Z -> Z.odd w = true ->
     savgol_filter series w (poly_degree cfg) = Raise e ->
     (forall w', (min_window cfg <= w' < w)%Z -> Z.odd w' = true ->
        well_filtered series w') ->
     smooth_series savgol_filter cfg series = Raise e).
Proof.
  intros Hne Hfin. split.
  - intros Hsav.
    assert (forall w, w ∈ py_range (min_window cfg) (max_window cfg) ->
              Z.odd w = true -> well_filtered series w) as Hsav'.
    { intros w Hw. apply Hsav. unfold py_range in Hw. apply elem_of_seqZ in Hw. lia. }
    split; [|split].
    + unfold smooth_series, smooth_result, last_passing.
      by rewrite smooth_loop_last.
    + unfold smooth_result, last_passing.
      destruct (last _) as [w|] eqn:El; [|done]. intros _.
      apply last_Some_elem_of, list_elem_of_In, filter_In in El as [Hw Hp].
      apply list_elem_of_In in Hw.
      apply andb_true_iff in Hp as [Hodd Hp].
      destruct (Hsav' w Hw Hodd) as (new_series & Hrun & Hlen & _).
      unfold filtered in *. rewrite Hrun in *.
      split; [done|].
      unfold within_threshold in Hp.
      rewrite forallb_forall in Hp. apply Forall_forall. intros d Hd.
      apply Hp. by apply list_elem_of_In.
    + intros Hnone. unfold smooth_result. rewrite Hnone. split; [done|].
      destruct series; [done | simpl; lia].
  - intros w e Hw Hodd Hraise Hbefore.
    unfold smooth_series, py_range.
    replace (max_window cfg - min_window cfg)%Z
      with ((w - min_window cfg) + (max_window cfg - w))%Z by lia.
    rewrite seqZ_app by lia.
    replace (min_window cfg + (w - min_window cfg))%Z with w by lia.
    rewrite (seqZ_cons w) by lia.
    rewrite smooth_loop_app, smooth_loop_last; try done.
    + cbn [res_bind smooth_loop]. rewrite odd_mod2, Hodd. cbn [negb].
      by rewrite Hraise.
    + intros w' Hw'. apply Hbefore. apply elem_of_seqZ in Hw'. lia.
Qed.

End SmootherFacts.

Lemma window_mean_length {num : Type} `{Numeric num} (x : list num) (w : Z) :
  length (window_mean x w) = length x.
Proof. unfold window_mean. by rewrite length_imap. Qed.

(* On [series5] the windows 1 and 3 pass, window 5 does not: the result is
   the moving average of window 3. *)
Lemma smooth_series_last_passing_witness :
  smooth_series moving_average cfg_windows series5
  = Ok [qz 51; qz 51; qz 52; qz 52; qz 52].
Proof.
  destruct (smooth_series_last_passing moving_average cfg_windows series5)
    as [Hcompletes _].
  - discriminate.
  - repeat constructor.
  - destruct Hcompletes as [Hrun _].
    + intros w Hw _. exists (window_mean series5 w).
      split; [|split; [apply window_mean_length|]].
      * simpl in Hw.
        assert (w = 1 \/ w = 2 \/ w = 3 \/ w = 4 \/ w = 5)%Z
          as [->|[->|[->|[->| ->]]]] by lia; vm_compute; reflexivity.
      * simpl in Hw.
        assert (w = 1 \/ w = 2 \/ w = 3 \/ w = 4 \/ w = 5)%Z
          as [->|[->|[->|[->| ->]]]] by lia; vm_compute; repeat constructor.
    + rewrite Hrun. vm_compute. reflexivity.
Defined.

(** C2 (counterexample).  The series [50; NaN; 52] under window 1, where the
    filter returns the series itself: the deviation at point 1 is NaN, which
    is not below the threshold, but the builtin max skips it, the window is
    accepted and the series is returned as a success result. *)
Lemma smooth_series_accepts_nan_deviation :
  smooth_series moving_average cfg_sample [qz 50; NaN; qz 52]
  = Ok [qz 50; NaN; qz 52] /\
  deviation [qz 50; NaN; qz 52] [qz 50; NaN; qz 52] = [Fin 0; NaN; Fin 0] /\
  py_max [Fin 0; NaN; Fin 0] = Ok (Fin 0) /\
  (NaN <? smooth_threshold cfg_sample) = false.
Proof. repeat split; vm_compute; reflexivity. Qed.

(** ** The frame detector *)

Section DetectorFacts.
Context {num : Type} `{Numeric num}.
Variable cfg : Config num.
Variable contour : Type.
Variable findContours : Mask -> list contour.
Variable contourArea : contour -> num.
Variable minAreaRect_center : contour -> Point num.
Variable boxPoints : contour -> list (Point num).
Variable drawContours : Mask -> contour -> Mask.

Local Abbreviation scan_contour' :=
  (scan_contour cfg contour contourArea minAreaRect_center boxPoints drawContours).
Local Abbreviation scan_contours' :=
  (scan_contours cfg contour contourArea minAreaRect_center boxPoints drawContours).
Local Abbreviation Scan' := (Scan (num := num) contour).
Local Abbreviation above_filter := (above_filter cfg contour contourArea).
Local Abbreviation centers_set := (centers_set contour).

Lemma fold_assign_all_scan xm ym (box : list (Point num)) : forall (s : Scan'),
  let s' := fold_left (assign_all contour xm ym) box s in
  fsz_mask contour s' = fsz_mask contour s /\ drawn contour s' = drawn contour s.
Proof.
  induction box as [|p box IH]; intros s; simpl; [done|].
  destruct (IH (assign_all contour xm ym s p)) as [-> ->].
  unfold assign_all. by repeat destruct (_ <? _).
Qed.

Lemma fold_assign_left_scan xm ym (box : list (Point num)) : forall (s : Scan'),
  let s' := fold_left (assign_left contour xm ym) box s in
  fsz_mask contour s' = fsz_mask contour s /\ drawn contour s' = drawn contour s.
Proof.
  induction box as [|p box IH]; intros s; simpl; [done|].
  destruct (IH (assign_left contour xm ym s p)) as [-> ->].
  unfold assign_left. by repeat destruct (_ <? _).
Qed.

Lemma fold_assign_right_scan xm ym (box : list (Point num)) : forall (s : Scan'),
  let s' := fold_left (assign_right contour xm ym) box s in
  fsz_mask contour s' = fsz_mask contour s /\ drawn contour s' = drawn contour s.
Proof.
  induction box as [|p box IH]; intros s; simpl; [done|].
  destruct (IH (assign_right contour xm ym s p)) as [-> ->].
  unfold assign_right. by repeat destruct (_ <? _).
Qed.

(* one contour: skipped when its area is not above the filter, otherwise
   filled into the mask *)
Lemma scan_contour_spec (s : Scan') (cnt : contour) :
  centers_set s ->
  if above_filter cnt then
    exists s', scan_contour' s cnt = Ok s' /\
      first_cnt contour s' = false /\ centers_set s' /\
      fsz_mask contour s' = drawContours (fsz_mask contour s) cnt /\
      drawn contour s' = drawn contour s ++ [cnt]
  else scan_contour' s cnt = Ok s.
Proof.
  intros Hc. unfold scan_contour, above_filter.
  destruct (contourArea cnt >? filter_area_size cfg); [|done].
  destruct (minAreaRect_center cnt) as [xm ym].
  destruct (first_cnt contour s) eqn:Ef.
  - eexists. split; [reflexivity|]. simpl.
    destruct (fold_assign_all_scan xm ym (boxPoints cnt) s) as [-> ->].
    repeat split; simpl; try done; try (intros _; simpl; eauto).
  - destruct (Hc Ef) as [[cl Hcl] [cr Hcr]]. rewrite Hcl, Hcr.
    destruct (xm <? cl); [|destruct (xm >? cr)].
    + eexists. split; [reflexivity|]. simpl.
      destruct (fold_assign_left_scan xm ym (boxPoints cnt) s) as [-> ->].
      repeat split; simpl; try done; try (intros _; simpl; eauto).
    + eexists. split; [reflexivity|]. simpl.
      destruct (fold_assign_right_scan xm ym (boxPoints cnt) s) as [-> ->].
      repeat split; simpl; try done; try (intros _; simpl; eauto).
    + eexists. split; [reflexivity|]. simpl.
      repeat split; simpl; try done; intros _; simpl; rewrite ?Hcl, ?Hcr; eauto.
Qed.

Lemma scan_contours_spec (contours : list contour) : forall (s : Scan'),
  centers_set s ->
  exists s',
    scan_contours' s contours = Ok s' /\
    drawn contour s' = drawn contour s ++ List.filter above_filter contours /\
    fsz_mask contour s'
    = fold_left drawContours (List.filter above_filter contours) (fsz_mask contour s) /\
    first_cnt contour s'
    = match List.filter above_filter contours with
      | [] => first_cnt contour s
      | _ :: _ => false
      end /\
    (List.filter above_filter contours = [] -> s' = s).
Proof.
  induction contours as [|cnt rest IH]; intros s Hc.
  { exists s. simpl. by rewrite app_nil_r. }
  pose proof (scan_contour_spec s cnt Hc) as Hstep.
  cbn [scan_contours List.filter].
  destruct (above_filter cnt).
  - destruct Hstep as (s1 & -> & Hf1 & Hc1 & Hm1 & Hd1).
    destruct (IH s1 Hc1) as (s' & Hrun & Hd & Hm & Hf & _).
    exists s'. simpl. split; [done|]. split; [|split; [|split]].
    + by rewrite Hd, Hd1, <- app_assoc.
    + by rewrite Hm, Hm1.
    + rewrite Hf, Hf1. by destruct (List.filter _ _).
    + done.
  - rewrite Hstep. simpl. apply IH. done.
Qed.

Lemma centers_set_start (self : Replacer num) (mask : Mask) :
  centers_set (scan_start contour self mask).
Proof. intros Hf. done. Qed.

End DetectorFacts.

Lemma filter_all_false {A} (f : A -> bool) (l : list A) :
  (forall x, x ∈ l -> f x = false) -> List.filter f l = [].
Proof.
  induction l as [|x l IH]; intros Hall; [done|].
  cbn [List.filter]. rewrite Hall by left. apply IH. intros y Hy. apply Hall. by right.
Qed.

(** C4.  When no contour of the thresholded mask has an area above the
    filter threshold, the detection pass saves the empty marker (a
    one-element array) for the frame, writes no row into the track store and
    moves on to the next frame; and when the replay pass reaches a frame
    whose saved file is the marker, detection_successful becomes false and
    insert_logo returns with the object, and so every pixel of the frame,
    unchanged, as it does whenever detection_successful is false. *)
Theorem no_detection_leaves_frame {num : Type} `{Numeric num}
    (cfg : Config num) (savgol_filter : list num -> Z -> Z -> res (list num))
    (contour : Type) (findContours : Mask -> list contour)
    (contourArea : contour -> num) (minAreaRect_center : contour -> Point num)
    (boxPoints : contour -> list (Point num))
    (drawContours : Mask -> contour -> Mask)
    (predict_full_size : Image -> list (list num))
    (logo_file : Image) (crop : Image -> Z -> Z -> Z -> Z -> Image)
    (saturation : Image -> list Z) (scale_saturation : Image -> num -> Image)
    (warpPerspective :
       Image -> list (Point num) -> list (Point num) -> nat -> nat -> Image)
    (self : Replacer num) (image : Image) :
  let detect :=
    detect_banner cfg savgol_filter contour findContours contourArea
      minAreaRect_center boxPoints drawContours predict_full_size in
  let insert :=
    insert_logo logo_file crop saturation scale_saturation warpPerspective in
  before_smoothing self = true ->
  (forall cnt, cnt ∈ findContours (threshold_mask cfg (predict_full_size image)) ->
     (contourArea cnt >? filter_area_size cfg) = false) ->
  (exists self1,
     detect image self = (self1, Ok tt) /\
     loc (saved_frame_mask self1) (frame_num self) = Some empty_marker /\
     np_len empty_marker = 1%nat /\
     saved_points self1 = saved_points self /\
     frame_num self1 = (frame_num self + 1)%Z) /\
  (forall replay image',
     before_smoothing replay = false ->
     loc (saved_frame_mask replay) (frame_num replay) = Some empty_marker ->
     exists replay1,
       detect image' replay = (replay1, Ok tt) /\
       detection_successful replay1 = false /\
       frame replay1 = image' /\
       insert replay1 = (replay1, Ok tt)) /\
  (forall other, detection_successful other = false -> insert other = (other, Ok tt)).
Proof.
  intros detect insert Hbefore Hsmall. split; [|split].
  - unfold detect, detect_banner. simpl. rewrite Hbefore.
    set (mask := threshold_mask cfg (predict_full_size image)) in *.
    set (self0 := set_frame self image).
    destruct (scan_contours_spec cfg contour contourArea minAreaRect_center
                boxPoints drawContours (findContours mask)
                (scan_start contour self0 mask)
                (centers_set_start contour self0 mask))
      as (s & Hrun & _ & _ & _ & Hsame).
    assert (List.filter (above_filter cfg contour contourArea) (findContours mask) = [])
      as Hnone.
    { apply filter_all_false. intros cnt Hcnt. by apply Hsmall. }
    specialize (Hsame Hnone). subst s.
    unfold check_contours. rewrite Hrun. simpl.
    eexists. split; [reflexivity|]. simpl.
    split; [apply loc_loc_assign|]. done.
  - intros replay image' Hreplay Hfile.
    unfold detect, detect_banner. simpl. rewrite Hreplay, Hfile. simpl.
    eexists. split; [reflexivity|]. simpl. split; [done|]. split; [done|].
    unfold insert, insert_logo. simpl. done.
  - intros other Hother. unfold insert, insert_logo. by rewrite Hother.
Qed.

Lemma no_detection_leaves_frame_witness :
  exists replay1,
    detect_banner cfg_area moving_average SampleContour (fun _ => [contour_50])
      s_area s_center s_box sample_draw (fun _ => []) frame23 replay_at_marker
    = (replay1, Ok tt) /\
    detection_successful replay1 = false /\
    frame replay1 = frame23 /\
    insert_logo [] (fun _ _ _ _ _ => []) (fun _ => []) (fun img _ => img)
      (fun _ _ _ _ _ => []) replay1 = (replay1, Ok tt).
Proof.
  destruct (no_detection_leaves_frame cfg_area moving_average SampleContour
              (fun _ => [contour_50]) s_area s_center s_box sample_draw
              (fun _ => []) [] (fun _ _ _ _ _ => []) (fun _ => [])
              (fun img _ => img) (fun _ _ _ _ _ => []) init frame23)
    as (_ & Hreplay & _).
  - reflexivity.
  - intros cnt Hcnt. apply list_elem_of_singleton in Hcnt as ->. reflexivity.
  - apply (Hreplay replay_at_marker frame23); reflexivity.
Defined.

(** ** The compositor: the sticky width *)

Lemma round_half_even_Z (q : Q) (z : Z) :
  (q == inject_Z z)%Q -> X.round_half_even q = z.
Proof.
  intros Hq. unfold X.round_half_even.
  assert (Qfloor q = z) as -> by (rewrite (Qfloor_comp _ _ Hq); apply Qfloor_Z).
  assert (q - inject_Z z == 0)%Q as Hz by (setoid_rewrite Hq; ring).
  by rewrite Hz.
Qed.

Lemma xnum_round_of_Z (z : Z) : py_round (of_Z z : xnum) = of_Z z.
Proof.
  unfold of_Z. simpl. unfold X.round, X.fin. do 3 f_equal.
  apply round_half_even_Z, Qred_correct.
Qed.

Lemma xnum_leb_refl_Fin (q : Q) : (Fin q <=? Fin q) = true.
Proof.
  simpl. unfold X.leb.
  assert ((q ?= q)%Q = Eq) as -> by (apply Qeq_alt; reflexivity). done.
Qed.

Lemma xnum_leb_refl_of_Z (z : Z) : ((of_Z z : xnum) <=? of_Z z) = true.
Proof. unfold of_Z. simpl. apply xnum_leb_refl_Fin. Qed.

(** C3 (amended).  With corners = [top_left, bot_right, top_right, bot_left]:
    in the fully-in-frame branch old_width becomes
    |bot_right.x - top_left.x|; in the two truncation branches old_width is
    left as it was, whether the call returns or raises; and a quad with
    top_right.x == frame_width - 1 is in the right-truncation branch. *)
Theorem old_width_sticky
    (warpPerspective :
       Image -> list (Point xnum) -> list (Point xnum) -> nat -> nat -> Image)
    (logo : Image) (self : Replacer xnum)
    (top_left bot_right top_right bot_left : Point xnum) :
  let c := {| corner0 := top_left; corner1 := bot_right;
              corner2 := top_right; corner3 := bot_left |} in
  let width := shape1 (frame self) in
  let self' := fst (adjust_logo_shape warpPerspective logo self) in
  corners self = Some c ->
  (regime c width = in_frame ->
     old_width self' = Some (nabs (fst bot_right - fst top_left))) /\
  (regime c width <> in_frame -> old_width self' = old_width self) /\
  (fst top_right = of_Z (Z.of_nat width - 1) ->
     regime c width = right_cut /\ old_width self' = old_width self).
Proof.
  intros c width self' Hc.
  assert (regime c width <> in_frame -> old_width self' = old_width self) as Hcut.
  { intros Hr. unfold self', adjust_logo_shape, target_points. rewrite Hc.
    fold width. destruct (regime c width); [| |done];
      by destruct (old_width self) eqn:E; simpl; rewrite ?E. }
  split; [|split; [done|]].
  - intros Hr. unfold self', adjust_logo_shape, target_points. rewrite Hc.
    fold width. by rewrite Hr.
  - intros Hx.
    assert (regime c width = right_cut) as Hr.
    { unfold regime. subst c. cbn [corner1 corner2].
      by rewrite Hx, xnum_round_of_Z, xnum_leb_refl_of_Z, orb_true_r. }
    split; [done|]. apply Hcut. by rewrite Hr.
Qed.

Lemma old_width_sticky_witness :
  old_width (fst (adjust_logo_shape sample_warp [] at_right_edge)) = Some (qz 5).
Proof.
  destruct (old_width_sticky sample_warp [] at_right_edge
              (qz 1, qz 0) (qz 2, qz 1) (qz 2, qz 0) (qz 1, qz 1))
    as (_ & _ & Hedge); [reflexivity|].
  destruct Hedge as [_ ->]; reflexivity.
Defined.

(** C3 (counterexample).  For a quad fully in frame with top_left.x = 10,
    top_right.x = 50 and bot_right.x = 52, old_width becomes 42, which is
    bot_right.x - top_left.x, and not |top_right.x - top_left.x| = 40. *)
Lemma old_width_not_top_width :
  regime corners_in_frame 100 = in_frame /\
  target_points corners_in_frame 100 None
  = Ok ([(qz 10, qz 10); (qz 12, qz 40); (qz 52, qz 42); (qz 50, qz 12)],
        Some (Fin 42)) /\
  nabs (fst (corner2 corners_in_frame) - fst (corner0 corners_in_frame)) = Fin 40 /\
  Some (Fin 42)
  <> Some (nabs (fst (corner2 corners_in_frame) - fst (corner0 corners_in_frame))).
Proof.
  repeat split; try (vm_compute; reflexivity). vm_compute. discriminate.
Qed.

(** ** The compositor: pixel replacement *)

Section PixelReplacement.
Variable mask : npy.
Variable logo : Image.

Local Abbreviation blend := (blend mask logo).
Local Abbreviation readable := (readable mask logo).

Lemma replace_row_spec (k : nat) (columns : list nat) :
  NoDup columns ->
  forall row,
    (forall j, j ∈ columns -> readable k j) ->
    exists row',
      replace_row mask logo k columns row = (row', Ok tt) /\
      length row' = length row /\
      forall j, row' !! j
                = if decide (j ∈ columns) then blend k j <$> row !! j else row !! j.
Proof.
  induction 1 as [|j0 rest Hnin Hnd IH]; intros row Hread.
  { exists row. split; [done|]. split; [done|]. intros j.
    by rewrite decide_False by apply not_elem_of_nil. }
  destruct (Hread j0 ltac:(left)) as [[v Hv] [q Hq]].
  assert (forall j, j ∈ rest -> readable k j) as Hrest
    by (intros j Hj; apply Hread; by right).
  assert (blend k j0 = fun p => if (v =? 1)%Z then q else p) as Hblend
    by (unfold blend; by rewrite Hv, Hq).
  unfold pixel_at in Hq. destruct (logo !! k) as [logo_row|] eqn:Hlk; [|done].
  cbn [replace_row]. rewrite Hv, Hlk, Hq.
  destruct (v =? 1)%Z.
  - destruct (IH (<[j0 := q]> row) Hrest) as (row' & Hrun & Hlen & Hspec).
    exists row'. split; [done|]. split; [by rewrite Hlen, length_insert|].
    intros j. rewrite Hspec.
    destruct (decide (j = j0)) as [->|Hne].
    + rewrite decide_False by done. rewrite decide_True by left. rewrite Hblend.
      destruct (row !! j0) eqn:E.
      * rewrite list_lookup_insert_eq; [done | by eapply lookup_lt_Some].
      * rewrite lookup_ge_None_2; [done|].
        rewrite length_insert. by apply lookup_ge_None.
    + rewrite list_lookup_insert_ne by done.
      destruct (decide (j ∈ rest)) as [Hin|Hn].
      * by rewrite decide_True by (by right).
      * rewrite decide_False; [done|]. rewrite elem_of_cons. intros [?|?]; done.
  - destruct (IH row Hrest) as (row' & Hrun & Hlen & Hspec).
    exists row'. split; [done|]. split; [done|].
    intros j. rewrite Hspec.
    destruct (decide (j = j0)) as [->|Hne].
    + rewrite decide_False by done. rewrite decide_True by left. rewrite Hblend.
      by destruct (row !! j0).
    + destruct (decide (j ∈ rest)) as [Hin|Hn].
      * by rewrite decide_True by (by right).
      * rewrite decide_False; [done|]. rewrite elem_of_cons. intros [?|?]; done.
Qed.

Lemma replace_pixels_spec (width : nat) (rows : list nat) :
  NoDup rows ->
  forall frame,
    (forall k, k ∈ rows ->
       (k < length frame)%nat /\ forall j, (j < width)%nat -> readable k j) ->
    exists frame',
      replace_pixels mask logo width rows frame = (frame', Ok tt) /\
      length frame' = length frame /\
      forall k j,
        pixel_at frame' k j
        = if decide (k ∈ rows /\ (j < width)%nat)
          then blend k j <$> pixel_at frame k j
          else pixel_at frame k j.
Proof.
  induction 1 as [|k0 rest Hnin Hnd IH]; intros frame Hread.
  { exists frame. split; [done|]. split; [done|]. intros k j.
    rewrite decide_False; [done|]. intros [Hk _]. by apply not_elem_of_nil in Hk. }
  destruct (Hread k0 ltac:(left)) as [Hk0 Hcols].
  destruct (lookup_lt_is_Some_2 frame k0 Hk0) as [row Hrow].
  destruct (replace_row_spec k0 (seq 0 width) (NoDup_seq 0 width) row)
    as (row' & Hrun & Hlen & Hspec).
  { intros j Hj. apply Hcols. apply elem_of_seq in Hj. lia. }
  destruct (IH (<[k0 := row']> frame)) as (frame' & Hrun' & Hlen' & Hspec').
  { intros k Hk. rewrite length_insert. apply Hread. by right. }
  exists frame'. split; [|split].
  - cbn [replace_pixels]. by rewrite Hrow, Hrun.
  - by rewrite Hlen', length_insert.
  - intros k j. rewrite Hspec'. unfold pixel_at.
    destruct (decide (k = k0)) as [->|Hne].
    + rewrite list_lookup_insert_eq by done. rewrite Hrow, Hspec.
      rewrite (decide_False (P := k0 ∈ rest /\ _)) by (by intros [? _]).
      destruct (decide (j < width)%nat) as [Hj|Hj].
      * rewrite decide_True by (apply elem_of_seq; lia).
        rewrite decide_True; [done|]. split; [left | done].
      * rewrite decide_False by (rewrite elem_of_seq; lia).
        rewrite decide_False; [done|]. by intros [_ ?].
    + rewrite list_lookup_insert_ne by done.
      destruct (decide (k ∈ rest /\ (j < width)%nat)) as [[Hin Hj]|Hn].
      * rewrite decide_True; [done|]. split; [by right | done].
      * rewrite decide_False; [done|]. intros [Hin Hj]. apply Hn. split; [|done].
        apply elem_of_cons in Hin as [?|?]; done.
Qed.

End PixelReplacement.

Lemma pixel_at_in_frame {A} (img : list (list A)) (k j : nat) (p : A) :
  rectangular img -> pixel_at img k j = Some p ->
  (k < shape0 img)%nat /\ (j < shape1 img)%nat.
Proof.
  intros Hrect. unfold pixel_at.
  destruct (img !! k) as [row|] eqn:Hk; [|done]. intros Hj.
  split; [by eapply lookup_lt_Some|].
  rewrite <- (Forall_lookup_1 _ _ _ _ Hrect Hk). by eapply lookup_lt_Some.
Qed.

(* insert_logo stops before the first pixel is written when an int() of the
   colour adjustment raises, and when a truncated quad meets old_width = None *)
Lemma insert_logo_raises_early {num : Type} `{Numeric num}
    (logo_file : Image) (crop : Image -> Z -> Z -> Z -> Z -> Image)
    (saturation : Image -> list Z) (scale_saturation : Image -> num -> Image)
    (warpPerspective :
       Image -> list (Point num) -> list (Point num) -> nat -> nat -> Image)
    (self : Replacer num) (c : CornerList num) :
  detection_successful self = true ->
  corners self = Some c ->
  let out :=
    insert_logo logo_file crop saturation scale_saturation warpPerspective self in
  (forall e, crop_bounds c = Raise e -> out = (self, Raise e)) /\
  (forall b, crop_bounds c = Ok b ->
     regime c (shape1 (frame self)) <> in_frame -> old_width self = None ->
     out = (self, Raise TypeError)).
Proof.
  intros Hok Hc. cbn zeta. unfold insert_logo, logo_color_adj.
  rewrite Hok, Hc. cbn [negb]. split.
  - intros e ->. done.
  - intros [[[y0 y1] x0] x1] -> Hregime Hw. cbn [res_bind].
    unfold adjust_logo_shape, target_points. rewrite Hc, Hw.
    by destruct (regime c (shape1 (frame self))).
Qed.




(** ** Divisions by zero *)

Lemma xnum_sub_diag (a : xnum) : finite a -> (a - a) = Fin 0.
Proof.
  destruct a as [q| | |]; try done. intros _.
  simpl. unfold X.sub, X.neg, X.add, X.fin. f_equal.
  change 0%Q with (Qred 0). apply Qred_complete.
  rewrite Qred_correct. apply Qplus_opp_r.
Qed.

Lemma xnum_sub_finite (a b : xnum) : finite a -> finite b -> finite (a - b).
Proof. by destruct a, b. Qed.

Lemma xnum_mul_zero_l (a : xnum) : finite a -> (Fin 0 * a) = Fin 0.
Proof.
  by destruct a.
Qed.

Lemma xnum_zero_div_zero : (Fin 0 / Fin 0 : xnum) = NaN.
Proof. reflexivity. Qed.

Lemma xnum_div_zero_not_finite (a : xnum) : ~ finite (a / Fin 0).
Proof.
  destruct a as [q| | |]; simpl; try tauto.
  unfold X.div. change (X.sgn 0) with Eq. cbv iota.
  unfold X.inf_of. destruct (X.sgn q); simpl; tauto.
Qed.

Lemma xnum_round2_not_finite (a : xnum) : ~ finite a -> ~ finite (round2 a).
Proof. destruct a; simpl; tauto. Qed.

Lemma xnum_sq_sum_sqrt_finite (a b : xnum) :
  finite a -> finite b -> finite (np_sqrt (sq a + sq b)).
Proof.
  destruct a as [p| | |], b as [q| | |]; try done. intros _ _.
  unfold sq. simpl. unfold X.mul, X.add, X.fin, X.sqrt.
  destruct (X.sgn _) eqn:E; try done.
  unfold X.sgn in E. apply Qlt_alt in E.
  rewrite !Qred_correct in E.
  unfold Qlt, Qplus, Qmult in E. simpl in E. nia.
Qed.

Lemma xnum_norm_zero : norm (Fin 0) (Fin 0) = Fin 0.
Proof. reflexivity. Qed.

(** C6 (amended).  No division is guarded.  With finite corner coordinates:
    a zero mean logo saturation makes the saturation coefficient non-finite;
    a quad of zero width (x_top_right == x_top_left) gets NaN as its
    rectified y_top_right; a zero left height makes the ratio non-finite;
    and a zero-length top edge makes cos_alpha and the angle NaN. *)
Theorem divisions_unguarded (c : Corners xnum) :
  finite_corners c ->
  (forall mean_banner_s, ~ finite (trans_coef mean_banner_s 0 : xnum)) /\
  (x_top_right c = x_top_left c ->
     y_top_right (pts (rectify_row {| pts := c; der := derive c |})) = NaN) /\
  (x_bot_left c = x_top_left c -> y_bot_left c = y_top_left c ->
     left_height (derive c) = Fin 0 /\ ~ finite (ratio (derive c))) /\
  (x_top_right c = x_top_left c -> y_top_right c = y_top_left c ->
     cos_alpha (derive c) = NaN /\ angle (derive c) = NaN).
Proof.
  intros (Hxtl & Hytl & Hxtr & Hytr & Hxbl & Hybl & Hxbr & Hybr).
  split; [|split; [|split]].
  - intros mb. unfold trans_coef. apply xnum_round2_not_finite.
    change (of_Z 0 : xnum) with (Fin 0). apply xnum_div_zero_not_finite.
  - intros Hw. unfold rectify_row, with_pts, set_y_bot_right, set_y_top_right.
    cbn [pts y_top_right]. unfold y_line. rewrite Hw, xnum_sub_diag by done.
    rewrite xnum_mul_zero_l by (by apply xnum_sub_finite).
    rewrite xnum_zero_div_zero. reflexivity.
  - intros Hx Hy.
    assert (left_height (derive c) = Fin 0) as Hlh.
    { cbn [derive left_height]. rewrite Hx, Hy, !xnum_sub_diag by done. reflexivity. }
    split; [done|].
    cbn [derive ratio]. cbn [derive left_height] in Hlh. rewrite Hlh.
    apply xnum_div_zero_not_finite.
  - intros Hx Hy.
    assert (cos_alpha (derive c) = NaN) as Hcos.
    { cbn [derive cos_alpha]. rewrite Hx, Hy, !xnum_sub_diag by done.
      rewrite !xnum_mul_zero_l by (by apply xnum_sub_finite).
      rewrite xnum_norm_zero.
      pose proof (xnum_sq_sum_sqrt_finite (x_bot_left c - x_top_left c)
                    (y_bot_left c - y_top_left c)) as Hn.
      rewrite xnum_mul_zero_l
        by (apply Hn; by apply xnum_sub_finite).
      reflexivity. }
    split; [done|].
    cbn [derive angle]. cbn [derive cos_alpha] in Hcos. rewrite Hcos. reflexivity.
Qed.

Lemma divisions_unguarded_witness :
  y_top_right (pts (rectify_row {| pts := quad_zero_width;
                                   der := derive quad_zero_width |})) = NaN /\
  ~ finite (ratio (derive quad_zero_height)).
Proof.
  split.
  - destruct (divisions_unguarded quad_zero_width) as (_ & Hy & _);
      [repeat split | by apply Hy].
  - destruct (divisions_unguarded quad_zero_height) as (_ & _ & Hr & _);
      [repeat split | by apply Hr].
Defined.

(** C6 (counterexample).  A logo of zero mean saturation under a banner of
    mean saturation 120 gives the coefficient +inf, and the zero-width quad
    goes through the stabilisation pass with NaN as its y_top_right: the
    undefined values are produced and stored, no guarded branch is taken. *)
Lemma division_by_zero_propagates :
  (trans_coef 120 0 : xnum) = PInf /\
  y_top_right <$> loc (fst (smooth_points moving_average cfg_sample store_zero_width)) 0
  = Some NaN /\
  ratio (derive quad_zero_height) = PInf /\
  angle (derive quad_zero_width) = NaN.
Proof. repeat split; vm_compute; reflexivity. Qed.

(** ** The full-size prediction sweep *)

Lemma pixel_at_set_pixel_ne {A} (m : list (list A)) (r c y x : nat) (v : A) :
  (y <> r \/ x <> c) -> pixel_at (set_pixel m r c v) y x = pixel_at m y x.
Proof.
  intros Hne. unfold set_pixel, pixel_at.
  destruct (m !! r) as [row|] eqn:Hr; [|done].
  destruct (decide (y = r)) as [->|Hy].
  - rewrite list_lookup_insert_eq by (by eapply lookup_lt_Some). rewrite Hr.
    apply list_lookup_insert_ne. destruct Hne; congruence.
  - by rewrite list_lookup_insert_ne.
Qed.

Section SweepFacts.
Context {num : Type} `{Numeric num}.
Variable model_predict : Image -> res (list (list num)).
Variable img_height img_width step : Z.

Local Abbreviation merge_tile' := (merge_tile img_width).
Local Abbreviation predict_tile' := (predict_tile model_predict img_height img_width).
Local Abbreviation sweep_row' := (sweep_row model_predict img_height img_width).
Local Abbreviation sweep' := (sweep model_predict img_height img_width).

(* one line of a tile writes only into row r0 + y, at the columns c0 + x *)
Lemma merge_line_outside cr r0 c0 rows cols y (xs : list nat) (y' x' : nat) :
  (y' <> r0 + y \/ forall x, x ∈ xs -> x' <> c0 + x)%nat ->
  forall m, pixel_at (fst (merge_line cr r0 c0 rows cols y xs m)) y' x' = pixel_at m y' x'.
Proof.
  intros Hout. induction xs as [|x rest IH]; intros m; [done|].
  simpl. destruct (pixel_at cr y x); [|done].
  destruct (Nat.ltb y rows && Nat.ltb x cols); [|done].
  destruct (pixel_at m (r0 + y) (c0 + x)); [|done].
  rewrite IH.
  - destruct (_ <? _); [|done]. apply pixel_at_set_pixel_ne.
    destruct Hout as [Hy|Hx]; [by left | right; apply Hx; left].
  - destruct Hout as [Hy|Hx]; [by left | right; intros x0 Hx0; apply Hx; by right].
Qed.

(* a tile writes only into the rows r0 + y, y in ys, and only into the
   columns c0 + x, x < img_width *)
Lemma merge_tile_outside cr r0 c0 rows cols (ys : list nat) (y' x' : nat) :
  ((forall y, y ∈ ys -> y' <> r0 + y)
   \/ forall x, x ∈ seq 0 (Z.to_nat img_width) -> x' <> c0 + x)%nat ->
  forall m, pixel_at (fst (merge_tile' cr r0 c0 rows cols ys m)) y' x' = pixel_at m y' x'.
Proof.
  intros Hout. induction ys as [|y rest IH]; intros m; [done|].
  cbn [merge_tile]. unfold bind.
  destruct (merge_line _ _ _ _ _ _ _ m) as [m1 [[]|e]] eqn:E; simpl.
  - rewrite IH.
    + change m1 with (fst (m1, @Ok unit tt)). rewrite <- E.
      apply merge_line_outside.
      destruct Hout as [Hy|Hx]; [left; apply Hy; left | by right].
    + destruct Hout as [Hy|Hx]; [left; intros y0 Hy0; apply Hy; by right | by right].
  - change m1 with (fst (m1, @Raise unit e)). rewrite <- E.
    apply merge_line_outside.
    destruct Hout as [Hy|Hx]; [left; apply Hy; left | by right].
Qed.

Lemma slice_index_0 (len : nat) : slice_index 0 len = 0%nat.
Proof. unfold slice_index. simpl. lia. Qed.

(* the tile with slice start k = 0 writes into no row from img_height on *)
Lemma predict_tile_top frame (j : Z) (y' x' : nat) :
  (img_height <= Z.of_nat y')%Z ->
  forall m, pixel_at (fst (predict_tile' frame 0 j m)) y' x' = pixel_at m y' x'.
Proof.
  intros Hy m. unfold predict_tile.
  destruct (model_predict _); [|done].
  apply merge_tile_outside. left. intros y Hin.
  apply elem_of_seq in Hin. rewrite slice_index_0. lia.
Qed.

(* the tile with slice start j = 0 writes into no column from img_width on *)
Lemma predict_tile_left frame (k : Z) (y' x' : nat) :
  (img_width <= Z.of_nat x')%Z ->
  forall m, pixel_at (fst (predict_tile' frame k 0 m)) y' x' = pixel_at m y' x'.
Proof.
  intros Hx m. unfold predict_tile.
  destruct (model_predict _); [|done].
  apply merge_tile_outside. right. intros x Hin.
  apply elem_of_seq in Hin. rewrite slice_index_0. lia.
Qed.

(* the row of tiles with k = 0 *)
Lemma sweep_row_top frame frame_width (js : list Z) (y' x' : nat) :
  (img_height <= Z.of_nat y')%Z ->
  forall flag_j m,
    pixel_at (fst (sweep_row' frame frame_width 0 js flag_j m)) y' x' = pixel_at m y' x'.
Proof.
  intros Hy. induction js as [|j rest IH]; intros flag_j m; [done|].
  cbn [sweep_row]. unfold bind.
  destruct (predict_tile' frame 0 _ m) as [m1 [[]|e]] eqn:E; simpl.
  - assert (pixel_at m1 y' x' = pixel_at m y' x') as Hm1.
    { change m1 with (fst (m1, @Ok unit tt)). rewrite <- E. by apply predict_tile_top. }
    destruct (if (frame_width - 1 <=? j + img_width)%Z then true else flag_j);
      [done | by rewrite IH].
  - change m1 with (fst (m1, @Raise unit e)). rewrite <- E. by apply predict_tile_top.
Qed.

(* a row of tiles returns flag_j set when it was set before or when one of
   its tiles reaches the right edge *)
Lemma sweep_row_sets_flag frame frame_width k (js : list Z) :
  forall flag_j m m' f,
    sweep_row' frame frame_width k js flag_j m = (m', Ok f) ->
    flag_j = true \/ (exists j, j ∈ js /\ (frame_width - 1 <= j + img_width)%Z) ->
    f = true.
Proof.
  induction js as [|j rest IH]; intros flag_j m m' f Hrun Hset.
  { injection Hrun as _ <-. destruct Hset as [|(j & Hj & _)]; [done|].
    by apply not_elem_of_nil in Hj. }
  cbn [sweep_row] in Hrun. unfold bind in Hrun.
  destruct (predict_tile' frame k _ m) as [m1 [[]|e]]; [|done].
  destruct (Z.leb_spec (frame_width - 1) (j + img_width)) as [Hc|Hc].
  - by injection Hrun as _ <-.
  - destruct flag_j; [by injection Hrun as _ <-|].
    eapply IH; [exact Hrun|]. right.
    destruct Hset as [|(j0 & Hj0 & Hc0)]; [done|].
    apply elem_of_cons in Hj0 as [->|Hj0]; [lia | eauto].
Qed.

(* once flag_j is set, a row processes the tile at j = 0 only *)
Lemma sweep_row_flagged frame frame_width k (js : list Z) (y' x' : nat) :
  (img_width < frame_width - 1)%Z ->
  (img_width <= Z.of_nat x')%Z ->
  (js = [] \/ exists rest, js = 0%Z :: rest) ->
  forall m,
    pixel_at (fst (sweep_row' frame frame_width k js true m)) y' x' = pixel_at m y' x' /\
    forall m' f, sweep_row' frame frame_width k js true m = (m', Ok f) -> f = true.
Proof.
  intros Hw Hx [->|[rest ->]] m.
  { split; [done|]. intros m' f Hrun. by injection Hrun as _ <-. }
  cbn [sweep_row]. unfold bind.
  destruct (Z.leb_spec (frame_width - 1) (0 + img_width)) as [Hc|Hc]; [lia|].
  destruct (predict_tile' frame k 0 m) as [m1 [[]|e]] eqn:E; simpl.
  - split.
    + change m1 with (fst (m1, @Ok unit tt)). rewrite <- E. by apply predict_tile_left.
    + intros m' f Hrun. by injection Hrun as _ <-.
  - split; [|done].
    change m1 with (fst (m1, @Raise unit e)). rewrite <- E. by apply predict_tile_left.
Qed.

(* the rows of tiles that follow a row in which flag_j was set *)
Lemma sweep_flagged frame frame_height frame_width (js : list Z) (y' x' : nat) :
  (img_width < frame_width - 1)%Z ->
  (img_width <= Z.of_nat x')%Z ->
  (js = [] \/ exists rest, js = 0%Z :: rest) ->
  forall ks m,
    pixel_at (fst (sweep' frame frame_height frame_width ks js true m)) y' x'
    = pixel_at m y' x'.
Proof.
  intros Hw Hx Hjs. induction ks as [|k rest IH]; intros m; [done|].
  cbn [sweep]. unfold bind.
  set (k' := if (frame_height - 1 <=? k + img_height)%Z
             then (frame_height - img_height)%Z else k).
  destruct (sweep_row_flagged frame frame_width k' js y' x' Hw Hx Hjs m) as [Hpix Hflag].
  destruct (sweep_row' frame frame_width k' js true m) as [m1 [f|e]] eqn:E;
    simpl in *; [|done].
  rewrite (Hflag m1 f eq_refl).
  destruct (frame_height - 1 <=? k + img_height)%Z; [done | by rewrite IH].
Qed.

Lemma py_range_step_first (stop : Z) :
  (0 < step)%Z -> (0 < stop)%Z ->
  exists rest, py_range_step stop step = Ok (0%Z :: rest).
Proof.
  intros Hs Hstop. unfold py_range_step.
  destruct (Z.eqb_spec step 0); [lia|]. destruct (Z.ltb_spec step 0); [lia|].
  assert (0 < (stop + step - 1) / step)%Z as Hc
    by (apply Z.div_str_pos; lia).
  destruct (Z.to_nat ((stop + step - 1) / step)) as [|c] eqn:Ec; [lia|].
  replace ((stop + step - 1) / step)%Z with (Z.of_nat (S c)) by lia.
  rewrite seqZ_S. simpl. eauto.
Qed.

(* with tiles that overlap or abut (step <= img_width + 1), the last tile of
   a row reaches the right edge *)
Lemma py_range_step_reaches_edge (stop : Z) (js : list Z) :
  (0 < step <= img_width + 1)%Z -> (0 < stop)%Z ->
  py_range_step stop step = Ok js ->
  exists j, j ∈ js /\ (stop - 1 <= j + img_width)%Z.
Proof.
  intros Hs Hstop. unfold py_range_step.
  destruct (Z.eqb_spec step 0); [lia|]. destruct (Z.ltb_spec step 0); [lia|].
  intros [= <-].
  set (c := ((stop + step - 1) / step)%Z).
  assert (0 < c)%Z as Hc by (apply Z.div_str_pos; lia).
  assert (stop <= c * step)%Z as Hcs.
  { pose proof (Z.div_mod (stop + step - 1) step ltac:(lia)) as Hdm.
    pose proof (Z.mod_pos_bound (stop + step - 1) step ltac:(lia)) as Hmod.
    fold c in Hdm. nia. }
  exists ((c - 1) * step)%Z. split.
  - apply list_elem_of_fmap. exists (c - 1)%Z. split; [done|].
    apply elem_of_seqZ. lia.
  - nia.
Qed.

End SweepFacts.

Lemma pixel_at_zero_mask {num : Type} `{Numeric num} (h w y x : nat) :
  (y < h)%nat -> (x < w)%nat -> pixel_at (zero_mask h w) y x = Some (lit 0).
Proof.
  intros Hy Hx. unfold pixel_at, zero_mask.
  rewrite lookup_replicate_2 by done. by apply lookup_replicate_2.
Qed.

(** X1.  When the tiles overlap or abut (0 < step <= img_width + 1) and the
    frame needs more than one tile in each direction
    (img_height < frame_height - 1, img_width < frame_width - 1), flag_j,
    set at the end of the first row of tiles, is never cleared, so every
    later row stops after its first tile: the returned mask is 0 at every
    pixel (y, x) with y >= img_height and x >= img_width, whatever the
    network predicts. *)
Theorem predict_full_size_unswept_block {num : Type} `{Numeric num}
    (model_predict : Image -> res (list (list num)))
    (img_height img_width step : Z) (frame : Image)
    (mask : list (list num)) (y x : nat) :
  (0 < step <= img_width + 1)%Z ->
  (0 <= img_height < Z.of_nat (shape0 frame) - 1)%Z ->
  (0 <= img_width < Z.of_nat (shape1 frame) - 1)%Z ->
  predict_full_size model_predict img_height img_width step frame = Ok mask ->
  (img_height <= Z.of_nat y)%Z -> (y < shape0 frame)%nat ->
  (img_width <= Z.of_nat x)%Z -> (x < shape1 frame)%nat ->
  pixel_at mask y x = Some (lit 0).
Proof.
  intros Hstep Hh Hw Hrun Hy Hy' Hx Hx'.
  unfold predict_full_size in Hrun.
  destruct (py_range_step_first step (Z.of_nat (shape0 frame))) as [ks Hks]; [lia..|].
  destruct (py_range_step_first step (Z.of_nat (shape1 frame))) as [js Hjs]; [lia..|].
  rewrite Hks, Hjs in Hrun.
  destruct (py_range_step_reaches_edge img_width step (Z.of_nat (shape1 frame)) _
              Hstep ltac:(lia) Hjs) as (j & Hj & Hedge).
  cbn [sweep] in Hrun. unfold bind in Hrun.
  destruct (Z.leb_spec (Z.of_nat (shape0 frame) - 1) (0 + img_height)) as [|_]; [lia|].
  set (m0 := zero_mask (shape0 frame) (shape1 frame)) in Hrun.
  pose proof (sweep_row_top model_predict img_height img_width frame
                (Z.of_nat (shape1 frame)) (0%Z :: js) y x Hy false m0) as Htop.
  destruct (sweep_row _ _ _ frame _ 0 (0%Z :: js) false m0) as [m1 [f|e]] eqn:Erow;
    [|done].
  assert (f = true) as ->.
  { eapply sweep_row_sets_flag; [exact Erow | right; eauto]. }
  pose proof (sweep_flagged model_predict img_height img_width frame
                (Z.of_nat (shape0 frame)) (Z.of_nat (shape1 frame)) (0%Z :: js) y x
                ltac:(lia) Hx ltac:(right; eauto) ks m1) as Hrest.
  destruct (sweep _ _ _ frame _ _ ks (0%Z :: js) true m1) as [m2 [[]|e]]; [|done].
  injection Hrun as <-. simpl in Hrest, Htop.
  rewrite Hrest, Htop. by apply pixel_at_zero_mask.
Qed.

Lemma predict_full_size_unswept_block_witness :
  exists mask,
    predict_full_size sample_predict 2 2 2 frame66 = Ok mask /\
    pixel_at mask 1 5 = Some (qz 1) /\
    pixel_at mask 5 1 = Some (qz 1) /\
    pixel_at mask 5 5 = Some (lit 0).
Proof.
  eexists. split; [vm_compute; reflexivity|].
  split; [reflexivity|]. split; [reflexivity|].
  apply (predict_full_size_unswept_block sample_predict 2 2 2 frame66 _ 5 5);
    try (simpl; lia).
  vm_compute. reflexivity.
Defined.

(** ** Stabilisation: the index of the store *)

Section KeepsLabels.
Context {num : Type} `{Numeric num}.
Variable savgol_filter : list num -> Z -> Z -> res (list num).
Variable cfg : Config num.

Local Abbreviation keeps_labels := (keeps_labels num).

Lemma keeps_labels_ret {A} (a : A) : keeps_labels (ret a).
Proof. done. Qed.

Lemma keeps_labels_bind {A B} (m : M (list (Z * Row num)) A)
    (k : A -> M (list (Z * Row num)) B) :
  keeps_labels m -> (forall a, keeps_labels (k a)) -> keeps_labels (bind m k).
Proof.
  intros Hm Hk t. unfold bind. specialize (Hm t).
  destruct (m t) as [t' [a|e]]; simpl in *; [|done].
  by rewrite Hk.
Qed.

Lemma keeps_labels_loc_row (p : Z) : keeps_labels (loc_row p).
Proof. intros t. unfold loc_row. by destruct (loc t p). Qed.

Lemma keeps_labels_store_row (p : Z) (r : Row num) : keeps_labels (store_row p r).
Proof. intros t. apply labels_set_loc. Qed.

Lemma keeps_labels_rebuild_right (ps : list Z) :
  forall a b, keeps_labels (rebuild_right ps a b).
Proof.
  induction ps as [|p rest IH]; intros a b; [apply keeps_labels_ret|].
  cbn [rebuild_right]. apply keeps_labels_bind; [apply keeps_labels_loc_row|].
  intros r. apply keeps_labels_bind; [apply keeps_labels_store_row | intros _; apply IH].
Qed.

Lemma keeps_labels_rebuild_left (ps : list Z) :
  forall a b, keeps_labels (rebuild_left ps a b).
Proof.
  induction ps as [|p rest IH]; intros a b; [apply keeps_labels_ret|].
  cbn [rebuild_left]. apply keeps_labels_bind; [apply keeps_labels_loc_row|].
  intros r. apply keeps_labels_bind; [apply keeps_labels_store_row | intros _; apply IH].
Qed.

Lemma keeps_labels_ratio_drift x row latest a b c d :
  keeps_labels (ratio_drift x row latest a b c d).
Proof.
  unfold ratio_drift. destruct (_ <? _); [|apply keeps_labels_ret].
  apply keeps_labels_bind.
  - destruct latest as [[]|]; try apply keeps_labels_ret.
    destruct (_ <=? _); [|apply keeps_labels_ret].
    apply keeps_labels_bind; [apply keeps_labels_loc_row|].
    intros r. apply keeps_labels_store_row.
  - intros _. destruct latest as [[]|]; try apply keeps_labels_ret.
    destruct (_ <=? _); [|apply keeps_labels_ret].
    apply keeps_labels_bind; [apply keeps_labels_loc_row|].
    intros r. apply keeps_labels_store_row.
Qed.

Lemma keeps_labels_correct_frame x latest : keeps_labels (correct_frame x latest).
Proof.
  unfold correct_frame. apply keeps_labels_bind; [apply keeps_labels_loc_row|].
  intros row. apply keeps_labels_bind.
  { destruct (unstable_right (der row)); [|apply keeps_labels_ret].
    apply keeps_labels_bind; [apply keeps_labels_rebuild_right|].
    intros v. apply keeps_labels_ret. }
  intros [l1 [xtl xbl]]. apply keeps_labels_bind.
  { destruct (unstable_left (der row)); [|apply keeps_labels_ret].
    apply keeps_labels_bind; [apply keeps_labels_rebuild_left|].
    intros v. apply keeps_labels_ret. }
  intros [l2 [xtr xbr]]. apply keeps_labels_bind; [apply keeps_labels_ratio_drift|].
  intros _. apply keeps_labels_ret.
Qed.

Lemma keeps_labels_correction_loop (frames : list Z) :
  forall latest, keeps_labels (correction_loop frames latest).
Proof.
  induction frames as [|x rest IH]; intros latest; [apply keeps_labels_ret|].
  cbn [correction_loop]. apply keeps_labels_bind; [apply keeps_labels_correct_frame|].
  intros l. apply IH.
Qed.

Lemma labels_zip_with_same {A B} (f : Z * A -> B -> A) (t : list (Z * A)) (vs : list B) :
  length vs = length t ->
  labels (zip_with (fun kr v => (fst kr, f kr v)) t vs) = labels t.
Proof.
  revert vs. induction t as [|[k r] t IH]; intros [|v vs] Hlen; simpl in *; try done.
  f_equal. apply IH. lia.
Qed.

Lemma keeps_labels_assign_column set values : keeps_labels (assign_column set values).
Proof.
  intros t. unfold assign_column.
  destruct (Nat.eqb_spec (length values) (length t)); [|done]. simpl.
  by apply (labels_zip_with_same (fun kr v => with_pts (snd kr) (set (pts (snd kr)) v))).
Qed.

Lemma keeps_labels_smooth_column get set :
  keeps_labels (smooth_column savgol_filter cfg get set).
Proof.
  intros t. unfold smooth_column.
  destruct (smooth_series _ _ _); [apply keeps_labels_assign_column | done].
Qed.

Lemma keeps_labels_correct_and_smooth :
  keeps_labels (correct_and_smooth savgol_filter cfg).
Proof.
  unfold correct_and_smooth. apply keeps_labels_bind; [done|].
  intros t. apply keeps_labels_bind; [apply keeps_labels_correction_loop|].
  intros _. repeat (apply keeps_labels_bind; [apply keeps_labels_smooth_column|intros _]).
  apply keeps_labels_smooth_column.
Qed.

Lemma labels_add_features (sp : list (Z * Corners num)) :
  labels (add_features sp) = labels sp.
Proof. unfold labels, add_features. rewrite map_map. done. Qed.

Lemma labels_drop_features (t : list (Z * Row num)) :
  labels (drop_features t) = labels t.
Proof. unfold labels, drop_features. rewrite map_map. done. Qed.

Lemma labels_rectify (t : list (Z * Row num)) : labels (rectify t) = labels t.
Proof. unfold labels, rectify. rewrite map_map. done. Qed.

Lemma labels_assign_flags (t : list (Z * Row num)) ur ul :
  labels (assign_flags t ur ul) = labels t.
Proof.
  unfold labels, assign_flags. apply list_eq; intros k.
  rewrite !list_lookup_fmap, list_lookup_imap. by destruct (t !! k).
Qed.

End KeepsLabels.

(** X2.  __smooth_points never adds, removes or relabels a row: whether it
    completes or raises, the store afterwards has the index it had before. *)
Theorem smooth_points_keeps_index {num : Type} `{Numeric num}
    (savgol_filter : list num -> Z -> Z -> res (list num)) (cfg : Config num)
    (saved_points : Frame (Corners num)) :
  labels (fst (smooth_points savgol_filter cfg saved_points)) = labels saved_points /\
  length (fst (smooth_points savgol_filter cfg saved_points)) = length saved_points.
Proof.
  assert (labels (fst (smooth_points savgol_filter cfg saved_points))
          = labels saved_points) as Hl.
  { unfold smooth_points.
    destruct (stability_flags _) as [[ul ur]|e]; [|done].
    pose proof (keeps_labels_correct_and_smooth savgol_filter cfg
                  (rectify (assign_flags (add_features saved_points) ur ul))) as Hk.
    destruct (correct_and_smooth _ _ _) as [t2 r]. simpl in *.
    by rewrite labels_drop_features, Hk, labels_rectify, labels_assign_flags,
      labels_add_features. }
  split; [done|].
  apply (f_equal length) in Hl. unfold labels in Hl. by rewrite !length_map in Hl.
Qed.

(** ** Stabilisation: a store with a gap, an empty window range *)

Section Gaps.
Context {num : Type} `{Numeric num}.
Implicit Types (t : Frame (Row num)).

Lemma lost_side_loop_missing t (k : nat) : forall a prev_x,
  (exists i, (a <= i < a + Z.of_nat k)%Z /\ loc t i = None) ->
  exists i, lost_side_loop t prev_x (seqZ a (Z.of_nat k)) = Raise (KeyError i) /\
            (a <= i < a + Z.of_nat k)%Z /\ loc t i = None /\
            forall i', (a <= i' < i)%Z -> is_Some (loc t i').
Proof.
  induction k as [|k IH]; intros a prev_x (i & Hi & Hnone); [lia|].
  rewrite seqZ_S. cbn [lost_side_loop].
  destruct (loc t a) as [data|] eqn:Ea.
  - destruct (IH (Z.succ a) data) as (j & -> & Hj & Hjn & Hbefore).
    { exists i. split; [|done]. assert (i <> a) by congruence. lia. }
    exists j. split; [done|]. split; [lia|]. split; [done|].
    intros i' Hi'. destruct (decide (i' = a)) as [->|]; [by rewrite Ea|].
    apply Hbefore. lia.
  - exists a. split; [done|]. split; [lia|]. split; [done|]. intros i' Hi'. lia.
Qed.

Lemma loc_add_features (sp : Frame (Corners num)) (i : Z) :
  loc (add_features sp) i = (fun c => {| pts := c; der := derive c |}) <$> loc sp i.
Proof.
  induction sp as [|[k c] sp IH]; simpl; [done|].
  destruct (Z.eqb k i); [done | apply IH].
Qed.

End Gaps.

(** X3.  A store that lacks the row of some frame i < len, as it does after
    an undetected frame, makes __smooth_points raise KeyError at the first
    missing frame (at 0 for an empty store) before any coordinate is
    changed. *)
Theorem smooth_points_gap_raises {num : Type} `{Numeric num}
    (savgol_filter : list num -> Z -> Z -> res (list num)) (cfg : Config num)
    (saved_points : Frame (Corners num)) :
  (saved_points = [] \/
   exists i, (0 <= i < Z.of_nat (length saved_points))%Z /\ loc saved_points i = None) ->
  exists i,
    smooth_points savgol_filter cfg saved_points = (saved_points, Raise (KeyError i)) /\
    (0 <= i)%Z /\ loc saved_points i = None /\
    forall i', (0 <= i' < i)%Z -> is_Some (loc saved_points i').
Proof.
  intros Hgap.
  assert (forall i, loc (add_features saved_points) i = None <-> loc saved_points i = None)
    as Hnone.
  { intros i. rewrite loc_add_features. by destruct (loc saved_points i). }
  assert (exists i, lost_side (add_features saved_points) = Raise (KeyError i) /\
                    (0 <= i)%Z /\ loc saved_points i = None /\
                    forall i', (0 <= i' < i)%Z -> is_Some (loc saved_points i'))
    as (i & Hrun & Hi & Hn & Hbefore).
  { unfold lost_side.
    destruct (loc (add_features saved_points) 0) as [prev_x|] eqn:E0.
    - destruct Hgap as [->|(i & Hi & Hin)]; [done|].
      destruct (lost_side_loop_missing (add_features saved_points)
                  (length (add_features saved_points)) 0 prev_x)
        as (j & Hj & Hjr & Hjn & Hb).
      { exists i. unfold add_features. rewrite length_map. split; [lia|]. by apply Hnone. }
      exists j. split; [exact Hj|]. split; [lia|]. split; [by apply Hnone|].
      intros i' Hi'. specialize (Hb i' Hi'). rewrite loc_add_features in Hb.
      destruct (loc saved_points i'); [eauto | by destruct Hb].
    - exists 0%Z. split; [done|]. split; [done|]. split; [by apply Hnone|].
      intros i' Hi'. lia. }
  exists i. split; [|done].
  unfold smooth_points, stability_flags. by rewrite Hrun.
Qed.

Lemma smooth_points_gap_raises_witness :
  smooth_points moving_average cfg_sample store_gap = (store_gap, Raise (KeyError 2)).
Proof.
  destruct (smooth_points_gap_raises moving_average cfg_sample store_gap)
    as (i & Hrun & Hi & Hnone & Hbefore).
  - right. exists 2%Z. split; [simpl; lia | reflexivity].
  - rewrite Hrun. do 3 f_equal.
    destruct (decide (i < 2)%Z) as [Hlt|Hge].
    + assert (i = 0 \/ i = 1)%Z as [->| ->] by lia; discriminate.
    + destruct (decide (i = 2)) as [|Hne]; [done|].
      destruct (Hbefore 2%Z ltac:(lia)) as [? ?]. discriminate.
Defined.

(** X4.  With an empty range of smoothing windows (max_window <= min_window)
    __smooth_series returns the empty list for every series, and
    __smooth_points never completes: on every store it raises. *)
Theorem smooth_points_no_window_raises {num : Type} `{Numeric num}
    (savgol_filter : list num -> Z -> Z -> res (list num)) (cfg : Config num)
    (saved_points : Frame (Corners num)) :
  (max_window cfg <= min_window cfg)%Z ->
  (forall series, smooth_series savgol_filter cfg series = Ok []) /\
  exists e, snd (smooth_points savgol_filter cfg saved_points) = Raise e.
Proof.
  intros Hrange.
  assert (forall series, smooth_series savgol_filter cfg series = Ok []) as Hempty.
  { intros series. unfold smooth_series, py_range.
    rewrite seqZ_nil by lia. done. }
  split; [done|].
  unfold smooth_points.
  destruct (stability_flags (add_features saved_points)) as [[ul ur]|e] eqn:Ef;
    [|eauto].
  assert (add_features saved_points <> []) as Hne.
  { unfold stability_flags in Ef.
    destruct (lost_side (add_features saved_points)) as [ls|] eqn:El; [|done].
    by destruct (lost_side_Ok_present _ _ El). }
  set (t1 := rectify (assign_flags (add_features saved_points) ur ul)).
  assert (labels t1 = labels (add_features saved_points)) as Hl1
    by (unfold t1; by rewrite labels_rectify, labels_assign_flags).
  unfold correct_and_smooth, bind, get.
  pose proof (keeps_labels_correction_loop (py_range_len t1) None t1) as Hk.
  destruct (correction_loop (py_range_len t1) None t1) as [t2 [[]|e]]; simpl in *;
    [|eauto].
  unfold smooth_column at 1. rewrite Hempty. unfold assign_column.
  assert (length t2 <> 0%nat) as Hlen.
  { apply (f_equal length) in Hk, Hl1. unfold labels in Hk, Hl1.
    rewrite !length_map in Hk, Hl1. rewrite Hk, Hl1.
    by destruct (add_features saved_points). }
  destruct (Nat.eqb_spec (length (@nil num)) (length t2)) as [Heq|_]; [done|].
  simpl. eauto.
Qed.

Lemma smooth_points_no_window_raises_witness :
  snd (smooth_points moving_average cfg_no_window store20) = Raise ValueError.
Proof.
  destruct (smooth_points_no_window_raises moving_average cfg_no_window store20)
    as [_ [e He]]; [simpl; lia|].
  rewrite He. f_equal. vm_compute in He. by injection He as <-.
Defined.

(** ** Stabilisation: the flag rule and the windows on a store indexed 0 .. n-1 *)

(** X5.  On a non-empty store indexed 0 .. n-1 the two flag arrays are
    computed without an exception, have one entry per frame, and frame i is
    flagged unstable_left exactly when its dist_top_left differs by more than
    5 from that of the frame before and its x_top_left moved by more than 9;
    unstable_right likewise with x_top_right. *)
Theorem stability_flags_rule (t : Frame (Row xnum)) :
  dense t -> t <> [] ->
  exists ul ur,
    stability_flags t = Ok (ul, ur) /\
    length ul = length t /\ length ur = length t /\
    forall i, (0 <= i < Z.of_nat (length t))%Z ->
      ul !! Z.to_nat i = Some (jump t i && moved x_top_left t i) /\
      ur !! Z.to_nat i = Some (jump t i && moved x_top_right t i).
Proof.
  intros Hd Hne.
  apply stability_flags_present; [by apply dense_present | done | apply xnum_jump_0].
Qed.

Lemma stability_flags_rule_witness :
  stability_flags (add_features store2) = Ok ([false; true], [false; true]).
Proof.
  destruct (stability_flags_rule (add_features store2))
    as (ul & ur & -> & Hlu & Hlr & Hrule); [reflexivity | discriminate |].
  destruct (Hrule 0%Z ltac:(simpl; lia)) as [Hl0 Hr0].
  destruct (Hrule 1%Z ltac:(simpl; lia)) as [Hl1 Hr1].
  clear Hrule. vm_compute in Hlu, Hlr.
  destruct ul as [|a [|b [|? ?]]]; try discriminate Hlu.
  destruct ur as [|c [|d [|? ?]]]; try discriminate Hlr.
  vm_compute in Hl0, Hr0, Hl1, Hr1. congruence.
Defined.

Section WindowsOnDenseStore.
Context {num : Type} `{Numeric num}.
Implicit Types (t : Frame (Row num)).

Lemma rebuild_right_missing (ps : list Z) (p : Z) (rest : list Z) : forall t a b,
  (forall q, q ∈ ps -> is_Some (loc t q)) -> loc t p = None ->
  exists t',
    rebuild_right (ps ++ p :: rest) a b t = (t', Raise (KeyError p)) /\
    labels t' = labels t /\
    forall q, loc t' q
              = if decide (q ∈ ps) then right_rebuilt <$> loc t q else loc t q.
Proof.
  induction ps as [|position ps IH]; intros t a b Hall Hnone.
  { exists t. split; [|split; [done|]].
    - simpl. unfold bind, loc_row. by rewrite Hnone.
    - intros q. by rewrite decide_False by apply not_elem_of_nil. }
  destruct (Hall position ltac:(left)) as [r Hr].
  destruct (IH (set_loc t position (right_rebuilt r))
               (x_top_left (pts r)) (x_bot_left (pts r)))
    as (t' & Hrun & Hlab & Hloc).
  { apply present_after_set_loc. intros q Hq. apply Hall. by right. }
  { apply loc_None. rewrite labels_set_loc. by apply loc_None. }
  exists t'. split; [|split].
  - simpl. unfold bind, loc_row, store_row. rewrite Hr. exact Hrun.
  - by rewrite Hlab, labels_set_loc.
  - intros q. rewrite Hloc.
    destruct (decide (q = position)) as [->|Hne].
    + rewrite loc_set_loc_eq by (rewrite Hr; eauto). rewrite Hr.
      rewrite (decide_True (P := position ∈ position :: ps)) by left.
      by destruct (decide (position ∈ ps)).
    + rewrite loc_set_loc_ne by done.
      destruct (decide (q ∈ ps)) as [Hin|Hnin].
      * by rewrite decide_True by (by right).
      * rewrite decide_False; [done|]. rewrite elem_of_cons. intros [?|?]; done.
Qed.

Lemma rebuild_left_missing (ps : list Z) (p : Z) (rest : list Z) : forall t a b,
  (forall q, q ∈ ps -> is_Some (loc t q)) -> loc t p = None ->
  exists t',
    rebuild_left (ps ++ p :: rest) a b t = (t', Raise (KeyError p)) /\
    labels t' = labels t /\
    forall q, loc t' q
              = if decide (q ∈ ps) then left_rebuilt <$> loc t q else loc t q.
Proof.
  induction ps as [|position ps IH]; intros t a b Hall Hnone.
  { exists t. split; [|split; [done|]].
    - simpl. unfold bind, loc_row. by rewrite Hnone.
    - intros q. by rewrite decide_False by apply not_elem_of_nil. }
  destruct (Hall position ltac:(left)) as [r Hr].
  destruct (IH (set_loc t position (left_rebuilt r))
               (x_top_right (pts r)) (x_bot_right (pts r)))
    as (t' & Hrun & Hlab & Hloc).
  { apply present_after_set_loc. intros q Hq. apply Hall. by right. }
  { apply loc_None. rewrite labels_set_loc. by apply loc_None. }
  exists t'. split; [|split].
  - simpl. unfold bind, loc_row, store_row. rewrite Hr. exact Hrun.
  - by rewrite Hlab, labels_set_loc.
  - intros q. rewrite Hloc.
    destruct (decide (q = position)) as [->|Hne].
    + rewrite loc_set_loc_eq by (rewrite Hr; eauto). rewrite Hr.
      rewrite (decide_True (P := position ∈ position :: ps)) by left.
      by destruct (decide (position ∈ ps)).
    + rewrite loc_set_loc_ne by done.
      destruct (decide (q ∈ ps)) as [Hin|Hnin].
      * by rewrite decide_True by (by right).
      * rewrite decide_False; [done|]. rewrite elem_of_cons. intros [?|?]; done.
Qed.

Lemma py_range_window (x : Z) : py_range (x - 10) (x + 10) = seqZ (x - 10) 20.
Proof. unfold py_range. f_equal. lia. Qed.

Lemma loc_dense_None t (i : Z) :
  dense t -> ~ (0 <= i < Z.of_nat (length t))%Z -> loc t i = None.
Proof.
  intros Hd Hi. destruct (loc t i) eqn:E; [|done].
  exfalso. apply Hi. apply loc_dense; [done | by rewrite E].
Qed.

End WindowsOnDenseStore.

(** X6.  On a store indexed 0 .. n-1, the window of a frame x with
    10 <= x <= n - 10 lies inside the store: the right-side loop completes,
    gives every row of [x-10, x+10) the x_top_right and x_bot_right
    x_left + left_height * (ratio * angle / 90) computed from the row's own
    x_top_left, x_bot_left, left_height and angle, and changes no other row,
    no other column and no label; the left-side loop likewise with
    x_right - right_height * (ratio * angle / 90). *)
Theorem window_inside_store {num : Type} `{Numeric num}
    (t : Frame (Row num)) (x : Z) (a b : num) :
  dense t -> (10 <= x)%Z -> (x + 10 <= Z.of_nat (length t))%Z ->
  (exists t' v,
     rebuild_right (py_range (x - 10) (x + 10)) a b t = (t', Ok v) /\
     labels t' = labels t /\
     (forall p, (x - 10 <= p < x + 10)%Z -> loc t' p = right_rebuilt <$> loc t p) /\
     (forall p, ~ (x - 10 <= p < x + 10)%Z -> loc t' p = loc t p)) /\
  (exists t' v,
     rebuild_left (py_range (x - 10) (x + 10)) a b t = (t', Ok v) /\
     labels t' = labels t /\
     (forall p, (x - 10 <= p < x + 10)%Z -> loc t' p = left_rebuilt <$> loc t p) /\
     (forall p, ~ (x - 10 <= p < x + 10)%Z -> loc t' p = loc t p)).
Proof.
  intros Hd Hx Hn.
  assert (forall p, p ∈ py_range (x - 10) (x + 10) -> is_Some (loc t p)) as Hall.
  { intros p Hp. rewrite py_range_window in Hp. apply elem_of_seqZ in Hp.
    apply loc_dense; [done | lia]. }
  split.
  - destruct (rebuild_right_spec _ t a b Hall) as (t' & v & Hrun & Hlab & Hloc).
    exists t', v. split; [done|]. split; [done|]. split.
    + intros p Hp. rewrite Hloc, decide_True; [done|].
      rewrite py_range_window. apply elem_of_seqZ. lia.
    + intros p Hp. rewrite Hloc, decide_False; [done|].
      rewrite py_range_window, elem_of_seqZ. lia.
  - destruct (rebuild_left_spec _ t a b Hall) as (t' & v & Hrun & Hlab & Hloc).
    exists t', v. split; [done|]. split; [done|]. split.
    + intros p Hp. rewrite Hloc, decide_True; [done|].
      rewrite py_range_window. apply elem_of_seqZ. lia.
    + intros p Hp. rewrite Hloc, decide_False; [done|].
      rewrite py_range_window, elem_of_seqZ. lia.
Qed.

Lemma window_inside_store_witness :
  exists t' v,
    rebuild_right (py_range 5 25) (qz 0) (qz 0) table30 = (t', Ok v) /\
    x_top_right <$> (pts <$> loc t' 5) = Some (Fin 166) /\
    x_top_right <$> (pts <$> loc t' 25) = Some (Fin 124).
Proof.
  destruct (window_inside_store table30 15 (qz 0) (qz 0))
    as [(t' & v & Hrun & _ & Hin & Hout) _];
    [vm_compute; reflexivity | lia | vm_compute; discriminate |].
  exists t', v. split; [exact Hrun|]. split.
  - rewrite (Hin 5%Z) by lia. vm_compute. reflexivity.
  - rewrite (Hout 25%Z) by lia. vm_compute. reflexivity.
Defined.

(** X7.  On a store indexed 0 .. n-1, the window of a frame x with
    10 <= x < n and x + 10 > n runs past the last frame: the right-side loop
    rewrites the rows x-10 .. n-1 as in a full window, then the read at
    position n raises KeyError(n); the rows before x-10 and all labels are as
    before.  The left-side loop behaves the same way. *)
Theorem window_past_end {num : Type} `{Numeric num}
    (t : Frame (Row num)) (x : Z) (a b : num) :
  let n := Z.of_nat (length t) in
  dense t -> (10 <= x < n)%Z -> (n < x + 10)%Z ->
  (exists t',
     rebuild_right (py_range (x - 10) (x + 10)) a b t = (t', Raise (KeyError n)) /\
     labels t' = labels t /\
     (forall p, (x - 10 <= p < n)%Z -> loc t' p = right_rebuilt <$> loc t p) /\
     (forall p, ~ (x - 10 <= p < n)%Z -> loc t' p = loc t p)) /\
  (exists t',
     rebuild_left (py_range (x - 10) (x + 10)) a b t = (t', Raise (KeyError n)) /\
     labels t' = labels t /\
     (forall p, (x - 10 <= p < n)%Z -> loc t' p = left_rebuilt <$> loc t p) /\
     (forall p, ~ (x - 10 <= p < n)%Z -> loc t' p = loc t p)).
Proof.
  intros n Hd Hx Hn.
  assert (py_range (x - 10) (x + 10)
          = seqZ (x - 10) (n - (x - 10)) ++ n :: seqZ (Z.succ n) (x + 10 - n - 1)) as Hsplit.
  { rewrite py_range_window.
    replace 20%Z with ((n - (x - 10)) + (x + 10 - n))%Z by lia.
    rewrite seqZ_app by lia. f_equal.
    replace (x - 10 + (n - (x - 10)))%Z with n by lia.
    rewrite seqZ_cons by lia. repeat f_equal; lia. }
  assert (forall q, q ∈ seqZ (x - 10) (n - (x - 10)) -> is_Some (loc t q)) as Hall.
  { intros q Hq. apply elem_of_seqZ in Hq. apply loc_dense; [done | lia]. }
  assert (loc t n = None) as Hnone by (apply loc_dense_None; [done | lia]).
  rewrite Hsplit. split.
  - destruct (rebuild_right_missing _ n (seqZ (Z.succ n) (x + 10 - n - 1)) t a b
                Hall Hnone) as (t' & Hrun & Hlab & Hloc).
    exists t'. split; [done|]. split; [done|]. split.
    + intros p Hp. rewrite Hloc, decide_True; [done|]. apply elem_of_seqZ. lia.
    + intros p Hp. rewrite Hloc, decide_False; [done|]. rewrite elem_of_seqZ. lia.
  - destruct (rebuild_left_missing _ n (seqZ (Z.succ n) (x + 10 - n - 1)) t a b
                Hall Hnone) as (t' & Hrun & Hlab & Hloc).
    exists t'. split; [done|]. split; [done|]. split.
    + intros p Hp. rewrite Hloc, decide_True; [done|]. apply elem_of_seqZ. lia.
    + intros p Hp. rewrite Hloc, decide_False; [done|]. rewrite elem_of_seqZ. lia.
Qed.

Lemma window_past_end_witness :
  exists t',
    rebuild_right (py_range 15 35) (qz 0) (qz 0) table30 = (t', Raise (KeyError 30)) /\
    x_top_right <$> (pts <$> loc t' 29) = Some (Fin 166) /\
    x_top_right <$> (pts <$> loc t' 14) = Some (Fin 124).
Proof.
  destruct (window_past_end table30 25 (qz 0) (qz 0))
    as [(t' & Hrun & _ & Hin & Hout) _];
    [vm_compute; reflexivity | split; [lia | vm_compute; reflexivity]
     | vm_compute; reflexivity |].
  exists t'. split; [exact Hrun|]. split.
  - rewrite (Hin 29%Z) by (split; [lia | vm_compute; reflexivity]).
    vm_compute. reflexivity.
  - rewrite (Hout 14%Z) by (intros [? ?]; lia). vm_compute. reflexivity.
Defined.

(** ** The series smoother: edge cases *)

Section SmootherEdges.
Context {num : Type} `{Numeric num}.
Variable savgol_filter : list num -> Z -> Z -> res (list num).
Variable cfg : Config num.

Lemma smooth_loop_all_even (series : list num) (windows : list Z) (best : list num) :
  (forall w, w ∈ windows -> Z.odd w = false) ->
  smooth_loop savgol_filter cfg series windows best = Ok best.
Proof.
  induction windows as [|w rest IH]; intros Heven; [done|].
  cbn [smooth_loop]. rewrite odd_mod2, (Heven w) by left. simpl.
  apply IH. intros w' Hw'. apply Heven. by right.
Qed.

Lemma smooth_loop_empty_series (windows : list Z) (best : list num) :
  (exists w, w ∈ windows /\ Z.odd w = true) ->
  exists e,
    smooth_loop savgol_filter cfg [] windows best = Raise e /\
    (e = ValueError \/
     exists w, w ∈ windows /\ Z.odd w = true /\
               savgol_filter [] w (poly_degree cfg) = Raise e).
Proof.
  induction windows as [|w rest IH]; intros (w0 & Hin & Hodd).
  { by apply not_elem_of_nil in Hin. }
  cbn [smooth_loop]. rewrite odd_mod2.
  destruct (Z.odd w) eqn:Ew; simpl.
  - destruct (savgol_filter [] w (poly_degree cfg)) as [new_series|e] eqn:Hrun.
    + exists ValueError. split; [|by left].
      unfold deviation. by rewrite zip_with_nil_r.
    + exists e. split; [done|]. right. exists w. split; [by left | done].
  - destruct IH as (e & Hrun & He).
    { exists w0. split; [|done].
      apply elem_of_cons in Hin as [->|]; [congruence | done]. }
    exists e. split; [done|].
    destruct He as [->|(w1 & Hw1 & Hodd1 & Hraise)]; [by left|].
    right. exists w1. split; [by right | done].
Qed.

End SmootherEdges.

(** X8.  When the range min_window .. max_window - 1 holds no odd number,
    __smooth_series returns the empty list for every series; when it holds
    one, the empty series makes it raise: ValueError (max of an empty
    sequence), unless the filter itself has raised on the empty series at an
    odd window of the range, and then that exception. *)
Theorem smooth_series_edge_cases {num : Type} `{Numeric num}
    (savgol_filter : list num -> Z -> Z -> res (list num)) (cfg : Config num) :
  ((forall w, (min_window cfg <= w < max_window cfg)%Z -> Z.odd w = false) ->
   forall series, smooth_series savgol_filter cfg series = Ok []) /\
  ((exists w, (min_window cfg <= w < max_window cfg)%Z /\ Z.odd w = true) ->
   exists e,
     smooth_series savgol_filter cfg [] = Raise e /\
     (e = ValueError \/
      exists w, (min_window cfg <= w < max_window cfg)%Z /\ Z.odd w = true /\
                savgol_filter [] w (poly_degree cfg) = Raise e)).
Proof.
  split.
  - intros Heven series. unfold smooth_series. apply smooth_loop_all_even.
    intros w Hw. apply Heven. unfold py_range in Hw. apply elem_of_seqZ in Hw. lia.
  - intros (w & Hw & Hodd). unfold smooth_series.
    destruct (smooth_loop_empty_series savgol_filter cfg
                (py_range (min_window cfg) (max_window cfg)) [])
      as (e & Hrun & He).
    { exists w. split; [|done]. unfold py_range. apply elem_of_seqZ. lia. }
    exists e. split; [done|].
    destruct He as [->|(w1 & Hw1 & Hodd1 & Hraise)]; [by left|].
    right. exists w1. split; [|done].
    unfold py_range in Hw1. apply elem_of_seqZ in Hw1. lia.
Qed.

Lemma smooth_series_edge_cases_witness :
  smooth_series moving_average cfg_no_window series5 = Ok [] /\
  smooth_series moving_average cfg_windows [] = Raise ValueError.
Proof.
  destruct (smooth_series_edge_cases moving_average cfg_no_window) as [Hnone _].
  destruct (smooth_series_edge_cases moving_average cfg_windows) as [_ Hempty].
  split.
  - apply Hnone. intros w Hw. simpl in Hw. lia.
  - destruct Hempty as (e & Hrun & He).
    + exists 1%Z. split; [simpl; lia | reflexivity].
    + rewrite Hrun. f_equal.
      destruct He as [->|(w & Hw & _ & Hraise)]; [done|].
      unfold moving_average in Hraise.
      destruct (_ || _) in Hraise; [by injection Hraise as <- | done].
Defined.

Lemma xnum_fold_max_nan (rest : list xnum) :
  fold_left (fun m item => if item >? m then item else m) rest NaN = NaN.
Proof. induction rest as [|x rest IH]; [done|]. simpl. by destruct x. Qed.

Lemma xnum_fold_max_skips_nan (rest : list xnum) : forall v,
  fold_left (fun m item => if item >? m then item else m) rest v
  = fold_left (fun m item => if item >? m then item else m) (List.filter not_nan rest) v.
Proof.
  induction rest as [|x rest IH]; intros v; [done|].
  cbn [fold_left List.filter]. destruct x as [q| | |]; cbn [not_nan fold_left];
    try apply IH.
  replace (if NaN >? v then NaN else v) with v by (by destruct v). apply IH.
Qed.

(** X9.  The builtin max that measures a window's deviation ignores every
    NaN after the first item, and is NaN when the first item is NaN: a
    window whose first deviation is NaN is never accepted, while a NaN
    deviation at a later point does not count against the window. *)
Theorem py_max_nan (v : xnum) (rest : list xnum) :
  py_max (v :: rest) = py_max (v :: List.filter not_nan rest) /\
  py_max (NaN :: rest) = Ok NaN /\
  (forall threshold, (NaN <? threshold) = false).
Proof.
  split; [|split].
  - unfold py_max. f_equal. apply xnum_fold_max_skips_nan.
  - unfold py_max. f_equal. apply xnum_fold_max_nan.
  - done.
Qed.

(** ** The frame detector: running centres and corner assignment *)

Lemma xnum_leb_Fin (p q : Q) : (Fin p <=? Fin q) = true <-> (p <= q)%Q.
Proof.
  simpl. unfold X.leb. rewrite Qle_alt. destruct (p ?= q)%Q; split; congruence.
Qed.

Lemma xnum_ltb_leb (a b : xnum) : (a <? b) = true -> (a <=? b) = true.
Proof.
  destruct a as [p| | |], b as [q| | |]; try done.
  rewrite xnum_ltb_Fin, xnum_leb_Fin. apply Qlt_le_weak.
Qed.

Lemma xnum_not_ltb_leb (a b : xnum) :
  finite a -> finite b -> (a <? b) = false -> (b <=? a) = true.
Proof.
  destruct a as [p| | |], b as [q| | |]; try done. intros _ _ Hlt.
  apply xnum_leb_Fin, Qnot_lt_le. intros Hpq. apply xnum_ltb_Fin in Hpq. congruence.
Qed.

Lemma xnum_leb_trans (a b c : xnum) :
  finite a -> finite b -> finite c ->
  (a <=? b) = true -> (b <=? c) = true -> (a <=? c) = true.
Proof.
  destruct a as [p| | |], b as [q| | |], c as [r| | |]; try done. intros _ _ _.
  rewrite !xnum_leb_Fin. apply Qle_trans.
Qed.

Lemma xnum_leb_refl (a : xnum) : finite a -> (a <=? a) = true.
Proof. destruct a; try done. intros _. apply xnum_leb_refl_Fin. Qed.

Section Centres.
Variable cfg : Config xnum.
Variable contour : Type.
Variable contourArea : contour -> xnum.
Variable minAreaRect_center : contour -> Point xnum.
Variable boxPoints : contour -> list (Point xnum).
Variable drawContours : Mask -> contour -> Mask.

Local Abbreviation scan_contour'' :=
  (scan_contour cfg contour contourArea minAreaRect_center boxPoints drawContours).
Local Abbreviation scan_contours'' :=
  (scan_contours cfg contour contourArea minAreaRect_center boxPoints drawContours).
Local Abbreviation xm_of := (centre_x contour minAreaRect_center).
Local Abbreviation centres_bracket' := (centres_bracket contour minAreaRect_center).

Lemma scan_contour_centres (s : Scan (num := xnum) contour) (cnt : contour) :
  (contourArea cnt >? filter_area_size cfg) = true ->
  centers_set contour s ->
  exists s',
    scan_contour'' s cnt = Ok s' /\
    first_cnt contour s' = false /\
    drawn contour s' = drawn contour s ++ [cnt] /\
    (c_left contour s', c_right contour s')
    = if first_cnt contour s then (Some (xm_of cnt), Some (xm_of cnt))
      else match c_left contour s, c_right contour s with
           | Some cl, Some cr =>
               if xm_of cnt <? cl then (Some (xm_of cnt), Some cr)
               else if xm_of cnt >? cr then (Some cl, Some (xm_of cnt))
               else (Some cl, Some cr)
           | l, r => (l, r)
           end.
Proof.
  intros Hbig Hc. unfold scan_contour. rewrite Hbig. unfold centre_x.
  destruct (minAreaRect_center cnt) as [xm ym]. cbn [fst].
  destruct (first_cnt contour s) eqn:Ef.
  - eexists. split; [reflexivity|]. simpl.
    destruct (fold_assign_all_scan contour xm ym (boxPoints cnt) s) as [_ ->]. done.
  - destruct (Hc Ef) as [[cl Hcl] [cr Hcr]]. rewrite Hcl, Hcr.
    destruct (xm <? cl); [|destruct (xm >? cr)].
    + eexists. split; [reflexivity|]. simpl.
      destruct (fold_assign_left_scan contour xm ym (boxPoints cnt) s) as [_ ->]. done.
    + eexists. split; [reflexivity|]. simpl.
      destruct (fold_assign_right_scan contour xm ym (boxPoints cnt) s) as [_ ->]. done.
    + eexists. split; [reflexivity|]. simpl. by rewrite Ef, Hcl, Hcr.
Qed.

Lemma centres_bracket_step (s s' : Scan (num := xnum) contour) (cnt : contour) :
  (forall c, c ∈ cnt :: drawn contour s -> finite (xm_of c)) ->
  centers_set contour s -> centres_bracket' s ->
  scan_contour'' s cnt = Ok s' ->
  centers_set contour s' /\ centres_bracket' s'.
Proof.
  intros Hfin Hc Hb Hrun.
  destruct (contourArea cnt >? filter_area_size cfg) eqn:Hbig.
  2: { unfold scan_contour in Hrun. rewrite Hbig in Hrun. by injection Hrun as <-. }
  destruct (scan_contour_centres s cnt Hbig Hc) as (s1 & Hrun1 & Hf & Hd & Hlr).
  rewrite Hrun in Hrun1. injection Hrun1 as <-.
  assert (finite (xm_of cnt)) as Hfx by (apply Hfin; left).
  unfold centres_bracket in *. rewrite Hf.
  destruct (first_cnt contour s) eqn:Ef.
  - injection Hlr as Hl Hr. split; [intros _; rewrite Hl, Hr; eauto|].
    exists (xm_of cnt), (xm_of cnt). rewrite Hd, Hb. simpl.
    split; [done|]. split; [done|].
    split; [exists cnt; split; [by left | done]|].
    split; [exists cnt; split; [by left | done]|].
    intros c Hin. apply list_elem_of_singleton in Hin as ->.
    split; by apply xnum_leb_refl.
  - destruct Hb as (l & r & Hl & Hr & (cl & Hcl & Hxl) & (cr & Hcr & Hxr) & Hall).
    rewrite Hl, Hr in Hlr.
    assert (finite l) as Hfl by (rewrite <- Hxl; apply Hfin; by right).
    assert (finite r) as Hfr by (rewrite <- Hxr; apply Hfin; by right).
    assert ((l <=? r) = true) as Hlr_le.
    { destruct (Hall cl Hcl) as [_ Hle]. by rewrite Hxl in Hle. }
    destruct (xm_of cnt <? l) eqn:E1; [|destruct (xm_of cnt >? r) eqn:E2];
      injection Hlr as Hl' Hr'.
    + split; [intros _; rewrite Hl', Hr'; eauto|].
      exists (xm_of cnt), r. rewrite Hd. split; [done|]. split; [done|].
      split; [exists cnt; split; [apply elem_of_app; right; by left | done]|].
      split; [exists cr; split; [apply elem_of_app; by left | done]|].
      intros c Hin. apply elem_of_app in Hin as [Hin|Hin].
      * destruct (Hall c Hin) as [Hlc Hcr']. split; [|done].
        apply xnum_leb_trans with l; try done; [apply Hfin; by right|].
        by apply xnum_ltb_leb.
      * apply list_elem_of_singleton in Hin as ->. split; [by apply xnum_leb_refl|].
        apply xnum_leb_trans with l; try done. by apply xnum_ltb_leb.
    + split; [intros _; rewrite Hl', Hr'; eauto|].
      exists l, (xm_of cnt). rewrite Hd. split; [done|]. split; [done|].
      split; [exists cl; split; [apply elem_of_app; by left | done]|].
      split; [exists cnt; split; [apply elem_of_app; right; by left | done]|].
      intros c Hin. apply elem_of_app in Hin as [Hin|Hin].
      * destruct (Hall c Hin) as [Hlc Hcr']. split; [done|].
        apply xnum_leb_trans with r; try done; [apply Hfin; by right|].
        by apply xnum_ltb_leb.
      * apply list_elem_of_singleton in Hin as ->. split; [|by apply xnum_leb_refl].
        apply xnum_leb_trans with r; try done. by apply xnum_ltb_leb.
    + split; [intros _; rewrite Hl', Hr'; eauto|].
      exists l, r. rewrite Hd. split; [done|]. split; [done|].
      split; [exists cl; split; [apply elem_of_app; by left | done]|].
      split; [exists cr; split; [apply elem_of_app; by left | done]|].
      intros c Hin. apply elem_of_app in Hin as [Hin|Hin]; [by apply Hall|].
      apply list_elem_of_singleton in Hin as ->.
      split; by apply xnum_not_ltb_leb.
Qed.

Lemma centres_bracket_scan (contours : list contour) :
  forall (s s' : Scan (num := xnum) contour),
    (forall c, c ∈ contours ++ drawn contour s -> finite (xm_of c)) ->
    centers_set contour s -> centres_bracket' s ->
    scan_contours'' s contours = Ok s' ->
    centres_bracket' s'.
Proof.
  induction contours as [|cnt rest IH]; intros s s' Hfin Hc Hb Hrun.
  { by injection Hrun as <-. }
  cbn [scan_contours] in Hrun.
  destruct (scan_contour'' s cnt) as [s1|] eqn:E1; [|done]. simpl in Hrun.
  destruct (centres_bracket_step s s1 cnt) as [Hc1 Hb1]; try done.
  { intros c Hin. apply Hfin. apply elem_of_cons in Hin as [->|Hin].
    - apply elem_of_app. left. by left.
    - apply elem_of_app. by right. }
  apply (IH s1 s'); try done.
  intros c Hin. apply Hfin.
  apply elem_of_app in Hin as [Hin|Hin].
  - apply elem_of_app. left. by right.
  - destruct (contourArea cnt >? filter_area_size cfg) eqn:Hbig.
    + destruct (scan_contour_centres s cnt Hbig Hc) as (s2 & Hrun2 & _ & Hd & _).
      rewrite E1 in Hrun2. injection Hrun2 as <-. rewrite Hd in Hin.
      apply elem_of_app in Hin as [Hin|Hin].
      * apply elem_of_app. by right.
      * apply list_elem_of_singleton in Hin as ->. apply elem_of_app. left. by left.
    + unfold scan_contour in E1. rewrite Hbig in E1. injection E1 as <-.
      apply elem_of_app. by right.
Qed.

Lemma scan_contours_filter (contours : list contour) :
  forall (s : Scan (num := xnum) contour),
    scan_contours'' s contours
    = scan_contours'' s (List.filter (above_filter cfg contour contourArea) contours).
Proof.
  induction contours as [|cnt rest IH]; intros s; [done|].
  cbn [List.filter]. unfold above_filter at 1.
  destruct (contourArea cnt >? filter_area_size cfg) eqn:Hbig.
  - cbn [scan_contours]. destruct (scan_contour'' s cnt) as [s1|e]; simpl; [apply IH | done].
  - cbn [scan_contours]. unfold scan_contour at 1. rewrite Hbig. simpl. apply IH.
Qed.

End Centres.

(** X10.  After the detection pass on a frame with at least one contour
    above the area filter, center_left and center_right are the smallest
    and the largest x coordinate among the centres of the kept contours:
    both are the centre of a kept contour, and the centre of every kept
    contour lies between them (contours with finite centre coordinates). *)
Theorem check_contours_centres (cfg : Config xnum) (contour : Type)
    (findContours : Mask -> list contour) (contourArea : contour -> xnum)
    (minAreaRect_center : contour -> Point xnum)
    (boxPoints : contour -> list (Point xnum))
    (drawContours : Mask -> contour -> Mask)
    (self : Replacer xnum) (mask : Mask) :
  let kept := List.filter (above_filter cfg contour contourArea) (findContours mask) in
  let centre := centre_x contour minAreaRect_center in
  let self' := fst (check_contours cfg contour findContours contourArea
                      minAreaRect_center boxPoints drawContours mask self) in
  (forall c, c ∈ kept -> finite (centre c)) ->
  kept <> [] ->
  exists l r,
    center_left self' = Some l /\ center_right self' = Some r /\
    (exists c, c ∈ kept /\ centre c = l) /\
    (exists c, c ∈ kept /\ centre c = r) /\
    forall c, c ∈ kept -> (l <=? centre c) = true /\ (centre c <=? r) = true.
Proof.
  intros kept centre self' Hfin Hkept.
  destruct (scan_contours_spec cfg contour contourArea minAreaRect_center boxPoints
              drawContours (findContours mask) (scan_start contour self mask)
              (centers_set_start contour self mask))
    as (s & Hrun & Hd & _ & Hf & _).
  simpl in Hd. fold kept in Hd, Hf.
  assert (first_cnt contour s = false) as Hfirst.
  { rewrite Hf. by destruct kept. }
  assert (centres_bracket contour minAreaRect_center s) as Hb.
  { apply (centres_bracket_scan cfg contour contourArea minAreaRect_center boxPoints
             drawContours kept (scan_start contour self mask) s).
    - intros c Hc. simpl in Hc. rewrite app_nil_r in Hc. by apply Hfin.
    - apply centers_set_start.
    - reflexivity.
    - unfold kept. by rewrite <- scan_contours_filter. }
  unfold centres_bracket in Hb. rewrite Hfirst, Hd in Hb.
  destruct Hb as (l & r & Hl & Hr & Hcl & Hcr & Hall).
  exists l, r.
  assert (center_left self' = c_left contour s /\ center_right self' = c_right contour s)
    as [-> ->].
  { unfold self', check_contours. rewrite Hrun, Hfirst.
    by destruct (corner_row contour s). }
  done.
Qed.

Lemma check_contours_centres_witness :
  let self' := fst (check_contours cfg_area SampleContour
                      (fun _ => [contour_500; contour_50; contour_300])
                      s_area s_center s_box sample_draw [] init) in
  exists l r,
    center_left self' = Some l /\ center_right self' = Some r /\
    l = qz 40 /\ r = qz 125 /\
    (l <=? fst (s_center contour_500)) = true /\
    (fst (s_center contour_500) <=? r) = true.
Proof.
  destruct (check_contours_centres cfg_area SampleContour
              (fun _ => [contour_500; contour_50; contour_300])
              s_area s_center s_box sample_draw init [])
    as (l & r & Hl & Hr & _ & _ & Hall).
  - intros c Hc. vm_compute in Hc.
    apply elem_of_cons in Hc as [->|Hc]; [exact I|].
    apply list_elem_of_singleton in Hc as ->. exact I.
  - vm_compute. discriminate.
  - exists l, r. split; [exact Hl|]. split; [exact Hr|].
    destruct (Hall contour_500) as [Hlo Hhi]; [vm_compute; left|].
    vm_compute in Hl, Hr. injection Hl as <-. injection Hr as <-.
    repeat split; try reflexivity; assumption.
Defined.

Section Quadrants.
Context {num : Type} `{Numeric num}.
Variable contour : Type.

Local Abbreviation Scan'' := (Scan (num := num) contour).

(* a corner variable after the loop of lines 153-163: the last box point of
   its quadrant, or its old value when the quadrant holds no point *)
Lemma fold_assign_all_corners xm ym (box : list (Point num)) (s : Scan'') :
  let s' := fold_left (assign_all contour xm ym) box s in
  let pick left top old :=
    match last (List.filter (in_quadrant xm ym left top) box) with
    | Some p => Some p
    | None => old
    end in
  top_left contour s' = pick true true (top_left contour s) /\
  top_right contour s' = pick false true (top_right contour s) /\
  bot_left contour s' = pick true false (bot_left contour s) /\
  bot_right contour s' = pick false false (bot_right contour s).
Proof.
  induction box as [|p box IH] using rev_ind; [done|].
  cbn zeta in *. rewrite fold_left_app. cbn [fold_left].
  rewrite !List.filter_app. cbn [List.filter].
  destruct IH as (Htl & Htr & Hbl & Hbr).
  unfold in_quadrant at 2 4 6 8, assign_all.
  destruct (fst p <? xm), (snd p <? ym); cbn [Bool.eqb andb];
    rewrite ?app_nil_r, ?last_snoc; simpl; done.
Qed.

Lemma fold_assign_left_corners xm ym (box : list (Point num)) (s : Scan'') :
  let s' := fold_left (assign_left contour xm ym) box s in
  top_left contour s' = pick (in_quadrant xm ym true true) box (top_left contour s) /\
  bot_left contour s' = pick (in_quadrant xm ym true false) box (bot_left contour s) /\
  top_right contour s' = top_right contour s /\
  bot_right contour s' = bot_right contour s.
Proof.
  induction box as [|p box IH] using rev_ind; [done|].
  cbn zeta in *. unfold pick in *. rewrite fold_left_app. cbn [fold_left].
  rewrite !List.filter_app. cbn [List.filter].
  destruct IH as (Htl & Hbl & Htr & Hbr).
  unfold in_quadrant at 2 4, assign_left.
  destruct (fst p <? xm), (snd p <? ym); cbn [Bool.eqb andb];
    rewrite ?app_nil_r, ?last_snoc; simpl; done.
Qed.

Lemma fold_assign_right_corners xm ym (box : list (Point num)) (s : Scan'') :
  let s' := fold_left (assign_right contour xm ym) box s in
  top_right contour s' = pick (right_of xm ym true) box (top_right contour s) /\
  bot_right contour s' = pick (right_of xm ym false) box (bot_right contour s) /\
  top_left contour s' = top_left contour s /\
  bot_left contour s' = bot_left contour s.
Proof.
  induction box as [|p box IH] using rev_ind; [done|].
  cbn zeta in *. unfold pick in *. rewrite fold_left_app. cbn [fold_left].
  rewrite !List.filter_app. cbn [List.filter].
  destruct IH as (Htr & Hbr & Htl & Hbl).
  unfold right_of at 2 4, assign_right.
  destruct (fst p >? xm), (snd p <? ym); cbn [Bool.eqb andb];
    rewrite ?app_nil_r, ?last_snoc; simpl; done.
Qed.

End Quadrants.





(** X11.  When exactly one contour of the frame is above the area filter,
    each corner of the saved row is the last box point of its quadrant
    around the rectangle's centre: left means x < xm, right means the
    opposite, top means y < ym, bottom the opposite.  The filled mask is
    saved in every case; when a quadrant holds no box point, the pass raises
    UnboundLocalError after saving the mask and writes no row. *)
Theorem single_contour_corners {num : Type} `{Numeric num}
    (cfg : Config num) (contour : Type)
    (findContours : Mask -> list contour) (contourArea : contour -> num)
    (minAreaRect_center : contour -> Point num)
    (boxPoints : contour -> list (Point num))
    (drawContours : Mask -> contour -> Mask)
    (self : Replacer num) (mask : Mask) (cnt : contour) :
  let out := check_contours cfg contour findContours contourArea
               minAreaRect_center boxPoints drawContours mask self in
  let corner left top :=
    last (List.filter (in_quadrant (fst (minAreaRect_center cnt))
                         (snd (minAreaRect_center cnt)) left top) (boxPoints cnt)) in
  List.filter (above_filter cfg contour contourArea) (findContours mask) = [cnt] ->
  loc (saved_frame_mask (fst out)) (frame_num self)
  = Some (Arr2 (drawContours mask cnt)) /\
  match corner true true, corner false true, corner true false, corner false false with
  | Some tl, Some tr, Some bl, Some br =>
      snd out = Ok tt /\
      loc (saved_points (fst out)) (frame_num self)
      = Some {| x_top_left := fst tl; y_top_left := snd tl;
                x_top_right := fst tr; y_top_right := snd tr;
                x_bot_left := fst bl; y_bot_left := snd bl;
                x_bot_right := fst br; y_bot_right := snd br |}
  | _, _, _, _ =>
      snd out = Raise UnboundLocalError /\
      saved_points (fst out) = saved_points self
  end.
Proof.
  intros out corner Hkept.
  assert (scan_contours cfg contour contourArea minAreaRect_center boxPoints
            drawContours (scan_start contour self mask) (findContours mask)
          = scan_contour cfg contour contourArea minAreaRect_center boxPoints
              drawContours (scan_start contour self mask) cnt) as Hrun.
  { clear out corner.
    generalize (scan_start contour self mask).
    induction (findContours mask) as [|c rest IH]; intros s; [done|].
    cbn [List.filter] in Hkept. cbn [scan_contours].
    destruct (above_filter cfg contour contourArea c) eqn:Hc.
    - injection Hkept as -> Hrest.
      destruct (scan_contour _ _ _ _ _ _ s cnt) as [s1|e] eqn:E1; simpl; [|done].
      clear IH E1. revert s1. induction rest as [|c rest IH]; intros s1; [done|].
      cbn [List.filter] in Hrest. cbn [scan_contours].
      destruct (above_filter cfg contour contourArea c) eqn:Hc'; [done|].
      unfold scan_contour at 1. unfold above_filter in Hc'. rewrite Hc'. simpl.
      by apply IH.
    - unfold scan_contour at 1. unfold above_filter in Hc. rewrite Hc. simpl.
      by apply IH. }
  assert (above_filter cfg contour contourArea cnt = true) as Hbig.
  { assert (In cnt (List.filter (above_filter cfg contour contourArea)
                      (findContours mask))) as Hin by (rewrite Hkept; by left).
    by apply filter_In in Hin as [_ ?]. }
  unfold out, check_contours. rewrite Hrun. unfold scan_contour.
  unfold above_filter in Hbig. rewrite Hbig.
  unfold corner. destruct (minAreaRect_center cnt) as [xm ym]. cbn [fst snd].
  cbn [first_cnt scan_start res_bind].
  pose proof (fold_assign_all_corners contour xm ym (boxPoints cnt)
                (scan_start contour self mask)) as Hcorners.
  destruct (fold_assign_all_scan contour xm ym (boxPoints cnt)
              (scan_start contour self mask)) as [Hmask _].
  cbn zeta in Hcorners, Hmask. destruct Hcorners as (Htl & Htr & Hbl & Hbr).
  unfold corner_row. cbn [first_cnt fill set_centers top_left top_right bot_left
                            bot_right fsz_mask].
  rewrite Htl, Htr, Hbl, Hbr, Hmask. cbn [scan_start top_left top_right bot_left
                                            bot_right fsz_mask].
  destruct (last (List.filter (in_quadrant xm ym true true) _)) as [tl|];
    [destruct (last (List.filter (in_quadrant xm ym false true) _)) as [tr|];
     [destruct (last (List.filter (in_quadrant xm ym true false) _)) as [bl|];
      [destruct (last (List.filter (in_quadrant xm ym false false) _)) as [br|]|]|]|];
    cbn [fst snd update_detector saved_frame_mask saved_points];
    (split; [apply loc_loc_assign|]); try done.
  split; [done|]. apply loc_loc_assign.
Qed.

Lemma single_contour_corners_witness :
  let out := check_contours cfg_area SampleContour (fun _ => [contour_50; contour_diamond])
               s_area s_center s_box sample_draw [[0; 0]; [0; 0]]%Z init in
  loc (saved_frame_mask (fst out)) 0 = Some (Arr2 [[0; 0]; [0; 0]]%Z) /\
  snd out = Raise UnboundLocalError /\
  saved_points (fst out) = [].
Proof.
  pose proof (single_contour_corners cfg_area SampleContour
                (fun _ => [contour_50; contour_diamond]) s_area s_center s_box
                sample_draw init [[0; 0]; [0; 0]]%Z contour_diamond) as Hthm.
  cbn zeta in Hthm. destruct Hthm as [Hfile Hrow]; [vm_compute; reflexivity|].
  split; [exact Hfile|].
  replace (last (List.filter (in_quadrant (fst (s_center contour_diamond))
                                (snd (s_center contour_diamond)) true true)
                   (s_box contour_diamond))) with (@None (Point xnum)) in Hrow
    by (vm_compute; reflexivity).
  exact Hrow.
Defined.

(** ** Detection pass, then replay pass *)

(** X12.  A frame on which the detection pass succeeded with at least one
    kept contour is read back by the replay pass (without a smoothing run:
    load_smooth already false, or source_type not 0): detected_mask is the
    filled mask that was saved, corners is [top_left, bot_right, top_right,
    bot_left] of the row that was written, detection_successful is true and
    frame_num advances by one.  The exception is a filled mask with a single
    row: len(detected_mask) == 1 takes it for the empty marker, so
    detection_successful becomes false and corners is not loaded. *)
Theorem detect_then_replay {num : Type} `{Numeric num}
    (cfg : Config num) (savgol_filter : list num -> Z -> Z -> res (list num))
    (contour : Type) (findContours : Mask -> list contour)
    (contourArea : contour -> num) (minAreaRect_center : contour -> Point num)
    (boxPoints : contour -> list (Point num))
    (drawContours : Mask -> contour -> Mask)
    (predict_full_size : Image -> list (list num))
    (self self1 replay : Replacer num) (image image' : Image) :
  let detect :=
    detect_banner cfg savgol_filter contour findContours contourArea
      minAreaRect_center boxPoints drawContours predict_full_size in
  before_smoothing self = true ->
  detect image self = (self1, Ok tt) ->
  List.filter (above_filter cfg contour contourArea)
    (findContours (threshold_mask cfg (predict_full_size image))) <> [] ->
  before_smoothing replay = false ->
  saved_frame_mask replay = saved_frame_mask self1 ->
  saved_points replay = saved_points self1 ->
  frame_num replay = frame_num self ->
  load_smooth replay && (source_type cfg =? 0)%Z = false ->
  exists row filled,
    loc (saved_points self1) (frame_num self) = Some row /\
    loc (saved_frame_mask self1) (frame_num self) = Some (Arr2 filled) /\
    snd (detect image' replay) = Ok tt /\
    let replay1 := fst (detect image' replay) in
    detected_mask replay1 = Some (Arr2 filled) /\
    frame replay1 = image' /\
    frame_num replay1 = (frame_num self + 1)%Z /\
    if Nat.eqb (length filled) 1 then
      detection_successful replay1 = false /\ corners replay1 = corners replay
    else
      detection_successful replay1 = true /\
      corners replay1
      = Some {| corner0 := (x_top_left row, y_top_left row);
                corner1 := (x_bot_right row, y_bot_right row);
                corner2 := (x_top_right row, y_top_right row);
                corner3 := (x_bot_left row, y_bot_left row) |}.
Proof.
  intros detect Hbefore Hdetect Hkept Hreplay Hfiles Hpoints Hnum Hsmooth.
  unfold detect, detect_banner in Hdetect. simpl in Hdetect. rewrite Hbefore in Hdetect.
  set (mask := threshold_mask cfg (predict_full_size image)) in *.
  set (self0 := set_frame self image) in *.
  destruct (scan_contours_spec cfg contour contourArea minAreaRect_center
              boxPoints drawContours (findContours mask)
              (scan_start contour self0 mask)
              (centers_set_start contour self0 mask))
    as (s & Hrun & _ & _ & Hf & _).
  assert (first_cnt contour s = false) as Hfirst.
  { rewrite Hf. by destruct (List.filter _ _). }
  unfold check_contours in Hdetect. rewrite Hrun, Hfirst in Hdetect.
  destruct (corner_row contour s) as [row|e]; [|done].
  injection Hdetect as <-.
  exists row, (fsz_mask contour s).
  split; [apply loc_loc_assign|]. split; [apply loc_loc_assign|].
  unfold detect, detect_banner. simpl. rewrite Hreplay, Hfiles, Hnum. simpl.
  change (frame_num self0) with (frame_num self). rewrite loc_loc_assign.
  cbn [np_len].
  destruct (Nat.eqb (length (fsz_mask contour s)) 1); [simpl; by rewrite Hnum|].
  unfold load_points. cbn [load_smooth set_detected_mask set_frame].
  rewrite Hsmooth. cbn [saved_points frame_num set_detected_mask set_frame].
  rewrite Hpoints, Hnum. simpl.
  change (frame_num self0) with (frame_num self). rewrite loc_loc_assign.
  simpl. by rewrite Hnum.
Qed.

Lemma detect_then_replay_witness :
  let replay1 := fst (sample_detect frame23 replay_once) in
  detection_successful replay1 = true /\
  detected_mask replay1 = Some (Arr2 [[0; 1; 1]; [0; 1; 1]]%Z) /\
  corners replay1
  = Some {| corner0 := (qz 100, qz 50); corner1 := (qz 150, qz 70);
            corner2 := (qz 150, qz 50); corner3 := (qz 100, qz 70) |}.
Proof.
  destruct (detect_then_replay cfg_area moving_average SampleContour
              (fun _ => [contour_500]) s_area s_center s_box sample_draw
              (fun _ => [[qz 0; qz 1; qz 1]; [qz 0; qz 1; qz 1]])
              init detected_once replay_once frame23 frame23)
    as (row & filled & Hrow & Hfile & _ & Hmask & _ & _ & Hrest);
    try (vm_compute; reflexivity); try (vm_compute; discriminate).
  vm_compute in Hrow, Hfile. injection Hrow as <-. injection Hfile as <-.
  cbn [length Nat.eqb] in Hrest. destruct Hrest as [Hok Hcorners].
  split; [exact Hok|]. split; [exact Hmask|]. exact Hcorners.
Defined.

(** ** Loading the points *)

(** X13.  The table is smoothed at most once in a replay pass: once
    __load_points has returned, a later call at any frame number leaves
    saved_points and load_smooth as they are, and it succeeds exactly when
    the table has a row for that frame; for a video (source_type 0) the
    first successful call leaves load_smooth false. *)
Theorem load_points_smooths_once {num : Type} `{Numeric num}
    (cfg : Config num) (savgol_filter : list num -> Z -> Z -> res (list num))
    (self self1 : Replacer num) :
  load_points cfg savgol_filter self = (self1, Ok tt) ->
  (source_type cfg = 0%Z -> load_smooth self1 = false) /\
  forall n,
    let out := load_points cfg savgol_filter (set_frame_num self1 n) in
    saved_points (fst out) = saved_points self1 /\
    load_smooth (fst out) = load_smooth self1 /\
    match loc (saved_points self1) n with
    | Some _ => snd out = Ok tt
    | None => snd out = Raise (KeyError n)
    end.
Proof.
  intros Hload.
  assert (load_smooth self1 && (source_type cfg =? 0)%Z = false) as Hoff.
  { unfold load_points in Hload.
    destruct (load_smooth self && (source_type cfg =? 0)%Z) eqn:Hon.
    - destruct (smooth_points savgol_filter cfg (saved_points self)) as [points [[]|e]];
        [|done].
      destruct (loc _ _); [|done]. by injection Hload as <-.
    - destruct (loc _ _); [|done]. injection Hload as <-. exact Hon. }
  split.
  - intros Hvideo. rewrite Hvideo in Hoff. simpl in Hoff.
    by rewrite andb_true_r in Hoff.
  - intros n. unfold load_points. cbn [load_smooth set_frame_num]. rewrite Hoff.
    cbn [saved_points frame_num set_frame_num].
    by destruct (loc (saved_points self1) n).
Qed.

Lemma load_points_smooths_once_witness :
  let self1 := fst (load_points cfg_sample moving_average replay_store20) in
  load_smooth self1 = false /\
  saved_points (fst (load_points cfg_sample moving_average (set_frame_num self1 5)))
  = saved_points self1 /\
  snd (load_points cfg_sample moving_average (set_frame_num self1 40))
  = Raise (KeyError 40).
Proof.
  assert (load_points cfg_sample moving_average replay_store20
          = (fst (load_points cfg_sample moving_average replay_store20), Ok tt)) as Hload
    by (vm_compute; reflexivity).
  destruct (load_points_smooths_once cfg_sample moving_average replay_store20 _ Hload)
    as [Hvideo Hlater].
  split; [by apply Hvideo|]. split.
  - by destruct (Hlater 5%Z) as (Hsame & _).
  - destruct (Hlater 40%Z) as (_ & _ & Hrow).
    replace (loc (saved_points (fst (load_points cfg_sample moving_average
                                       replay_store20))) 40)
      with (@None (Corners xnum)) in Hrow by (vm_compute; reflexivity).
    exact Hrow.
Defined.

(** ** The compositor: first frames and invariants *)

(** X14.  Until a frame has shown the whole banner, old_width is None: a
    detected quad that touches the left or the right edge of the frame then
    makes insert_logo raise, and the object (the frame with it) is left as
    it was.  The exception is TypeError, unless one of the int() conversions
    of the colour adjustment, which runs first, has raised already (on a NaN
    or an infinite coordinate of corners[0] or corners[1]). *)
Theorem truncated_before_full_view {num : Type} `{Numeric num}
    (logo_file : Image) (crop : Image -> Z -> Z -> Z -> Z -> Image)
    (saturation : Image -> list Z) (scale_saturation : Image -> num -> Image)
    (warpPerspective :
       Image -> list (Point num) -> list (Point num) -> nat -> nat -> Image)
    (self : Replacer num) (c : CornerList num) :
  detection_successful self = true ->
  corners self = Some c ->
  old_width self = None ->
  regime c (shape1 (frame self)) <> in_frame ->
  exists e,
    insert_logo logo_file crop saturation scale_saturation warpPerspective self
    = (self, Raise e) /\
    match crop_bounds c with
    | Ok _ => e = TypeError
    | Raise e' => e = e'
    end.
Proof.
  intros Hok Hc Hw Hregime.
  destruct (insert_logo_raises_early logo_file crop saturation scale_saturation
              warpPerspective self c Hok Hc) as [Hint Hcut].
  destruct (crop_bounds c) as [b|e] eqn:Hb.
  - exists TypeError. split; [|done]. by apply (Hcut b).
  - exists e. split; [|done]. by apply Hint.
Qed.

Lemma truncated_before_full_view_witness :
  insert_logo [[white]] (fun _ _ _ _ _ => [[black]]) (fun _ => [100%Z])
    (fun img _ => img) sample_warp at_right_edge_first
  = (at_right_edge_first, Raise TypeError).
Proof.
  destruct (truncated_before_full_view [[white]] (fun _ _ _ _ _ => [[black]])
              (fun _ => [100%Z]) (fun img _ => img) sample_warp at_right_edge_first
              {| corner0 := (qz 1, qz 0); corner1 := (qz 2, qz 1);
                 corner2 := (qz 2, qz 0); corner3 := (qz 1, qz 1) |})
    as (e & Hrun & He); [reflexivity | reflexivity | reflexivity | |].
  - vm_compute. discriminate.
  - rewrite Hrun. vm_compute in He. by rewrite He.
Defined.

Lemma replace_row_length (mask : npy) (logo : Image) (k : nat) (columns : list nat) :
  forall row, length (fst (replace_row mask logo k columns row)) = length row.
Proof.
  induction columns as [|j rest IH]; intros row; [done|].
  cbn [replace_row].
  destruct (np_get2 mask k j) as [v|e]; [|done].
  destruct (v =? 1)%Z; [|apply IH].
  destruct (logo !! k) as [logo_row|]; [|done].
  destruct (logo_row !! j) as [p|]; [|done].
  rewrite IH. apply length_insert.
Qed.

Lemma replace_pixels_shape (mask : npy) (logo : Image) (width : nat) (rows : list nat) :
  forall frame,
    map length (fst (replace_pixels mask logo width rows frame)) = map length frame.
Proof.
  induction rows as [|k rest IH]; intros frame; [done|].
  cbn [replace_pixels].
  destruct (frame !! k) as [row|] eqn:Hrow; [|done].
  pose proof (replace_row_length mask logo k (seq 0 width) row) as Hlen.
  assert (map length (<[k := fst (replace_row mask logo k (seq 0 width) row)]> frame)
          = map length frame) as Hsame.
  { change (map length) with (fmap (M := list) (@length Pixel)).
    rewrite list_fmap_insert, Hlen. apply list_insert_id.
    by rewrite list_lookup_fmap, Hrow. }
  destruct (replace_row mask logo k (seq 0 width) row) as [row' [[]|e]]; cbn [fst] in *.
  - by rewrite IH.
  - done.
Qed.

(** X15.  Whatever insert_logo does, and whether it returns or raises, the
    frame keeps its shape (the same number of rows, each of its old length),
    and only frame and old_width can change: the detected mask, the corners,
    the flags, the frame counter, the running centres, the table and the
    saved files are left as they were. *)
Theorem insert_logo_keeps_shape {num : Type} `{Numeric num}
    (logo_file : Image) (crop : Image -> Z -> Z -> Z -> Z -> Image)
    (saturation : Image -> list Z) (scale_saturation : Image -> num -> Image)
    (warpPerspective :
       Image -> list (Point num) -> list (Point num) -> nat -> nat -> Image)
    (self : Replacer num) :
  let self' :=
    fst (insert_logo logo_file crop saturation scale_saturation warpPerspective self) in
  map length (frame self') = map length (frame self) /\
  detected_mask self' = detected_mask self /\
  detection_successful self' = detection_successful self /\
  corners self' = corners self /\
  center_left self' = center_left self /\
  center_right self' = center_right self /\
  frame_num self' = frame_num self /\
  before_smoothing self' = before_smoothing self /\
  load_smooth self' = load_smooth self /\
  saved_points self' = saved_points self /\
  saved_frame_mask self' = saved_frame_mask self.
Proof.
  cbn zeta. unfold insert_logo.
  destruct (detection_successful self) eqn:Hd; cbn [negb]; [|simpl; by rewrite Hd].
  destruct (corners self) as [c|] eqn:Hc; [|simpl; by rewrite Hd, Hc].
  destruct (logo_color_adj _ _ _ _ _ _) as [logo|e]; [|simpl; by rewrite Hd, Hc].
  unfold adjust_logo_shape. rewrite Hc.
  destruct (target_points c (shape1 (frame self)) (old_width self)) as [[pts2 w]|e];
    [|simpl; by rewrite Hd, Hc].
  cbn [detected_mask set_old_width frame].
  destruct (detected_mask self) as [mask|] eqn:Hmask; [|simpl; by rewrite Hd, Hmask, Hc].
  match goal with
  | |- context [replace_pixels ?m ?l ?w ?rows ?f] =>
      pose proof (replace_pixels_shape m l w rows f) as Hshape;
      destruct (replace_pixels m l w rows f) as [f' r]
  end.
  simpl in *. by rewrite Hd, Hmask, Hc.
Qed.

(** ** The Dice loss and the Dice coefficient *)

Lemma Q2R_lit_0 : Q2R 0 = 0%R.
Proof. unfold Q2R. simpl. lra. Qed.

Lemma Q2R_lit_1 : Q2R 1 = 1%R.
Proof. unfold Q2R. simpl. rewrite Rinv_1. lra. Qed.

Lemma Q2R_lit_2 : Q2R 2 = 2%R.
Proof. unfold Q2R. simpl. rewrite Rinv_1. lra. Qed.

(* the two sums of the Dice formulas, from any start values *)
Lemma dice_sums_bound (y_true : list R) :
  forall (y_pred : list R) (a b : R),
    Forall unit_interval y_true -> Forall unit_interval y_pred ->
    (0 <= a)%R -> (2 * a <= b)%R ->
    (0 <= fold_left Rplus (zip_with Rmult y_true y_pred) a)%R /\
    (2 * fold_left Rplus (zip_with Rmult y_true y_pred) a
     <= fold_left Rplus (zip_with Rplus y_true y_pred) b)%R.
Proof.
  induction y_true as [|t rest IH]; intros y_pred a b Ht Hp Ha Hab; [simpl; lra|].
  destruct y_pred as [|p rest']; [simpl; lra|].
  apply Forall_cons in Ht as [[Ht0 Ht1] Ht]. apply Forall_cons in Hp as [[Hp0 Hp1] Hp].
  cbn [zip_with fold_left]. apply IH; try done; nra.
Qed.

Lemma dice_sums_binary (y : list R) :
  forall (a b : R),
    Forall binary y ->
    (fold_left Rplus (zip_with Rplus y y) b - b
     = 2 * (fold_left Rplus (zip_with Rmult y y) a - a))%R.
Proof.
  induction y as [|t rest IH]; intros a b Hy; [simpl; lra|].
  apply Forall_cons in Hy as [Ht Hy]. cbn [zip_with fold_left].
  pose proof (IH (a + t * t) (b + (t + t)) Hy)%R as Hrest.
  destruct Ht as [-> | ->]; lra.
Qed.

(** X16.  The Dice loss of one sample lies in [0, 1] when the entries of
    y_true and y_pred lie in [0, 1] and are not all zero (the sum of all
    entries, the denominator, is positive); and it is 0 for a prediction
    equal to a binary mask that is not empty. *)
Theorem dice_loss_range (y_true y_pred : list R) :
  Forall unit_interval y_true -> Forall unit_interval y_pred ->
  (0 < reduce_sum (zip_with add y_true y_pred))%R ->
  (0 <= dice_loss y_true y_pred <= 1)%R /\
  (Forall binary y_true -> y_pred = y_true -> dice_loss y_true y_pred = 0%R).
Proof.
  intros Ht Hp Hpos. unfold dice_loss, reduce_sum in *.
  cbn [lit add sub mul div R_numeric] in *.
  rewrite Q2R_lit_0, Q2R_lit_1, Q2R_lit_2 in *.
  destruct (dice_sums_bound y_true y_pred 0 0 Ht Hp) as [Hn Hnd]; [lra..|].
  set (n := fold_left Rplus (zip_with Rmult y_true y_pred) 0%R) in *.
  set (d := fold_left Rplus (zip_with Rplus y_true y_pred) 0%R) in *.
  split.
  - pose proof (Rinv_0_lt_compat d Hpos) as Hinv.
    assert (d * / d = 1)%R as Hone by (apply Rinv_r; lra).
    unfold Rdiv. split; nra.
  - intros Hbin ->. subst n d.
    pose proof (dice_sums_binary y_true 0 0 Hbin) as Hsame.
    set (n := fold_left Rplus (zip_with Rmult y_true y_true) 0%R) in *.
    set (d := fold_left Rplus (zip_with Rplus y_true y_true) 0%R) in *.
    replace (2 * n)%R with d by lra. field. lra.
Qed.

Lemma dice_loss_range_witness :
  (0 <= dice_loss [1; 0; 1] [1 / 2; 1 / 2; 1] <= 1)%R /\
  dice_loss [1; 0; 1]%R [1; 0; 1]%R = 0%R.
Proof.
  assert (Forall unit_interval [1; 0; 1]%R) as Ht
    by (repeat constructor; unfold unit_interval; lra).
  assert (Forall unit_interval [1 / 2; 1 / 2; 1]%R) as Hp
    by (repeat constructor; unfold unit_interval; lra).
  split.
  - apply (dice_loss_range [1; 0; 1]%R [1 / 2; 1 / 2; 1]%R Ht Hp).
    unfold reduce_sum. simpl. rewrite Q2R_lit_0. lra.
  - apply (dice_loss_range [1; 0; 1]%R [1; 0; 1]%R Ht Ht).
    + unfold reduce_sum. simpl. rewrite Q2R_lit_0. lra.
    + repeat constructor; unfold binary; lra.
    + reflexivity.
Defined.

(** X17.  The Dice coefficient lies in (0, 1] when the entries of y_true and
    y_pred lie in [0, 1], also when all of them are zero, and it is 1 for a
    prediction equal to a binary mask. *)
Theorem dice_coef_range (y_true y_pred : list R) :
  Forall unit_interval y_true -> Forall unit_interval y_pred ->
  (0 < dice_coef y_true y_pred <= 1)%R /\
  (Forall binary y_true -> y_pred = y_true -> dice_coef y_true y_pred = 1%R).
Proof.
  intros Ht Hp. unfold dice_coef, reduce_sum.
  cbn [lit add sub mul div R_numeric].
  rewrite Q2R_lit_0, Q2R_lit_1, Q2R_lit_2.
  destruct (dice_sums_bound y_true y_pred 0 0 Ht Hp) as [Hn Hnd]; [lra..|].
  set (n := fold_left Rplus (zip_with Rmult y_true y_pred) 0%R) in *.
  set (d := fold_left Rplus (zip_with Rplus y_true y_pred) 0%R) in *.
  assert (0 < d + 1)%R as Hpos by lra.
  split.
  - pose proof (Rinv_0_lt_compat (d + 1) Hpos) as Hinv.
    assert ((d + 1) * / (d + 1) = 1)%R as Hone by (apply Rinv_r; lra).
    unfold Rdiv. split; nra.
  - intros Hbin ->. subst n d.
    pose proof (dice_sums_binary y_true 0 0 Hbin) as Hsame.
    set (n := fold_left Rplus (zip_with Rmult y_true y_true) 0%R) in *.
    set (d := fold_left Rplus (zip_with Rplus y_true y_true) 0%R) in *.
    replace (2 * n)%R with d by lra. field. lra.
Qed.

Lemma dice_coef_range_witness :
  (0 < dice_coef [0; 0]%R [0; 0]%R <= 1)%R /\
  dice_coef [1; 0]%R [1; 0]%R = 1%R.
Proof.
  assert (Forall unit_interval [0; 0]%R) as H0
    by (repeat constructor; unfold unit_interval; lra).
  assert (Forall unit_interval [1; 0]%R) as H1
    by (repeat constructor; unfold unit_interval; lra).
  split.
  - apply (dice_coef_range [0; 0]%R [0; 0]%R H0 H0).
  - apply (dice_coef_range [1; 0]%R [1; 0]%R H1 H1).
    + repeat constructor; unfold binary; lra.
    + reflexivity.
Defined.

Lemma xnum_sum_zero_products (n : nat) :
  fold_left X.add (zip_with X.mul (replicate n (Fin 0)) (replicate n (Fin 0))) (Fin 0)
  = Fin 0.
Proof.
  induction n as [|n IH]; [done|].
  cbn [replicate zip_with fold_left].
  change (X.add (Fin 0) (X.mul (Fin 0) (Fin 0))) with (Fin 0). exact IH.
Qed.

Lemma xnum_sum_zero_sums (n : nat) :
  fold_left X.add (zip_with X.add (replicate n (Fin 0)) (replicate n (Fin 0))) (Fin 0)
  = Fin 0.
Proof.
  induction n as [|n IH]; [done|].
  cbn [replicate zip_with fold_left].
  change (X.add (Fin 0) (X.add (Fin 0) (Fin 0))) with (Fin 0). exact IH.
Qed.

(** X18.  The Dice loss has no smoothing term: for a sample whose mask and
    prediction are zero everywhere (of any size, also empty) the loss is
    0 / 0, which is NaN, while the Dice coefficient, which adds 1 above and
    below, is 1. *)
Theorem dice_loss_all_zero_nan (n : nat) :
  dice_loss (replicate n (Fin 0)) (replicate n (Fin 0)) = NaN /\
  dice_coef (replicate n (Fin 0)) (replicate n (Fin 0)) = Fin 1.
Proof.
  unfold dice_loss, dice_coef, reduce_sum. cbn [lit add sub mul div xnum_numeric].
  change (X.fin 0) with (Fin 0).
  rewrite xnum_sum_zero_products, xnum_sum_zero_sums.
  split; vm_compute; reflexivity.
Qed.
